(** * The cleaning engine of datacleaning-assistant (src/data_cleaner.py)

    A shallow embedding of [DataCleaner] and of the pandas operations its
    passes call, and of the summary of its log (src/report_generator.py),
    followed by the properties of the passes.

    Conventions of the embedding.
    - A pandas [DataFrame] is a row index (labels) and a list of columns;
      a column carries its label, its dtype and its cells.
    - A cell is [None] when it is missing (NaN / None; [isna] does not
      tell them apart) and [Some v] otherwise.
    - Floating point numbers are idealised: a number is an exact rational
      or a signed infinity, NaN is the missing cell, rounding is ignored.
    - Python strings are modelled by [string]; column names and text
      cells are taken to be ASCII.
    - A pass looks a column up by its label: [df[col]] is the column
      with that label, and the properties of such passes are stated for
      frames whose labels are unique, as the data model has them.
    - The properties align the cells of every column on the row index;
      row labels are integers.
    - A Python exception is the [Raise] outcome of the [result] type.
    - [self.actions] and [self.outlier_flags] are threaded explicitly:
      every method is a function of the engine state. *)

From Stdlib Require Import QArith Qabs Qround Qreduction Lqa.
From Stdlib Require Import Strings.String Strings.Ascii Numbers.DecimalString.
From Stdlib Require Import Sorting.Sorted Structures.OrderedTypeEx.
From stdpp Require Import base option list gmap strings.

Open Scope string_scope.

(** ** Exceptions and the engine monad *)

Inductive exn :=
  | TypeError
  | ValueError
  | KeyError
  | IndexError
  | AttributeError.

Inductive result (A : Type) :=
  | Ok (a : A)
  | Raise (e : exn).
Arguments Ok {A} a.
Arguments Raise {A} e.

Definition raises {A} (r : result A) : Prop := ∃ e, r = Raise e.

Definition rbind {A B} (r : result A) (k : A → result B) : result B :=
  match r with
  | Ok a => k a
  | Raise e => Raise e
  end.

#[global] Instance result_fmap : FMap result := λ A B f r,
  match r with
  | Ok a => Ok (f a)
  | Raise e => Raise e
  end.
#[global] Instance result_ret : MRet result := λ A a, Ok a.
#[global] Instance result_bind : MBind result := λ A B k r, rbind r k.

(** A [for] loop whose body may raise: the state is threaded through the
    items from left to right and the first exception ends the loop. *)
Fixpoint for_each {A S} (body : A → S → result S) (items : list A) (s : S) : result S :=
  match items with
  | [] => Ok s
  | x :: items' => s' ← body x s; for_each body items' s'
  end.

(** ** Configuration and engine state *)

Record DataCleaner := mkDataCleaner {
  nullity_threshold : Q;
  outlier_method : string;
  outlier_action : string;
  fuzzy_threshold : Z;
  scale_numeric : bool;
  scale_method : string;
  actions : list string;
  outlier_flags : gmap string (list bool)
}.

(** [DataCleaner.__init__]: the six arguments are stored as given, the
    log and the flag map start empty.  No argument is inspected. *)
Definition __init__ (nullity_threshold : Q) (outlier_method outlier_action : string)
    (fuzzy_threshold : Z) (scale_numeric : bool) (scale_method : string)
    : result DataCleaner :=
  Ok {| nullity_threshold := nullity_threshold;
        outlier_method := outlier_method;
        outlier_action := outlier_action;
        fuzzy_threshold := fuzzy_threshold;
        scale_numeric := scale_numeric;
        scale_method := scale_method;
        actions := [];
        outlier_flags := ∅ |}.

(** The documented domains of section 4.1 of the specification. *)
Definition in_documented_domain (nt : Q) (om oa : string) (ft : Z) (sm : string) : Prop :=
  (0 <= nt)%Q ∧ (nt <= 1)%Q ∧
  (om = "iqr" ∨ om = "isolation_forest") ∧
  (oa = "cap" ∨ oa = "remove" ∨ oa = "flag") ∧
  (0 ≤ ft)%Z ∧ (ft ≤ 100)%Z ∧
  (sm = "minmax" ∨ sm = "standard").

Definition log (entry : string) (self : DataCleaner) : DataCleaner :=
  {| nullity_threshold := nullity_threshold self;
     outlier_method := outlier_method self;
     outlier_action := outlier_action self;
     fuzzy_threshold := fuzzy_threshold self;
     scale_numeric := scale_numeric self;
     scale_method := scale_method self;
     actions := actions self ++ [entry];
     outlier_flags := outlier_flags self |}.

(** ** Column names: [to_snake_case] *)

Module SnakeCase.

(** [\s] on a [str] pattern, restricted to ASCII: tab, line feed,
    vertical tab, form feed, carriage return, the four separators
    0x1c-0x1f and the space. *)
Definition is_space (c : ascii) : bool :=
  let n := nat_of_ascii c in
  (((9 <=? n) && (n <=? 13)) || ((28 <=? n) && (n <=? 32)))%nat.

(** The class [[\s-]]. *)
Definition is_sep (c : ascii) : bool := is_space c || (c =? "-")%char.

(** [re.sub(r'[\s-]+', '_', name)]: every maximal run of separators is
    replaced by one underscore.  [in_run] tells that the previous
    character was a separator of the run being replaced. *)
Fixpoint sub_runs (in_run : bool) (s : string) : string :=
  match s with
  | EmptyString => EmptyString
  | String c s' =>
      if is_sep c then
        if in_run then sub_runs true s' else String "_" (sub_runs true s')
      else String c (sub_runs false s')
  end.

Definition lower_char (c : ascii) : ascii :=
  let n := nat_of_ascii c in
  if ((65 <=? n) && (n <=? 90))%nat then ascii_of_nat (n + 32) else c.

(** [str.lower] *)
Fixpoint lower (s : string) : string :=
  match s with
  | EmptyString => EmptyString
  | String c s' => String (lower_char c) (lower s')
  end.

(** The class [[a-z0-9_]]. *)
Definition is_ident (c : ascii) : bool :=
  let n := nat_of_ascii c in
  (((97 <=? n) && (n <=? 122)) || ((48 <=? n) && (n <=? 57)) || (n =? 95))%nat.

(** [re.sub(r'[^a-z0-9_]', '', name)] *)
Fixpoint keep_ident (s : string) : string :=
  match s with
  | EmptyString => EmptyString
  | String c s' => if is_ident c then String c (keep_ident s') else keep_ident s'
  end.

Definition to_snake_case (name : string) : string :=
  let name := lower (sub_runs false name) in
  keep_ident name.

Fixpoint all_ident (s : string) : bool :=
  match s with
  | EmptyString => true
  | String c s' => is_ident c && all_ident s'
  end.

End SnakeCase.

(** ** Numbers

    A float that is not NaN is a [real]: an exact rational or a signed
    infinity.  A [float] is [None] for NaN.  The sign of zero is not
    represented. *)

Inductive real :=
  | Inf (neg : bool)
  | Fin (q : Q).

Abbreviation float := (option real).

Definition Qlt_bool (x y : Q) : bool := negb (Qle_bool y x).

Definition real_eqb (x y : real) : bool :=
  match x, y with
  | Inf s, Inf t => Bool.eqb s t
  | Fin a, Fin b => Qeq_bool a b
  | _, _ => false
  end.

Definition real_ltb (x y : real) : bool :=
  match x, y with
  | Fin a, Fin b => Qlt_bool a b
  | Inf true, Inf true => false
  | Inf true, _ => true
  | Fin _, Inf false => true
  | _, _ => false
  end.

Definition real_leb (x y : real) : bool := real_ltb x y || real_eqb x y.

(** Comparisons of floats: every comparison with NaN is false. *)
Definition flt (x y : float) : bool :=
  match x, y with
  | Some a, Some b => real_ltb a b
  | _, _ => false
  end.

Definition fgt (x y : float) : bool := flt y x.

Definition fneg (x : float) : float :=
  match x with
  | Some (Inf s) => Some (Inf (negb s))
  | Some (Fin q) => Some (Fin (Qred (- q)))
  | None => None
  end.

Definition fadd (x y : float) : float :=
  match x, y with
  | Some (Fin a), Some (Fin b) => Some (Fin (Qred (a + b)))
  | Some (Inf s), Some (Fin _) => Some (Inf s)
  | Some (Fin _), Some (Inf s) => Some (Inf s)
  | Some (Inf s), Some (Inf t) => if Bool.eqb s t then Some (Inf s) else None
  | _, _ => None
  end.

Definition fsub (x y : float) : float := fadd x (fneg y).

Definition fmul (x y : float) : float :=
  match x, y with
  | Some (Fin a), Some (Fin b) => Some (Fin (Qred (a * b)))
  | Some (Inf s), Some (Fin b) =>
      if Qeq_bool b 0 then None else Some (Inf (xorb s (Qlt_bool b 0)))
  | Some (Fin a), Some (Inf s) =>
      if Qeq_bool a 0 then None else Some (Inf (xorb s (Qlt_bool a 0)))
  | Some (Inf s), Some (Inf t) => Some (Inf (xorb s t))
  | _, _ => None
  end.

(** Division never raises on floats: [0/0] and [inf/inf] are NaN, a
    non-zero number over zero is an infinity. *)
Definition fdiv (x y : float) : float :=
  match x, y with
  | Some (Fin a), Some (Fin b) =>
      if Qeq_bool b 0 then
        if Qeq_bool a 0 then None else Some (Inf (Qlt_bool a 0))
      else Some (Fin (Qred (a / b)))
  | Some (Inf s), Some (Fin b) => Some (Inf (xorb s (Qlt_bool b 0)))
  | Some (Fin _), Some (Inf _) => Some (Fin 0)
  | _, _ => None
  end.

Definition of_nat (n : nat) : float := Some (Fin (inject_Z (Z.of_nat n))).

(** ** Cells, columns, frames *)

Inductive value :=
  | Num (x : real)
  | Str (s : string).

Abbreviation cell := (option value).

Inductive dtype :=
  | Int64
  | Float64
  | Object.

Record Column := mkColumn {
  col_name : string;
  col_dtype : dtype;
  cells : list cell
}.

Record DataFrame := mkDataFrame {
  index : list Z;
  columns : list Column
}.

(** Equality of cell contents as the hash tables behind
    [drop_duplicates] and [unique] see it: two missing cells are equal. *)
Definition value_eqb (u v : value) : bool :=
  match u, v with
  | Num x, Num y => real_eqb x y
  | Str s, Str t => String.eqb s t
  | _, _ => false
  end.

Definition cell_eqb (a b : cell) : bool :=
  match a, b with
  | None, None => true
  | Some u, Some v => value_eqb u v
  | _, _ => false
  end.

Definition isna (c : cell) : bool :=
  match c with
  | None => true
  | Some _ => false
  end.

Definition notna (c : cell) : bool := negb (isna c).

(** [mask.sum()] for a boolean mask. *)
Definition count_true (mask : list bool) : nat := length (List.filter id mask).

(** Boolean indexing [l[mask]]. *)
Fixpoint mask_select {A} (mask : list bool) (l : list A) : list A :=
  match mask, l with
  | b :: mask', x :: l' =>
      if b then x :: mask_select mask' l' else mask_select mask' l'
  | _, _ => []
  end.

(** [len(df)] *)
Definition nrows (df : DataFrame) : nat := length (index df).

(** [df.columns] *)
Definition labels (df : DataFrame) : list string := map col_name (columns df).

Definition with_cells (c : Column) (l : list cell) : Column :=
  {| col_name := col_name c; col_dtype := col_dtype c; cells := l |}.

(** [df[mask]]: the rows where the mask holds, in every column. *)
Definition select_rows (mask : list bool) (df : DataFrame) : DataFrame :=
  {| index := mask_select mask (index df);
     columns := map (λ c, with_cells c (mask_select mask (cells c))) (columns df) |}.

(** [df[col]] for a label held by one column. *)
Definition getitem (df : DataFrame) (col : string) : result Column :=
  match List.find (λ c, String.eqb (col_name c) col) (columns df) with
  | Some c => Ok c
  | None => Raise KeyError
  end.

(** [df[col] = series]: the column keeps its place and its label. *)
Definition setitem (df : DataFrame) (col : string) (dt : dtype) (l : list cell) : DataFrame :=
  {| index := index df;
     columns := map (λ c, if String.eqb (col_name c) col
                          then {| col_name := col; col_dtype := dt; cells := l |}
                          else c) (columns df) |}.

(** The cells of row [i], one per column. *)
Definition row_at (df : DataFrame) (i : nat) : list cell :=
  map (λ c, nth i (cells c) None) (columns df).

Definition row_eqb (r1 r2 : list cell) : bool :=
  (length r1 =? length r2)%nat && forallb (λ p, cell_eqb p.1 p.2) (combine r1 r2).

(** The numbers of a column.  A text cell makes the numeric reductions
    ([mean], [median]) raise [TypeError]. *)
Fixpoint to_floats (l : list cell) : result (list float) :=
  match l with
  | [] => Ok []
  | None :: l' => r ← to_floats l'; Ok (None :: r)
  | Some (Num x) :: l' => r ← to_floats l'; Ok (Some x :: r)
  | Some (Str _) :: l' => Raise TypeError
  end.

(** The non-NaN entries ([skipna=True]). *)
Definition dropna_floats (l : list float) : list real := omap id l.

(** [str(n)] for a natural number. *)
Definition str (n : nat) : string := NilEmpty.string_of_uint (Nat.to_uint n).

(** ** Pass 1: [remove_duplicates] *)

(** The first-seen-order scan behind [duplicated(keep='first')]:
    a row is marked when an equal row was seen before it. *)
Fixpoint duplicated_from (seen rows : list (list cell)) : list bool :=
  match rows with
  | [] => []
  | r :: rows' => existsb (row_eqb r) seen :: duplicated_from (seen ++ [r]) rows'
  end.

Definition rows (df : DataFrame) : list (list cell) :=
  map (row_at df) (seq 0 (nrows df)).

Definition duplicated (df : DataFrame) : list bool := duplicated_from [] (rows df).

(** [df.empty]: no row or no column. *)
Definition empty (df : DataFrame) : bool :=
  (nrows df =? 0)%nat || (length (columns df) =? 0)%nat.

(** [df.drop_duplicates()]; an empty frame is returned as it is. *)
Definition drop_duplicates (df : DataFrame) : DataFrame :=
  if empty df then df else select_rows (map negb (duplicated df)) df.

Definition remove_duplicates (self : DataCleaner) (df : DataFrame)
    : DataFrame * DataCleaner :=
  let initial_rows := nrows df in
  let df := drop_duplicates df in
  (df, log ("Removed " ++ str (initial_rows - nrows df) ++ " duplicate rows") self).

(** ** Reductions of a numeric column *)

Fixpoint insert_by {A} (leb : A → A → bool) (x : A) (l : list A) : list A :=
  match l with
  | [] => [x]
  | y :: l' => if leb x y then x :: l else y :: insert_by leb x l'
  end.

Definition sort_by {A} (leb : A → A → bool) (l : list A) : list A :=
  foldr (insert_by leb) [] l.

Definition fsum (l : list float) : float := foldl fadd (Some (Fin 0)) l.

(** [Series.mean()]: the sum of the non-NaN entries over their count;
    NaN when there is none. *)
Definition mean (l : list float) : float :=
  let xs := dropna_floats l in
  fdiv (fsum (map Some xs)) (of_nat (length xs)).

(** [Series.median()]: the middle of the sorted non-NaN entries, the
    mean of the two middle ones for an even count; NaN when there is none. *)
Definition median (l : list float) : float :=
  let xs := sort_by real_leb (dropna_floats l) in
  let n := length xs in
  if (n =? 0)%nat then None
  else if Nat.odd n then xs !! (n / 2)%nat
  else fdiv (fadd (xs !! (n / 2 - 1)%nat) (xs !! (n / 2)%nat)) (of_nat 2).

(** The finite entries, when all are finite. *)
Fixpoint all_finite (xs : list real) : option (list Q) :=
  match xs with
  | [] => Some []
  | Fin q :: xs' => qs ← all_finite xs'; Some (q :: qs)
  | Inf _ :: _ => None
  end.

Definition Qsum (l : list Q) : Q := foldr Qplus 0%Q l.

(** [nanops._zero_out_fperr] *)
Definition zero_out_fperr (x : Q) : Q :=
  if Qlt_bool (Qabs x) (1 # 100000000000000) then 0%Q else x.

(** The real number [sgn * sqrt square], with [sgn] the sign of a
    rational: the skewness is not rational, its sign and its square are. *)
Record root := mkRoot {
  sgn : Z;
  square : Q
}.

(** [r < k] for a rational [k]. *)
Definition root_ltb (r : root) (k : Q) : bool :=
  if (sgn r =? 0)%Z || Qeq_bool (square r) 0 then Qlt_bool 0 k
  else if (0 <? sgn r)%Z then Qlt_bool 0 k && Qlt_bool (square r) (k * k)
  else Qlt_bool 0 k || Qlt_bool (k * k) (square r).

(** [Series.skew()] ([nanops.nanskew]): with [count] non-NaN entries,
    [m2] and [m3] the sums of the squared and cubed deviations from their
    mean, the result is [count * sqrt(count - 1) / (count - 2) * m3 / m2**1.5],
    [0] when [m2 == 0], and NaN when [count < 3].  An infinite entry makes
    [m2] NaN, hence the result. *)
Definition skew (l : list float) : option root :=
  match all_finite (dropna_floats l) with
  | None => None
  | Some qs =>
      let count := inject_Z (Z.of_nat (length qs)) in
      let mean := (Qsum qs / count)%Q in
      let adjusted := map (λ x, x - mean)%Q qs in
      let m2 := zero_out_fperr (Qsum (map (λ d, d * d)%Q adjusted)) in
      let m3 := zero_out_fperr (Qsum (map (λ d, d * d * d)%Q adjusted)) in
      if (length qs <? 3)%nat then None
      else if Qeq_bool m2 0 then Some {| sgn := 0; square := 0 |}
      else Some {| sgn := Z.sgn (Qnum m3);
                   square := Qred (count * count * (count - 1) * (m3 * m3)
                                   / ((count - 2) * (count - 2) * (m2 * m2 * m2))) |}
  end.

(** [series.skew() < k]; false on NaN. *)
Definition skew_lt (l : list float) (k : Q) : bool :=
  match skew l with
  | Some r => root_ltb r k
  | None => false
  end.

(** ** [Series.mode()] *)

(** [unique()]: the distinct entries in the order of first appearance. *)
Fixpoint unique_from {A} (eqb : A → A → bool) (seen l : list A) : list A :=
  match l with
  | [] => []
  | x :: l' =>
      if existsb (eqb x) seen then unique_from eqb seen l'
      else x :: unique_from eqb (x :: seen) l'
  end.

Definition unique {A} (eqb : A → A → bool) (l : list A) : list A := unique_from eqb [] l.

Definition count_of (v : value) (l : list value) : nat :=
  length (List.filter (value_eqb v) l).

Definition is_num (v : value) : bool :=
  match v with
  | Num _ => true
  | Str _ => false
  end.

Definition value_leb (u v : value) : bool :=
  match u, v with
  | Num x, Num y => real_leb x y
  | Str s, Str t => String.leb s t
  | _, _ => false
  end.

(** [np.sort] of the modes: numbers by value, texts by code point; a mix
    of both cannot be ordered and is returned unsorted. *)
Definition sort_modes (l : list value) : list value :=
  if forallb is_num l || forallb (λ v, negb (is_num v)) l
  then sort_by value_leb l else l.

(** [Series.mode()]: the most frequent non-null values, sorted. *)
Definition mode (l : list cell) : list value :=
  let vs := omap id l in
  let us := unique value_eqb vs in
  let best := foldr Nat.max 0%nat (map (λ u, count_of u vs) us) in
  sort_modes (List.filter (λ u, (count_of u vs =? best)%nat) us).

(** [series.mode()[0]] *)
Definition mode0 (l : list cell) : result value :=
  match mode l with
  | v :: _ => Ok v
  | [] => Raise KeyError
  end.

(** ** Pass 2: [handle_missing_values] *)

(** [series.fillna(v)]; filling with NaN changes nothing. *)
Definition fillna (v : cell) (l : list cell) : list cell :=
  map (λ c, if isna c then v else c) l.

(** The branch taken under [strategy == 'auto']. *)
Definition auto_strategy (c : Column) : result string :=
  match col_dtype c with
  | Int64 | Float64 =>
      xs ← to_floats (cells c);
      Ok (if skew_lt xs 2 then "mean" else "median")
  | Object => Ok "mode"
  end.

(** The body of [if strategy == 'mean': ... elif ...] on column [c]. *)
Definition apply_strategy (strategy : string) (df : DataFrame) (col : string) (c : Column)
    : result DataFrame :=
  if String.eqb strategy "mean" then
    xs ← to_floats (cells c);
    Ok (setitem df col (col_dtype c) (fillna (Num <$> mean xs) (cells c)))
  else if String.eqb strategy "median" then
    xs ← to_floats (cells c);
    Ok (setitem df col (col_dtype c) (fillna (Num <$> median xs) (cells c)))
  else if String.eqb strategy "mode" then
    v ← mode0 (cells c);
    Ok (setitem df col (col_dtype c) (fillna (Some v) (cells c)))
  else if String.eqb strategy "drop" then
    Ok (select_rows (map notna (cells c)) df)
  else Ok df.

(** One iteration of the loop over [df.columns].  The loop state is the
    frame, the variable [strategy] and the engine: [strategy] is assigned
    inside the loop and keeps its value in the next iteration. *)
Definition handle_missing_column (col : string) (st : DataFrame * string * DataCleaner)
    : result (DataFrame * string * DataCleaner) :=
  let '(df, strategy, self) := st in
  c ← getitem df col;
  if (0 <? count_true (map isna (cells c)))%nat then
    strategy ← (if String.eqb strategy "auto" then auto_strategy c else Ok strategy);
    df ← apply_strategy strategy df col c;
    Ok (df, strategy,
        log ("Handled missing values in '" ++ col ++ "' with " ++ strategy) self)
  else Ok st.

Definition handle_missing_values (self : DataCleaner) (df : DataFrame) (strategy : string)
    : result (DataFrame * DataCleaner) :=
  st ← for_each handle_missing_column (labels df) (df, strategy, self);
  Ok (st.1.1, st.2).

(** ** Pass 3: [standardize_columns] *)

(** [df.columns = names] *)
Definition set_labels (names : list string) (df : DataFrame) : DataFrame :=
  {| index := index df;
     columns := zip_with (λ n c, {| col_name := n; col_dtype := col_dtype c;
                                    cells := cells c |}) names (columns df) |}.

Definition standardize_columns (self : DataCleaner) (df : DataFrame)
    : DataFrame * DataCleaner :=
  (set_labels (map SnakeCase.to_snake_case (labels df)) df,
   log "Standardized column names to snake_case" self).

(** ** Library functions taken as parameters

    The engine calls into libraries whose code is not part of the
    repository; the passes are defined over any implementation of them. *)
Class Libraries := {
  (** [pd.to_numeric(series, errors='ignore')] under the bare [except]:
      the converted column, or the column itself when it does not parse. *)
  pd_to_numeric : Column → Column;
  (** [IsolationForest(contamination=0.1, random_state=42).fit_predict]
      on the numeric columns: one label per row, [-1] for an anomaly. *)
  fit_predict : list (list float) → result (list Z);
  (** [fuzz.ratio] *)
  ratio : string → string → Z;
  (** the square root of floats *)
  fsqrt : float → float;
  (** the format [{x:.2%}] *)
  format_percent : float → string
}.

(** ** Pass 4: [fix_data_types] *)

Definition fix_column `{Libraries} (col : string) (st : DataFrame * DataCleaner)
    : result (DataFrame * DataCleaner) :=
  let '(df, self) := st in
  c ← getitem df col;
  let df := match col_dtype c with
            | Object => let c' := pd_to_numeric c in setitem df col (col_dtype c') (cells c')
            | _ => df
            end in
  Ok (df, log ("Checked and fixed data types for '" ++ col ++ "'") self).

Definition fix_data_types `{Libraries} (self : DataCleaner) (df : DataFrame)
    : result (DataFrame * DataCleaner) :=
  for_each fix_column (labels df) (df, self).

(** ** Pass 5: [detect_outliers] *)

Definition is_numeric (dt : dtype) : bool :=
  match dt with
  | Int64 | Float64 => true
  | Object => false
  end.

(** [df.select_dtypes(include=[np.number]).columns] *)
Definition numeric_labels (df : DataFrame) : list string :=
  map col_name (List.filter (λ c, is_numeric (col_dtype c)) (columns df)).

(** numpy's [_lerp(a, b, t)] *)
Definition lerp (a b t : float) : float :=
  let diff_b_a := fsub b a in
  if flt t (Some (Fin (1 # 2))) then fadd a (fmul diff_b_a t)
  else fsub b (fmul diff_b_a (fsub (Some (Fin 1)) t)).

(** [Series.quantile(q)] with the default linear interpolation, for
    [0 <= q <= 1]: position [(n - 1) * q] in the sorted non-NaN entries. *)
Definition quantile (l : list float) (q : Q) : float :=
  let xs := sort_by real_leb (dropna_floats l) in
  let n := length xs in
  if (n =? 0)%nat then None
  else
    let virtual_index := (inject_Z (Z.of_nat (n - 1)) * q)%Q in
    let previous := Z.to_nat (Qfloor virtual_index) in
    let next := Nat.min (previous + 1) (n - 1) in
    let gamma := (virtual_index - inject_Z (Z.of_nat previous))%Q in
    lerp (xs !! previous) (xs !! next) (Some (Fin gamma)).

(** [Series.clip(lower, upper)] for [lower <= upper]; a NaN bound or a
    NaN entry leaves the entry as it is. *)
Definition clip (lower upper x : float) : float :=
  if flt x lower then lower else if fgt x upper then upper else x.

Definition float_cell (x : float) : cell := Num <$> x.

Definition is_integral (x : float) : bool :=
  match x with
  | Some (Fin q) => Qeq_bool q (inject_Z (Qfloor q))
  | _ => false
  end.

(** [df.loc[mask, col] = new]: the masked rows take the new entries. *)
Fixpoint assign_where (mask : list bool) (new old : list float) : list float :=
  match mask, new, old with
  | b :: mask', n :: new', o :: old' =>
      (if b then n else o) :: assign_where mask' new' old'
  | _, _, _ => old
  end.

(** An [int64] column stays [int64] when every assigned entry is a whole
    number, and becomes [float64] otherwise. *)
Definition dtype_after_assign (dt : dtype) (mask : list bool) (new : list float) : dtype :=
  match dt with
  | Int64 => if forallb is_integral (mask_select mask new) then Int64 else Float64
  | _ => dt
  end.

(** [df.drop(ls, inplace=True)]: every row whose label is in [ls] goes. *)
Definition drop_rows (ls : list Z) (df : DataFrame) : DataFrame :=
  select_rows (map (λ i, negb (existsb (Z.eqb i) ls)) (index df)) df.

Definition set_flag (col : string) (outliers : list bool) (self : DataCleaner) : DataCleaner :=
  {| nullity_threshold := nullity_threshold self;
     outlier_method := outlier_method self;
     outlier_action := outlier_action self;
     fuzzy_threshold := fuzzy_threshold self;
     scale_numeric := scale_numeric self;
     scale_method := scale_method self;
     actions := actions self;
     outlier_flags := <[col := outliers]> (outlier_flags self) |}.

(** [logger.info(self.actions[-1])] reads the last entry of the log. *)
Definition log_last (self : DataCleaner) : result unit :=
  match actions self with
  | [] => Raise IndexError
  | _ => Ok ()
  end.

Definition _handle_outliers (self : DataCleaner) (df : DataFrame) (col : string)
    (outliers : list bool) (lower_bound upper_bound : float)
    : result (DataFrame * DataCleaner) :=
  let outlier_count := count_true outliers in
  if (0 <? outlier_count)%nat then
    st ← (if String.eqb (outlier_action self) "cap" then
            c ← getitem df col;
            xs ← to_floats (cells c);
            let clipped := map (clip lower_bound upper_bound) xs in
            Ok (setitem df col (dtype_after_assign (col_dtype c) outliers clipped)
                        (map float_cell (assign_where outliers clipped xs)),
                log ("Capped " ++ str outlier_count ++ " outliers in '" ++ col ++ "'") self)
          else if String.eqb (outlier_action self) "remove" then
            Ok (drop_rows (mask_select outliers (index df)) df,
                log ("Removed " ++ str outlier_count ++ " outliers in '" ++ col ++ "'") self)
          else if String.eqb (outlier_action self) "flag" then
            Ok (df,
                log ("Flagged " ++ str outlier_count ++ " outliers in '" ++ col ++ "'")
                    (set_flag col outliers self))
          else Ok (df, self));
    _ ← log_last st.2;
    Ok st
  else Ok (df, self).

(** The body of the loop of the ['iqr'] branch. *)
Definition iqr_column (col : string) (st : DataFrame * DataCleaner)
    : result (DataFrame * DataCleaner) :=
  let '(df, self) := st in
  c ← getitem df col;
  xs ← to_floats (cells c);
  let Q1 := quantile xs (1 # 4) in
  let Q3 := quantile xs (3 # 4) in
  let IQR := fsub Q3 Q1 in
  let lower_bound := fsub Q1 (fmul (Some (Fin (3 # 2))) IQR) in
  let upper_bound := fadd Q3 (fmul (Some (Fin (3 # 2))) IQR) in
  let outliers := map (λ x, flt x lower_bound || fgt x upper_bound) xs in
  _handle_outliers self df col outliers lower_bound upper_bound.

(** The body of the loop of the ['isolation_forest'] branch;
    [pd.Series(outliers, index=df.index)] needs one label per row. *)
Definition isolation_column (outliers : list bool) (col : string)
    (st : DataFrame * DataCleaner) : result (DataFrame * DataCleaner) :=
  let '(df, self) := st in
  if negb (length outliers =? nrows df)%nat then Raise ValueError
  else
    c ← getitem df col;
    xs ← to_floats (cells c);
    let lower_bound := quantile xs (1 # 20) in
    let upper_bound := quantile xs (19 # 20) in
    _handle_outliers self df col outliers lower_bound upper_bound.

(** [df[numeric_cols].fillna(df[numeric_cols].mean())], column by column. *)
Definition mean_filled (df : DataFrame) (col : string) : result (list float) :=
  c ← getitem df col;
  xs ← to_floats (cells c);
  let m := mean xs in
  Ok (map (λ x, match x with None => m | Some _ => x end) xs).

Fixpoint collect {A B} (f : A → result B) (l : list A) : result (list B) :=
  match l with
  | [] => Ok []
  | x :: l' => y ← f x; ys ← collect f l'; Ok (y :: ys)
  end.

Definition detect_outliers `{Libraries} (self : DataCleaner) (df : DataFrame)
    : result (DataFrame * DataCleaner) :=
  let numeric_cols := numeric_labels df in
  if negb (length numeric_cols =? 0)%nat then
    if String.eqb (outlier_method self) "iqr" then
      for_each iqr_column numeric_cols (df, self)
    else if String.eqb (outlier_method self) "isolation_forest" then
      numeric_data ← collect (mean_filled df) numeric_cols;
      outlier_labels ← fit_predict numeric_data;
      let outliers := map (Z.eqb (-1)) outlier_labels in
      for_each (isolation_column outliers) numeric_cols (df, self)
    else Ok (df, self)
  else Ok (df, self).

(** ** Pass 7: [deduplicate_text_fuzzy] *)

Definition is_object (dt : dtype) : bool :=
  match dt with
  | Object => true
  | _ => false
  end.

(** [df.select_dtypes(include=['object']).columns] *)
Definition object_labels (df : DataFrame) : list string :=
  map col_name (List.filter (λ c, is_object (col_dtype c)) (columns df)).

(** [val in mapping]: the keys of the mapping are texts. *)
Definition in_mapping (mapping : gmap string string) (val : value) : bool :=
  match val with
  | Str s => bool_decide (is_Some (mapping !! s))
  | Num _ => false
  end.

(** The body of the inner loop on the pair [(val1, val2)].  A value that
    is not a text has no [lower] method. *)
Definition fuzzy_pair `{Libraries} (threshold : Z) (val1 val2 : value)
    (mapping : gmap string string) : result (gmap string string) :=
  if in_mapping mapping val1 || in_mapping mapping val2 then Ok mapping
  else
    match val1, val2 with
    | Str s1, Str s2 =>
        let score := ratio (SnakeCase.lower s1) (SnakeCase.lower s2) in
        if (threshold <=? score)%Z then Ok (<[s2 := s1]> mapping) else Ok mapping
    | _, _ => Raise AttributeError
    end.

(** [for i, val1 in enumerate(unique_vals): for val2 in unique_vals[i+1:]: ...] *)
Fixpoint fuzzy_mapping `{Libraries} (threshold : Z) (unique_vals : list value)
    (mapping : gmap string string) : result (gmap string string) :=
  match unique_vals with
  | [] => Ok mapping
  | val1 :: later =>
      mapping ← for_each (fuzzy_pair threshold val1) later mapping;
      fuzzy_mapping threshold later mapping
  end.

(** One cell of [series.map(mapping).fillna(series)]. *)
Definition map_cell (mapping : gmap string string) (c : cell) : cell :=
  match c with
  | Some (Str s) =>
      match mapping !! s with
      | Some t => Some (Str t)
      | None => c
      end
  | _ => c
  end.

(** [series.dropna().unique()] *)
Definition unique_vals_of (c : Column) : list value :=
  unique value_eqb (omap id (cells c)).

Definition dedup_column `{Libraries} (col : string) (st : DataFrame * DataCleaner)
    : result (DataFrame * DataCleaner) :=
  let '(df, self) := st in
  c ← getitem df col;
  let unique_vals := unique_vals_of c in
  if (length unique_vals <? 2)%nat then Ok (df, self)
  else
    mapping ← fuzzy_mapping (fuzzy_threshold self) unique_vals ∅;
    if negb (size mapping =? 0)%nat then
      Ok (setitem df col Object (map (map_cell mapping) (cells c)),
          log ("Deduplicated " ++ str (size mapping) ++ " text entries in '" ++ col
               ++ "' using fuzzy matching") self)
    else Ok (df, self).

Definition deduplicate_text_fuzzy `{Libraries} (self : DataCleaner) (df : DataFrame)
    : result (DataFrame * DataCleaner) :=
  for_each dedup_column (object_labels df) (df, self).

(** ** Pass 8: [drop_high_nullity_columns] *)

(** [series.isna().mean()]: NaN on a column without rows. *)
Definition nullity (c : Column) : float :=
  fdiv (of_nat (count_true (map isna (cells c)))) (of_nat (length (cells c))).

(** [df.drop(columns=[col])] *)
Definition drop_column (col : string) (df : DataFrame) : DataFrame :=
  {| index := index df;
     columns := List.filter (λ c, negb (String.eqb (col_name c) col)) (columns df) |}.

Definition drop_if_high `{Libraries} (col : string) (st : DataFrame * DataCleaner)
    : result (DataFrame * DataCleaner) :=
  let '(df, self) := st in
  c ← getitem df col;
  let nullity := nullity c in
  if fgt nullity (Some (Fin (nullity_threshold self))) then
    Ok (drop_column col df,
        log ("Dropped column '" ++ col ++ "' with " ++ format_percent nullity
             ++ " null values") self)
  else Ok (df, self).

Definition drop_high_nullity_columns `{Libraries} (self : DataCleaner) (df : DataFrame)
    : result (DataFrame * DataCleaner) :=
  for_each drop_if_high (labels df) (df, self).

(** ** Pass 10: [scale_numeric_columns] *)

(** [Series.min()] and [Series.max()]: NaN entries are skipped, the
    result is NaN when nothing is left. *)
Definition series_min (l : list float) : float :=
  match dropna_floats l with
  | [] => None
  | x :: xs => Some (foldl (λ a b, if real_ltb b a then b else a) x xs)
  end.

Definition series_max (l : list float) : float :=
  match dropna_floats l with
  | [] => None
  | x :: xs => Some (foldl (λ a b, if real_ltb a b then b else a) x xs)
  end.

(** [Series.std()], the sample standard deviation ([ddof=1]). *)
Definition std `{Libraries} (l : list float) : float :=
  let xs := map Some (dropna_floats l) in
  let m := mean l in
  let squares := map (λ x, fmul (fsub x m) (fsub x m)) xs in
  fsqrt (fdiv (fsum squares) (of_nat (length xs - 1))).

(** [(s - s.min()) / (s.max() - s.min())] *)
Definition minmax (xs : list float) : list float :=
  map (λ x, fdiv (fsub x (series_min xs)) (fsub (series_max xs) (series_min xs))) xs.

(** [(s - s.mean()) / s.std()] *)
Definition standardize `{Libraries} (xs : list float) : list float :=
  map (λ x, fdiv (fsub x (mean xs)) (std xs)) xs.

Definition scale_column `{Libraries} (col : string) (st : DataFrame * DataCleaner)
    : result (DataFrame * DataCleaner) :=
  let '(df, self) := st in
  st ← (if String.eqb (scale_method self) "minmax" then
          c ← getitem df col;
          xs ← to_floats (cells c);
          Ok (setitem df col Float64 (map float_cell (minmax xs)),
              log ("Scaled '" ++ col ++ "' using min-max scaling") self)
        else if String.eqb (scale_method self) "standard" then
          c ← getitem df col;
          xs ← to_floats (cells c);
          Ok (setitem df col Float64 (map float_cell (standardize xs)),
              log ("Scaled '" ++ col ++ "' using standardization") self)
        else Ok (df, self));
  _ ← log_last st.2;
  Ok st.

Definition scale_numeric_columns `{Libraries} (self : DataCleaner) (df : DataFrame)
    : result (DataFrame * DataCleaner) :=
  if negb (scale_numeric self) then Ok (df, self)
  else for_each scale_column (numeric_labels df) (df, self).

(** ** The engine built with the default arguments of [__init__] *)

Definition default_cleaner : DataCleaner :=
  {| nullity_threshold := 8 # 10;
     outlier_method := "iqr";
     outlier_action := "cap";
     fuzzy_threshold := 90;
     scale_numeric := false;
     scale_method := "minmax";
     actions := [];
     outlier_flags := ∅ |}.

(** ** Well-formed frames

    The invariants of the data model: the columns are aligned on the row
    index, labels are unique, and a numeric column holds numbers only. *)

Definition aligned (df : DataFrame) : Prop :=
  Forall (λ c, length (cells c) = nrows df) (columns df).

(** A frame of the data model: its rows exist through its columns, so
    a frame without columns has no rows. *)
Definition tabular (df : DataFrame) : Prop :=
  aligned df ∧ (columns df = [] → nrows df = 0%nat).

Definition unique_labels (df : DataFrame) : Prop := NoDup (labels df).

Definition is_number_cell (c : cell) : bool :=
  match c with
  | Some (Str _) => false
  | _ => true
  end.

Definition is_text_cell (c : cell) : bool :=
  match c with
  | Some (Num _) => false
  | _ => true
  end.

Definition has_missing (c : Column) : Prop := None ∈ cells c.

(** ** Frames used as examples *)

Definition int_cells (l : list Z) : list cell :=
  map (λ z, Some (Num (Fin (inject_Z z)))) l.

Definition int_floats (l : list Z) : list float :=
  map (λ z, Some (Fin (inject_Z z))) l.

(** [pd.DataFrame({"x": [1, 2, 3, 4, 100]})] *)
Definition outlier_frame : DataFrame :=
  {| index := [0; 1; 2; 3; 4]%Z;
     columns := [ {| col_name := "x"; col_dtype := Int64;
                     cells := int_cells [1; 2; 3; 4; 100]%Z |} ] |}.

(** ** Log entries and tests named in the properties *)

(** The engine after the entries were appended, in order. *)
Definition logs (entries : list string) (self : DataCleaner) : DataCleaner :=
  foldl (λ s e, log e s) self entries.

Definition type_entry (col : string) : string :=
  "Checked and fixed data types for '" ++ col ++ "'".

Definition null_count (c : Column) : nat := length (List.filter isna (cells c)).

(** The null fraction of the column is defined and strictly above [t]. *)
Definition exceeds (t : Q) (c : Column) : Prop :=
  (0 < length (cells c))%nat ∧
  (t < inject_Z (Z.of_nat (null_count c)) / inject_Z (Z.of_nat (length (cells c))))%Q.

(** The test [nullity > self.nullity_threshold] of the pass. *)
Definition high_nullity (t : Q) (c : Column) : bool :=
  fgt (nullity c) (Some (Fin t)).

Definition drop_entry `{Libraries} (c : Column) : string :=
  "Dropped column '" ++ col_name c ++ "' with " ++ format_percent (nullity c)
  ++ " null values".

(** An implementation of the library functions, for the examples:
    nothing parses as a number, no row is an anomaly, two texts are
    similar when they are equal. *)
Definition sample_libraries : Libraries :=
  {| pd_to_numeric := λ c, c;
     fit_predict := λ cols, Ok (map (λ _, 1%Z) (default [] (head cols)));
     ratio := λ s t, if String.eqb s t then 100%Z else 0%Z;
     fsqrt := λ x, x;
     format_percent := λ _, "?" |}.

Definition nulls (n : nat) : list cell := replicate n None.

(** Ten rows: "a" has nine missing cells, "b" has eight, "c" has none. *)
Definition nullity_frame : DataFrame :=
  {| index := [0; 1; 2; 3; 4; 5; 6; 7; 8; 9]%Z;
     columns := [ {| col_name := "a"; col_dtype := Float64;
                     cells := int_cells [1]%Z ++ nulls 9 |};
                  {| col_name := "b"; col_dtype := Float64;
                     cells := int_cells [1; 2]%Z ++ nulls 8 |};
                  {| col_name := "c"; col_dtype := Int64;
                     cells := int_cells [0; 1; 2; 3; 4; 5; 6; 7; 8; 9]%Z |} ] |}.

(** ** First occurrences *)

(** The positions, counted from [k], at which the mask holds. *)
Fixpoint positions_from (k : nat) (mask : list bool) : list nat :=
  match mask with
  | [] => []
  | b :: mask' =>
      if b then k :: positions_from (S k) mask' else positions_from (S k) mask'
  end.

(** Row [i] is the first of its group: no earlier row is equal to it. *)
Definition first_occurrence (df : DataFrame) (i : nat) : Prop :=
  (i < nrows df)%nat ∧
  ∀ j, (j < i)%nat → row_eqb (row_at df i) (row_at df j) = false.

(** [df'] holds the first occurrences of the rows of [df], and only
    them, in their order in [df], each under its row label. *)
Definition keeps_first_occurrences (df df' : DataFrame) : Prop :=
  ∃ ps : list nat,
    StronglySorted lt ps ∧
    (∀ i, i ∈ ps ↔ first_occurrence df i) ∧
    rows df' = map (row_at df) ps ∧
    index df' = map (λ p, nth p (index df) 0%Z) ps.

(** [pd.DataFrame(index=[0, 1])]: two rows, no column. *)
Definition no_column_frame : DataFrame :=
  {| index := [0; 1]%Z; columns := [] |}.

(** [pd.DataFrame({"col1": [1, 1, 2], "col2": ["a", "a", "b"]})], the
    frame of [test_remove_duplicates]. *)
Definition duplicate_frame : DataFrame :=
  {| index := [0; 1; 2]%Z;
     columns := [ {| col_name := "col1"; col_dtype := Int64;
                     cells := int_cells [1; 1; 2]%Z |};
                  {| col_name := "col2"; col_dtype := Object;
                     cells := [Some (Str "a"); Some (Str "a"); Some (Str "b")] |} ] |}.

(** ** Columns of numbers *)

(** The numbers of a column that holds no text. *)
Definition floats_of (l : list cell) : list float :=
  map (λ c, match c with Some (Num x) => Some x | _ => None end) l.

Definition numbers_only (c : Column) : Prop :=
  Forall (λ x, is_number_cell x = true) (cells c).

(** Every column of a numeric dtype holds numbers only. *)
Definition well_typed (df : DataFrame) : Prop :=
  Forall (λ c, is_numeric (col_dtype c) = true → numbers_only c) (columns df).

(** The non-missing cells of the column are all equal to the number [v]. *)
Definition constant_column (v : real) (c : Column) : Prop :=
  Forall (λ x, x = None ∨ ∃ y, x = Some (Num y) ∧ real_eqb y v = true) (cells c).

(** What min-max scaling makes of a column. *)
Definition minmax_column (c : Column) : Column :=
  if is_numeric (col_dtype c)
  then {| col_name := col_name c; col_dtype := Float64;
          cells := map float_cell (minmax (floats_of (cells c))) |}
  else c.

Definition minmax_entry (c : Column) : string :=
  "Scaled '" ++ col_name c ++ "' using min-max scaling".

(** The engine with scaling switched on. *)
Definition scaling_cleaner : DataCleaner :=
  {| nullity_threshold := 8 # 10;
     outlier_method := "iqr";
     outlier_action := "cap";
     fuzzy_threshold := 90;
     scale_numeric := true;
     scale_method := "minmax";
     actions := [];
     outlier_flags := ∅ |}.

(** [pd.DataFrame({"k": [3.0, 3.0, None, 3.0], "t": ["a", "b", "c", "d"]})] *)
Definition constant_frame : DataFrame :=
  {| index := [0; 1; 2; 3]%Z;
     columns := [ {| col_name := "k"; col_dtype := Float64;
                     cells := [Some (Num (Fin 3)); Some (Num (Fin 3)); None;
                               Some (Num (Fin 3))] |};
                  {| col_name := "t"; col_dtype := Object;
                     cells := [Some (Str "a"); Some (Str "b"); Some (Str "c");
                               Some (Str "d")] |} ] |}.

(** ** Filling with the mean *)

(** The test [df[col].isna().sum() > 0] of the pass. *)
Definition missing_test (c : Column) : bool :=
  (0 <? count_true (map isna (cells c)))%nat.

(** What strategy "mean" makes of a column that holds numbers. *)
Definition mean_fill (c : Column) : Column :=
  if missing_test c
  then {| col_name := col_name c; col_dtype := col_dtype c;
          cells := fillna (float_cell (mean (floats_of (cells c)))) (cells c) |}
  else c.

Definition missing_entry (strategy : string) (c : Column) : string :=
  "Handled missing values in '" ++ col_name c ++ "' with " ++ strategy.

(** [pd.DataFrame({"n": [None, None]})], a column of float64 that is
    missing throughout. *)
Definition all_missing_frame : DataFrame :=
  {| index := [0; 1]%Z;
     columns := [ {| col_name := "n"; col_dtype := Float64; cells := [None; None] |} ] |}.

(** [pd.DataFrame({"t": ["a", None]})] *)
Definition text_missing_frame : DataFrame :=
  {| index := [0; 1]%Z;
     columns := [ {| col_name := "t"; col_dtype := Object;
                     cells := [Some (Str "a"); None] |} ] |}.

(** [pd.DataFrame({"n": [1.0, None, 4.0], "t": ["a", "b", "c"]})] *)
Definition mean_frame : DataFrame :=
  {| index := [0; 1; 2]%Z;
     columns := [ {| col_name := "n"; col_dtype := Float64;
                     cells := [Some (Num (Fin 1)); None; Some (Num (Fin 4))] |};
                  {| col_name := "t"; col_dtype := Object;
                     cells := [Some (Str "a"); Some (Str "b"); Some (Str "c")] |} ] |}.

(** ** The policy of the specification for strategy "auto"

    Written from the words of the specification, to be compared with the
    pass: the choice is made per column, the magnitude of the skewness is
    compared with 2, and the mode breaks ties by the first value met. *)

(** [|r| < k] *)
Definition root_abs_ltb (r : root) (k : Q) : bool :=
  Qlt_bool 0 k && ((sgn r =? 0)%Z || Qlt_bool (square r) (k * k)).

Definition skew_abs_lt (l : list float) (k : Q) : bool :=
  match skew l with
  | Some r => root_abs_ltb r k
  | None => false
  end.

(** The most frequent non-null value, the first one met among equals. *)
Definition first_mode (l : list cell) : result value :=
  let vs := omap id l in
  let us := unique value_eqb vs in
  let best := foldr Nat.max 0%nat (map (λ u, count_of u vs) us) in
  match List.filter (λ u, (count_of u vs =? best)%nat) us with
  | v :: _ => Ok v
  | [] => Raise KeyError
  end.

Definition spec_auto_fill (c : Column) : result (list cell) :=
  match col_dtype c with
  | Int64 | Float64 =>
      xs ← to_floats (cells c);
      Ok (fillna (float_cell (if skew_abs_lt xs 2 then mean xs else median xs)) (cells c))
  | Object =>
      v ← first_mode (cells c);
      Ok (fillna (Some v) (cells c))
  end.


(** [pd.DataFrame({"n": [0, 0, 0, 0, -1, None]})]: the skewness of the
    column is [-sqrt 5], below 2 and of magnitude above 2. *)
Definition skewed_frame : DataFrame :=
  {| index := [0; 1; 2; 3; 4; 5]%Z;
     columns := [ {| col_name := "n"; col_dtype := Float64;
                     cells := int_cells [0; 0; 0; 0; -1]%Z ++ [None] |} ] |}.

(** [pd.DataFrame({"t": ["b", "a", None]})]: "b" and "a" are met once each. *)
Definition tie_frame : DataFrame :=
  {| index := [0; 1; 2]%Z;
     columns := [ {| col_name := "t"; col_dtype := Object;
                     cells := [Some (Str "b"); Some (Str "a"); None] |} ] |}.

(** [pd.DataFrame({"t": ["x", None, "x", "y"], "n": [1, 1, 4, None]})]:
    the skewness of "n" is [sqrt 3] and its mean is 2. *)
Definition leak_text : Column :=
  {| col_name := "t"; col_dtype := Object;
     cells := [Some (Str "x"); None; Some (Str "x"); Some (Str "y")] |}.

Definition leak_numbers : Column :=
  {| col_name := "n"; col_dtype := Float64;
     cells := int_cells [1; 1; 4]%Z ++ [None] |}.

Definition leak_frame : DataFrame :=
  {| index := [0; 1; 2; 3]%Z; columns := [leak_text; leak_numbers] |}.

(** What the pass returns on [leak_frame] under "auto". *)
Definition leak_frame_filled : DataFrame :=
  {| index := [0; 1; 2; 3]%Z;
     columns := [ {| col_name := "t"; col_dtype := Object;
                     cells := [Some (Str "x"); Some (Str "x"); Some (Str "x");
                               Some (Str "y")] |};
                  {| col_name := "n"; col_dtype := Float64;
                     cells := int_cells [1; 1; 4; 1]%Z |} ] |}.


(** ** Text columns and chains of a mapping *)

Definition text_column (c : Column) : Prop :=
  Forall (λ x, is_text_cell x = true) (cells c).

(** The value reached from [k] after [n] steps along the mapping. *)
Fixpoint follow (mapping : gmap string string) (n : nat) (k : string) : option string :=
  match n with
  | O => Some k
  | S n' => v ← mapping !! k; follow mapping n' v
  end.

(** [v] stands at an earlier place than [k] in the list of values. *)
Definition earlier_in (us : list value) (v k : string) : Prop :=
  ∃ i j, (i < j)%nat ∧ us !! i = Some (Str v) ∧ us !! j = Some (Str k).

(** [pd.DataFrame({"name": ["Alice", "alice", "Bob", None, "BOB"]})] *)
Definition names_column : Column :=
  {| col_name := "name"; col_dtype := Object;
     cells := [Some (Str "Alice"); Some (Str "alice"); Some (Str "Bob"); None;
               Some (Str "BOB")] |}.

Definition names_frame : DataFrame :=
  {| index := [0; 1; 2; 3; 4]%Z; columns := [names_column] |}.

(** ** Definitions for the further properties *)

(** What [fix_data_types] makes of a column: an object column is
    replaced by what [pd.to_numeric] returns for it, under its own label. *)
Definition type_fixed `{Libraries} (c : Column) : Column :=
  if is_object (col_dtype c)
  then {| col_name := col_name c; col_dtype := col_dtype (pd_to_numeric c);
          cells := cells (pd_to_numeric c) |}
  else c.

(** No two rows of the frame are equal. *)
Definition distinct_rows (df : DataFrame) : Prop :=
  ∀ i j, (i < nrows df)%nat → (j < nrows df)%nat → i ≠ j →
    row_eqb (row_at df i) (row_at df j) = false.

(** The strategies that the pass knows. *)
Definition known_strategy (strategy : string) : Prop :=
  strategy = "auto" ∨ strategy = "mean" ∨ strategy = "median" ∨
  strategy = "mode" ∨ strategy = "drop".

(** For every row of [n], whether it has no missing cell in the columns
    [cs]. *)
Definition complete_mask (cs : list Column) (n : nat) : list bool :=
  map (λ i, forallb (λ c, notna (nth i (cells c) None)) cs) (seq 0 n).

(** What strategy "mode" makes of a column. *)
Definition mode_fill (c : Column) : Column :=
  if missing_test c
  then {| col_name := col_name c; col_dtype := col_dtype c;
          cells := match mode0 (cells c) with
                   | Ok v => fillna (Some v) (cells c)
                   | Raise _ => cells c
                   end |}
  else c.

(** The column holds a value. *)
Definition has_value (c : Column) : Prop := ∃ v, Some v ∈ cells c.

(** The column holds finite numbers and missing cells only. *)
Definition finite_numbers (c : Column) : Prop :=
  Forall (λ x, x = None ∨ ∃ q, x = Some (Num (Fin q))) (cells c).

(** [pd.DataFrame({"a": [1, None, 3], "b": ["x", "y", None]})] *)
Definition gaps_frame : DataFrame :=
  {| index := [0; 1; 2]%Z;
     columns := [ {| col_name := "a"; col_dtype := Float64;
                     cells := [Some (Num (Fin 1)); None; Some (Num (Fin 3))] |};
                  {| col_name := "b"; col_dtype := Object;
                     cells := [Some (Str "x"); Some (Str "y"); None] |} ] |}.

(** [pd.DataFrame({"a": [1, 2], "t": [None, None]}, dtype=object)]: the
    text column is missing throughout. *)
Definition empty_text_frame : DataFrame :=
  {| index := [0; 1]%Z;
     columns := [ {| col_name := "a"; col_dtype := Int64;
                     cells := int_cells [1; 2]%Z |};
                  {| col_name := "t"; col_dtype := Object; cells := [None; None] |} ] |}.

(** ** The outcome of the outlier pass under the method [iqr] *)

(** The fences of a column: [(Q1 - 1.5 * IQR, Q3 + 1.5 * IQR)]. *)
Definition iqr_bounds (xs : list float) : float * float :=
  let Q1 := quantile xs (1 # 4) in
  let Q3 := quantile xs (3 # 4) in
  let IQR := fsub Q3 Q1 in
  (fsub Q1 (fmul (Some (Fin (3 # 2))) IQR), fadd Q3 (fmul (Some (Fin (3 # 2))) IQR)).

(** The mask of the entries of a column outside its fences. *)
Definition iqr_outliers (c : Column) : list bool :=
  let xs := floats_of (cells c) in
  map (λ x, flt x (iqr_bounds xs).1 || fgt x (iqr_bounds xs).2) xs.

(** A numeric column with an entry outside its fences. *)
Definition has_outliers (c : Column) : bool :=
  is_numeric (col_dtype c) && (0 <? count_true (iqr_outliers c))%nat.

Definition flag_entry (c : Column) : string :=
  "Flagged " ++ str (count_true (iqr_outliers c)) ++ " outliers in '" ++ col_name c ++ "'".

(** What the action "flag" does to the engine for a column. *)
Definition flag_column (c : Column) (self : DataCleaner) : DataCleaner :=
  log (flag_entry c) (set_flag (col_name c) (iqr_outliers c) self).

Definition known_action (a : string) : Prop := a = "cap" ∨ a = "remove" ∨ a = "flag".

Definition known_scale_method (m : string) : Prop := m = "minmax" ∨ m = "standard".

(** [DataCleaner(outlier_action=a)] *)
Definition cleaner_with_action (a : string) : DataCleaner :=
  {| nullity_threshold := 8 # 10;
     outlier_method := "iqr";
     outlier_action := a;
     fuzzy_threshold := 90;
     scale_numeric := false;
     scale_method := "minmax";
     actions := [];
     outlier_flags := ∅ |}.

(** [DataCleaner(scale_numeric=True, scale_method=m)] *)
Definition cleaner_with_scaling (m : string) : DataCleaner :=
  {| nullity_threshold := 8 # 10;
     outlier_method := "iqr";
     outlier_action := "cap";
     fuzzy_threshold := 90;
     scale_numeric := true;
     scale_method := m;
     actions := [];
     outlier_flags := ∅ |}.

(** [DataCleaner(nullity_threshold=t)] *)
Definition cleaner_with_threshold (t : Q) : DataCleaner :=
  {| nullity_threshold := t;
     outlier_method := "iqr";
     outlier_action := "cap";
     fuzzy_threshold := 90;
     scale_numeric := false;
     scale_method := "minmax";
     actions := [];
     outlier_flags := ∅ |}.

(** ** Pass 6: [normalize_text] *)

(** [str.lstrip()] and [str.rstrip()]: whitespace is what [str.isspace]
    accepts. *)
Fixpoint lstrip (s : string) : string :=
  match s with
  | EmptyString => EmptyString
  | String c s' => if SnakeCase.is_space c then lstrip s' else s
  end.

Fixpoint rstrip (s : string) : string :=
  match s with
  | EmptyString => EmptyString
  | String c s' =>
      match rstrip s' with
      | EmptyString => if SnakeCase.is_space c then EmptyString else String c EmptyString
      | r => String c r
      end
  end.

(** [str.strip()] *)
Definition strip (s : string) : string := rstrip (lstrip s).

Definition is_str (c : cell) : bool :=
  match c with
  | Some (Str _) => true
  | _ => false
  end.

(** [series.str] on an object column: the accessor is there when the
    column holds a text, or no value at all; a column whose values are
    all numbers raises [AttributeError]. *)
Definition str_accessor (c : Column) : result unit :=
  if existsb is_str (cells c) || forallb isna (cells c) then Ok ()
  else Raise AttributeError.

(** [series.str.len()]: NaN for a cell that is not a text. *)
Definition str_len (l : list cell) : list float :=
  map (λ c, match c with
            | Some (Str s) => of_nat (String.length s)
            | _ => None
            end) l.

(** One cell of [series.str.strip().str.lower()]: NaN for a cell that is
    not a text. *)
Definition normal_cell (c : cell) : cell :=
  match c with
  | Some (Str s) => Some (Str (SnakeCase.lower (strip s)))
  | _ => None
  end.

(** The test [df[col].str.len().mean() > 0]. *)
Definition normalizes (c : Column) : bool :=
  fgt (mean (str_len (cells c))) (Some (Fin 0)).

Definition normalize_column (col : string) (st : DataFrame * DataCleaner)
    : result (DataFrame * DataCleaner) :=
  let '(df, self) := st in
  c ← getitem df col;
  _ ← str_accessor c;
  if fgt (mean (str_len (cells c))) (Some (Fin 0)) then
    Ok (setitem df col Object (map normal_cell (cells c)),
        log ("Normalized text in '" ++ col ++ "'") self)
  else Ok (df, self).

Definition normalize_text (self : DataCleaner) (df : DataFrame)
    : result (DataFrame * DataCleaner) :=
  for_each normalize_column (object_labels df) (df, self).

(** What the pass makes of a column. *)
Definition normal_column (c : Column) : Column :=
  if is_object (col_dtype c) && normalizes c
  then {| col_name := col_name c; col_dtype := Object;
          cells := map normal_cell (cells c) |}
  else c.

Definition normal_entry (c : Column) : string :=
  "Normalized text in '" ++ col_name c ++ "'".

Definition starts_space (s : string) : bool :=
  match s with
  | EmptyString => false
  | String c _ => SnakeCase.is_space c
  end.

Fixpoint ends_space (s : string) : bool :=
  match s with
  | EmptyString => false
  | String c s' =>
      match s' with
      | EmptyString => SnakeCase.is_space c
      | _ => ends_space s'
      end
  end.

Definition is_upper (c : ascii) : bool :=
  let n := nat_of_ascii c in ((65 <=? n) && (n <=? 90))%nat.

Fixpoint has_upper (s : string) : bool :=
  match s with
  | EmptyString => false
  | String c s' => is_upper c || has_upper s'
  end.

(** A text without surrounding whitespace and without capital letters. *)
Definition normal_text (s : string) : Prop :=
  starts_space s = false ∧ ends_space s = false ∧ has_upper s = false.

(** The column can be read through [series.str]. *)
Definition readable (c : Column) : Prop := str_accessor c = Ok ().

(** [pd.DataFrame({"city": ["  Paris ", "ROME", None, 7]})] *)
Definition city_frame : DataFrame :=
  {| index := [0; 1; 2; 3]%Z;
     columns := [ {| col_name := "city"; col_dtype := Object;
                     cells := [Some (Str "  Paris "); Some (Str "ROME"); None;
                               Some (Num (Fin 7))] |} ] |}.

(** [pd.DataFrame({"code": [1, 2]}, dtype=object)] *)
Definition codes_frame : DataFrame :=
  {| index := [0; 1]%Z;
     columns := [ {| col_name := "code"; col_dtype := Object;
                     cells := int_cells [1; 2]%Z |} ] |}.

(** The texts of a column, in order. *)
Definition texts_of (l : list cell) : list string :=
  omap (λ c, match c with
             | Some (Str s) => Some s
             | _ => None
             end) l.

(** What [deduplicate_text_fuzzy] makes of a column. *)
Definition deduplicated `{Libraries} (threshold : Z) (c : Column) : Column :=
  if is_object (col_dtype c) && negb (length (unique_vals_of c) <? 2)%nat then
    match fuzzy_mapping threshold (unique_vals_of c) ∅ with
    | Ok mapping =>
        if negb (size mapping =? 0)%nat
        then {| col_name := col_name c; col_dtype := Object;
                cells := map (map_cell mapping) (cells c) |}
        else c
    | Raise _ => c
    end
  else c.

(** What the pass logs for an object column. *)
Definition dedup_logged `{Libraries} (threshold : Z) (c : Column) (self : DataCleaner)
    : DataCleaner :=
  if (length (unique_vals_of c) <? 2)%nat then self
  else
    match fuzzy_mapping threshold (unique_vals_of c) ∅ with
    | Ok mapping =>
        if negb (size mapping =? 0)%nat
        then log ("Deduplicated " ++ str (size mapping) ++ " text entries in '"
                  ++ col_name c ++ "' using fuzzy matching") self
        else self
    | Raise _ => self
    end.

(** [pd.DataFrame({"id": ["a", 1]})] *)
Definition id_frame : DataFrame :=
  {| index := [0; 1]%Z;
     columns := [ {| col_name := "id"; col_dtype := Object;
                     cells := [Some (Str "a"); Some (Num (Fin 1))] |} ] |}.

(** The column holds two different finite numbers. *)
Definition spread (c : Column) : Prop :=
  ∃ p q, Some (Num (Fin p)) ∈ cells c ∧ Some (Num (Fin q)) ∈ cells c ∧ (p < q)%Q.

(** A scaled cell: missing where the cell was missing, a number of the
    unit interval elsewhere. *)
Definition in_unit_interval (new old : cell) : Prop :=
  match old with
  | None => new = None
  | Some _ => ∃ q, new = Some (Num (Fin q)) ∧ (0 <= q)%Q ∧ (q <= 1)%Q
  end.

(** ** The report of the cleaning actions (src/report_generator.py) *)

(** The line feed ["\n"]. *)
Definition newline : string := String "010"%char EmptyString.

(** [ReportGenerator.generate_cleaning_summary]: the Markdown summary of
    the log of the engine. *)
Definition generate_cleaning_summary (actions : list string) : string :=
  let summary := "# Data Cleaning Summary" ++ newline ++ newline in
  let summary := summary ++ "## Cleaning Actions" ++ newline in
  foldl (λ summary action, summary ++ "- " ++ action ++ newline) summary actions.

Fixpoint has_newline (s : string) : bool :=
  match s with
  | EmptyString => false
  | String c s' => (c =? "010")%char || has_newline s'
  end.

(** The lines of the list, one item per action. *)
Definition summary_items (actions : list string) : string :=
  foldr (λ action rest, "- " ++ action ++ newline ++ rest) "" actions.

(** The engine [self'] has the configuration of [self], and its log
    starts with the log of [self]. *)
Definition extends (self self' : DataCleaner) : Prop :=
  nullity_threshold self' = nullity_threshold self ∧
  outlier_method self' = outlier_method self ∧
  outlier_action self' = outlier_action self ∧
  fuzzy_threshold self' = fuzzy_threshold self ∧
  scale_numeric self' = scale_numeric self ∧
  scale_method self' = scale_method self ∧
  actions self `prefix_of` actions self'.

(** The order of the finite numbers, as [real_leb] computes it. *)
Definition Qleb (a b : Q) : bool := Qlt_bool a b || Qeq_bool a b.

(** The place [(n - 1) * q] of the quantile [q] among [n] sorted entries:
    the entry below it, the entry above it and the weight of the latter. *)
Definition place_below (n : nat) (q : Q) : nat :=
  Z.to_nat (Qfloor (inject_Z (Z.of_nat (n - 1)) * q)).

Definition place_above (n : nat) (q : Q) : nat :=
  Nat.min (place_below n q + 1) (n - 1).

Definition place_weight (n : nat) (q : Q) : Q :=
  inject_Z (Z.of_nat (n - 1)) * q - inject_Z (Z.of_nat (place_below n q)).

(** What the action "cap" makes of a column. *)
Definition capped (c : Column) : Column :=
  if has_outliers c then
    let xs := floats_of (cells c) in
    let clipped := map (clip (iqr_bounds xs).1 (iqr_bounds xs).2) xs in
    {| col_name := col_name c;
       col_dtype := dtype_after_assign (col_dtype c) (iqr_outliers c) clipped;
       cells := map float_cell (assign_where (iqr_outliers c) clipped xs) |}
  else c.

Definition cap_entry (c : Column) : string :=
  "Capped " ++ str (count_true (iqr_outliers c)) ++ " outliers in '" ++ col_name c ++ "'".

(** A capped cell: a finite number is within the fences, and is the one
    it was when that one was within them; any other cell is as it was. *)
Definition within (lo hi : Q) (new old : cell) : Prop :=
  match old with
  | Some (Num (Fin x)) =>
      ∃ y, new = Some (Num (Fin y)) ∧ (lo <= y)%Q ∧ (y <= hi)%Q ∧
           ((lo <= x)%Q ∧ (x <= hi)%Q → y = x)
  | _ => new = old
  end.

(** The mask that selects, among the rows that [m] selects, those that
    [m2] selects. *)
Fixpoint compose_mask (m m2 : list bool) : list bool :=
  match m with
  | [] => []
  | true :: m' =>
      match m2 with
      | [] => []
      | b :: m2' => b :: compose_mask m' m2'
      end
  | false :: m' => false :: compose_mask m' m2
  end.

(** ** [handle_missing_values] over the skewness test of the library

    [Series.skew] is computed by pandas in float64; the test
    [df[col].skew() < 2] is taken as it is evaluated there, as a function
    [skew_below_2] of the entries of the column.  [auto_strategy],
    [handle_missing_column] and [handle_missing_values] above are these
    definitions at the exact skewness [λ xs, skew_lt xs 2]. *)

Definition auto_strategy_with (skew_below_2 : list float → bool) (c : Column)
    : result string :=
  match col_dtype c with
  | Int64 | Float64 =>
      xs ← to_floats (cells c);
      Ok (if skew_below_2 xs then "mean" else "median")
  | Object => Ok "mode"
  end.

Definition handle_missing_column_with (skew_below_2 : list float → bool) (col : string)
    (st : DataFrame * string * DataCleaner) : result (DataFrame * string * DataCleaner) :=
  let '(df, strategy, self) := st in
  c ← getitem df col;
  if (0 <? count_true (map isna (cells c)))%nat then
    strategy ← (if String.eqb strategy "auto" then auto_strategy_with skew_below_2 c
                else Ok strategy);
    df ← apply_strategy strategy df col c;
    Ok (df, strategy,
        log ("Handled missing values in '" ++ col ++ "' with " ++ strategy) self)
  else Ok st.

Definition handle_missing_values_with (skew_below_2 : list float → bool)
    (self : DataCleaner) (df : DataFrame) (strategy : string)
    : result (DataFrame * DataCleaner) :=
  st ← for_each (handle_missing_column_with skew_below_2) (labels df) (df, strategy, self);
  Ok (st.1.1, st.2).

(** The pass compares doubles: [isna().mean()] is the quotient rounded
    to the nearest double.  The rounded comparison is the comparison of the
    exact fraction when the fraction is at most the threshold, or above it
    by more than doubles are apart (a relative [2^-52]; the bound [2^-50]
    leaves room). *)
Definition rounding_safe (t : Q) (c : Column) : Prop :=
  let fraction := (inject_Z (Z.of_nat (null_count c))
                   / inject_Z (Z.of_nat (length (cells c))))%Q in
  (fraction <= t)%Q ∨ (t + Qabs t * (1 # 1125899906842624) <= fraction)%Q.

(** The numbers of the column are less than [2^63] apart: the differences
    [x - min] and [max - min] of the scaling neither wrap in int64 nor
    overflow in float64. *)
Definition narrow (c : Column) : Prop :=
  ∀ p q, Some (Num (Fin p)) ∈ cells c → Some (Num (Fin q)) ∈ cells c →
         (q - p < 9223372036854775808)%Q.

(** ** The outcome of the outlier pass, whatever the fences are

    pandas computes the quartiles and the fences in float64.  The
    definitions below describe what the pass makes of a mask and of a
    pair of fences without fixing their values. *)

(** [df.select_dtypes(include=[np.number])] *)
Definition numeric_columns (df : DataFrame) : list Column :=
  List.filter (λ c, is_numeric (col_dtype c)) (columns df).

(** What the action "flag" does to the engine for a column and its mask. *)
Definition flag_mask (self : DataCleaner) (cm : Column * list bool) : DataCleaner :=
  log ("Flagged " ++ str (count_true cm.2) ++ " outliers in '" ++ col_name cm.1 ++ "'")
      (set_flag (col_name cm.1) cm.2 self).

(** A mask that the pass handles: one flag per row of the column, one of
    them set, and none at a missing cell. *)
Definition outlier_mask (c : Column) (m : list bool) : Prop :=
  length m = length (cells c) ∧ (0 < count_true m)%nat ∧
  ∀ i, cells c !! i = Some None → m !! i = Some false.

(** The entry the action "cap" logs for a column and its count. *)
Definition cap_line (ck : Column * nat) : string :=
  "Capped " ++ str ck.2 ++ " outliers in '" ++ col_name ck.1 ++ "'".

(** The numbers of the column are at most [2^53] in absolute value: an
    int64 entry is the double it converts to, and no step of the
    quartiles and the fences overflows. *)
Definition moderate (c : Column) : Prop :=
  ∀ q, Some (Num (Fin q)) ∈ cells c → (Qabs q <= 9007199254740992)%Q.

(** * Properties *)

Open Scope list_scope.

(** ** Construction of the engine *)

(** C4, as the code has it: constructing the engine never raises,
    whatever the six configuration values are, inside or outside their
    documented domains; the values are stored unchecked and the log and
    the flag map start empty. *)
Theorem init_never_raises (nt : Q) (om oa : string) (ft : Z) (sn : bool) (sm : string) :
  ¬ raises (__init__ nt om oa ft sn sm) ∧
  ∃ self, __init__ nt om oa ft sn sm = Ok self ∧
    nullity_threshold self = nt ∧ outlier_method self = om ∧
    outlier_action self = oa ∧ fuzzy_threshold self = ft ∧
    scale_numeric self = sn ∧ scale_method self = sm ∧
    actions self = [] ∧ outlier_flags self = ∅.
Proof.
  split.
  - intros [e He]. discriminate He.
  - eexists. split; [reflexivity|]. repeat split.
Qed.

(** C4, refuted as stated: a fuzzy threshold of 150 lies outside
    [0,100] and the constructor accepts it. *)
Lemma init_accepts_threshold_150 :
  ¬ in_documented_domain (8 # 10) "iqr" "cap" 150 "minmax" ∧
  ¬ raises (__init__ (8 # 10) "iqr" "cap" 150 false "minmax").
Proof.
  split.
  - intros (_ & _ & _ & _ & _ & H & _). lia.
  - intros [e He]. discriminate He.
Qed.

(** ** Column names *)

Section snake_case.
Import SnakeCase.

Lemma ident_not_sep c : is_ident c = true → is_sep c = false.
Proof. destruct c as [[] [] [] [] [] [] [] []]; vm_compute; congruence. Qed.

Lemma ident_lower c : is_ident c = true → lower_char c = c.
Proof. destruct c as [[] [] [] [] [] [] [] []]; vm_compute; congruence. Qed.

Lemma keep_ident_all_ident s : all_ident (keep_ident s) = true.
Proof.
  induction s as [|c s IH]; simpl; [done|].
  destruct (is_ident c) eqn:Hc; simpl; [|done].
  by rewrite Hc.
Qed.

Lemma sub_runs_ident s : all_ident s = true → sub_runs false s = s.
Proof.
  induction s as [|c s IH]; simpl; [done|].
  intros [Hc Hs]%andb_prop. rewrite (ident_not_sep c Hc). by rewrite IH.
Qed.

Lemma lower_ident s : all_ident s = true → lower s = s.
Proof.
  induction s as [|c s IH]; simpl; [done|].
  intros [Hc Hs]%andb_prop. by rewrite (ident_lower c Hc), IH.
Qed.

Lemma keep_ident_ident s : all_ident s = true → keep_ident s = s.
Proof.
  induction s as [|c s IH]; simpl; [done|].
  intros [Hc Hs]%andb_prop. by rewrite Hc, IH.
Qed.

Lemma to_snake_case_all_ident s : all_ident (to_snake_case s) = true.
Proof. apply keep_ident_all_ident. Qed.

Lemma to_snake_case_fixed s : all_ident s = true → to_snake_case s = s.
Proof.
  intros Hs. unfold to_snake_case.
  by rewrite (sub_runs_ident s Hs), (lower_ident s Hs), (keep_ident_ident s Hs).
Qed.

Lemma to_snake_case_idempotent s : to_snake_case (to_snake_case s) = to_snake_case s.
Proof. apply to_snake_case_fixed, to_snake_case_all_ident. Qed.

End snake_case.

Lemma labels_set_labels names df :
  length names = length (columns df) → labels (set_labels names df) = names.
Proof.
  unfold labels, set_labels. simpl.
  generalize (columns df). induction names as [|n names IH]; intros [|c cs] Hlen;
    simpl in *; try done.
  f_equal. apply IH. lia.
Qed.

Lemma labels_standardize self df :
  labels (standardize_columns self df).1 = map SnakeCase.to_snake_case (labels df).
Proof.
  unfold standardize_columns. simpl. apply labels_set_labels.
  unfold labels. by rewrite !length_map.
Qed.

(** C7: [standardize_columns] is idempotent on the column names: a
    second run, on the frame and the engine the first run returns,
    yields the names of the first run, which are the images of the
    original names under [to_snake_case]; and "First Name", "Last-Name"
    and "Age@#" become "first_name", "last_name" and "age". *)
Theorem standardize_columns_idempotent (self : DataCleaner) (df : DataFrame) :
  let once := standardize_columns self df in
  let twice := standardize_columns once.2 once.1 in
  labels once.1 = map SnakeCase.to_snake_case (labels df) ∧
  labels twice.1 = labels once.1 ∧
  map SnakeCase.to_snake_case ["First Name"; "Last-Name"; "Age@#"]
    = ["first_name"; "last_name"; "age"].
Proof.
  intros once twice. split; [apply labels_standardize|]. split; [|reflexivity].
  unfold twice. rewrite labels_standardize. unfold once.
  rewrite labels_standardize, <- list_fmap_compose.
  apply list_fmap_ext. intros _ s _. simpl. apply to_snake_case_idempotent.
Qed.

(** ** Outliers by the interquartile range *)

(** C8: on the column [1,2,3,4,100] the quartiles are 2 and 4, the
    interquartile range is 2 and the bounds are -1 and 7; 100 alone is
    flagged, and with the default engine (method [iqr], action [cap]) the
    column becomes [1,2,3,4,7], with one log entry. *)
Theorem iqr_cap_example `{Libraries} :
  let xs := int_floats [1; 2; 3; 4; 100]%Z in
  let Q1 := quantile xs (1 # 4) in
  let Q3 := quantile xs (3 # 4) in
  let IQR := fsub Q3 Q1 in
  let lower_bound := fsub Q1 (fmul (Some (Fin (3 # 2))) IQR) in
  let upper_bound := fadd Q3 (fmul (Some (Fin (3 # 2))) IQR) in
  Q1 = Some (Fin 2) ∧ Q3 = Some (Fin 4) ∧ IQR = Some (Fin 2) ∧
  lower_bound = Some (Fin (-1)) ∧ upper_bound = Some (Fin 7) ∧
  map (λ x, flt x lower_bound || fgt x upper_bound) xs
    = [false; false; false; false; true] ∧
  detect_outliers default_cleaner outlier_frame
    = Ok ({| index := [0; 1; 2; 3; 4]%Z;
             columns := [ {| col_name := "x"; col_dtype := Int64;
                             cells := int_cells [1; 2; 3; 4; 7]%Z |} ] |},
          log "Capped 1 outliers in 'x'" default_cleaner).
Proof. repeat split; vm_compute; reflexivity. Qed.

(** ** Loops over the columns *)

Lemma for_each_app {A S} (body : A → S → result S) (l1 l2 : list A) (s : S) :
  for_each body (l1 ++ l2) s = s' ← for_each body l1 s; for_each body l2 s'.
Proof.
  revert s. induction l1 as [|x l1 IH]; intros s; simpl; [done|].
  destruct (body x s) as [s1|e]; simpl; [apply IH|done].
Qed.

Lemma bind_Ok {A B} (a : A) (k : A → result B) : (Ok a ≫= k) = k a.
Proof. reflexivity. Qed.

(** The invariant rule of a loop that does not raise: [Inv done s] holds
    of the state [s] reached after the items [done]. *)
Lemma for_each_invariant {A S} (body : A → S → result S)
    (Inv : list A → S → Prop) (l : list A) (s : S) :
  Inv [] s →
  (∀ done x rest s1, l = done ++ x :: rest → Inv done s1 →
     ∃ s2, body x s1 = Ok s2 ∧ Inv (done ++ [x]) s2) →
  ∃ s', for_each body l s = Ok s' ∧ Inv l s'.
Proof.
  intros H0 Hstep.
  cut (∀ todo done s1, l = done ++ todo → Inv done s1 →
         ∃ s', for_each body todo s1 = Ok s' ∧ Inv l s').
  { intros Hcut. by apply (Hcut l [] s). }
  induction todo as [|x todo IH]; intros done s1 Hl Hinv; simpl.
  - exists s1. rewrite app_nil_r in Hl. by subst.
  - destruct (Hstep done x todo s1 Hl Hinv) as (s2 & Hb & Hinv2).
    rewrite Hb. simpl. apply (IH (done ++ [x])); [|done].
    by rewrite <- app_assoc.
Qed.

(** The rule of a property kept by every iteration that returns. *)
Lemma for_each_preserves {A S} (body : A → S → result S) (P : S → Prop)
    (l : list A) (s s' : S) :
  (∀ x s1 s2, x ∈ l → P s1 → body x s1 = Ok s2 → P s2) →
  P s → for_each body l s = Ok s' → P s'.
Proof.
  revert s. induction l as [|x l IH]; intros s Hstep Hs Hrun; simpl in Hrun.
  - by inversion Hrun; subst.
  - destruct (body x s) as [s1|e] eqn:Hb; simpl in Hrun; [|done].
    apply (IH s1); [|by eapply Hstep; [left|..]|done].
    intros y t1 t2 Hy. apply Hstep. by right.
Qed.

(** ** Access to the columns by label *)

Lemma find_label_elem (cs : list Column) (c : Column) :
  NoDup (map col_name cs) → c ∈ cs →
  List.find (λ c', String.eqb (col_name c') (col_name c)) cs = Some c.
Proof.
  induction cs as [|c' cs IH]; simpl; intros Hnd Hin.
  - by apply elem_of_nil in Hin.
  - apply NoDup_cons in Hnd as [Hc' Hnd].
    apply elem_of_cons in Hin as [->|Hin].
    + by rewrite String.eqb_refl.
    + destruct (String.eqb (col_name c') (col_name c)) eqn:Heq; [|by apply IH].
      apply String.eqb_eq in Heq. exfalso. apply Hc'. rewrite Heq.
      by apply list_elem_of_fmap_2.
Qed.

Lemma getitem_elem (df : DataFrame) (c : Column) :
  unique_labels df → c ∈ columns df → getitem df (col_name c) = Ok c.
Proof.
  intros Hnd Hin. unfold getitem. by rewrite (find_label_elem _ c Hnd Hin).
Qed.

Lemma getitem_label (df : DataFrame) (col : string) :
  col ∈ labels df → ∃ c, getitem df col = Ok c.
Proof.
  unfold labels, getitem. intros (c & -> & Hin)%list_elem_of_fmap.
  destruct (List.find _ _) as [c'|] eqn:Hf; [by eexists|].
  apply list_elem_of_In in Hin. eapply find_none in Hf; [|done].
  simpl in Hf. by rewrite String.eqb_refl in Hf.
Qed.

Lemma labels_setitem (df : DataFrame) (col : string) (dt : dtype) (l : list cell) :
  labels (setitem df col dt l) = labels df.
Proof.
  unfold labels, setitem. simpl. rewrite <- list_fmap_compose.
  apply list_fmap_ext. intros _ c _. simpl.
  destruct (String.eqb (col_name c) col) eqn:Heq; [|done].
  simpl. symmetry. by apply String.eqb_eq.
Qed.

(** ** What the passes write to the log *)

Lemma fix_data_types_log `{Libraries} (self : DataCleaner) (df : DataFrame) :
  unique_labels df →
  ∃ df' self', fix_data_types self df = Ok (df', self') ∧
    labels df' = labels df ∧
    actions self' = actions self ++ map type_entry (labels df).
Proof.
  intros _. unfold fix_data_types.
  destruct (for_each_invariant fix_column
    (λ done st, labels st.1 = labels df ∧
                actions st.2 = actions self ++ map type_entry done)
    (labels df) (df, self)) as ([df' self'] & Hrun & Hl & Ha).
  - simpl. by rewrite app_nil_r.
  - intros done x rest [df1 self1] Hlab [Hl Ha]. simpl in Hl, Ha.
    destruct (getitem_label df1 x) as [c Hc].
    { rewrite Hl, Hlab. apply elem_of_app. right. by left. }
    unfold fix_column. rewrite Hc. simpl. eexists. split; [reflexivity|].
    simpl. split.
    + destruct (col_dtype c); try done. by rewrite labels_setitem.
    + rewrite Ha, map_app, <- app_assoc. done.
  - by exists df', self'.
Qed.

(** C3, as the code has it: [remove_duplicates] and
    [standardize_columns] append exactly one entry on every call, and
    [fix_data_types], on a frame with unique labels, appends one entry
    per column, whether or not the frame changes; the entry of
    [remove_duplicates] carries the number of rows removed, which may
    be 0. *)
Theorem unconditional_log_entries `{Libraries} (self : DataCleaner) (df : DataFrame) :
  actions (remove_duplicates self df).2
    = actions self ++ [("Removed " ++ str (nrows df - nrows (drop_duplicates df))
                        ++ " duplicate rows")%string] ∧
  actions (standardize_columns self df).2
    = actions self ++ ["Standardized column names to snake_case"] ∧
  (unique_labels df →
   ∃ df' self', fix_data_types self df = Ok (df', self') ∧
     actions self' = actions self ++ map type_entry (labels df)).
Proof.
  split; [reflexivity|]. split; [reflexivity|]. intros Hnd.
  destruct (fix_data_types_log self df Hnd) as (df' & self' & Hrun & _ & Ha).
  by exists df', self'.
Qed.

(** The theorem on the frame of the repository's test: [fix_data_types]
    logs one entry for "col1" and one for "col2". *)
Lemma unconditional_log_entries_witness :
  unique_labels duplicate_frame ∧
  ∃ df' self',
    fix_data_types (H := sample_libraries) default_cleaner duplicate_frame
    = Ok (df', self') ∧
    actions self' = actions default_cleaner ++ map type_entry (labels duplicate_frame).
Proof.
  assert (unique_labels duplicate_frame) as Hnd.
  { apply (bool_decide_unpack _). vm_compute. exact I. }
  split; [exact Hnd|].
  exact (proj2 (proj2 (unconditional_log_entries (H := sample_libraries) default_cleaner
                         duplicate_frame)) Hnd).
Defined.

(** C3, refuted as stated: on a frame of five distinct rows whose only
    column is named "x", duplicate removal and name standardization
    return the frame as it was, and each appends an entry. *)
Lemma unchanged_frame_is_logged :
  (remove_duplicates default_cleaner outlier_frame).1 = outlier_frame ∧
  actions (remove_duplicates default_cleaner outlier_frame).2
    = ["Removed 0 duplicate rows"] ∧
  (standardize_columns default_cleaner outlier_frame).1 = outlier_frame ∧
  actions (standardize_columns default_cleaner outlier_frame).2
    = ["Standardized column names to snake_case"].
Proof. repeat split; vm_compute; reflexivity. Qed.

(** ** Columns with too many missing cells *)

Lemma nodup_mid_pre (pre post : list Column) (c c' : Column) :
  NoDup (map col_name (pre ++ c :: post)) → c' ∈ pre → col_name c' ≠ col_name c.
Proof.
  rewrite map_app. simpl. intros [_ [Hdisj _]]%NoDup_app Hin Heq.
  apply (Hdisj (col_name c')); [by apply list_elem_of_fmap_2|].
  rewrite Heq. by left.
Qed.

Lemma nodup_mid_post (pre post : list Column) (c c' : Column) :
  NoDup (map col_name (pre ++ c :: post)) → c' ∈ post → col_name c' ≠ col_name c.
Proof.
  rewrite map_app. simpl. intros [_ [_ [Hc _]%NoDup_cons]]%NoDup_app Hin Heq.
  apply Hc. rewrite <- Heq. by apply list_elem_of_fmap_2.
Qed.

Lemma nodup_mid_remove (pre post : list Column) (c : Column) :
  NoDup (map col_name (pre ++ c :: post)) → NoDup (map col_name (pre ++ post)).
Proof.
  rewrite !map_app. simpl. intros (Hpre & Hdisj & [_ Hpost]%NoDup_cons)%NoDup_app.
  apply NoDup_app. split; [done|]. split; [|done].
  intros x Hx Hx'. apply (Hdisj x Hx). by right.
Qed.

Lemma getitem_mid (i : list Z) (pre post : list Column) (c : Column) :
  NoDup (map col_name (pre ++ c :: post)) →
  getitem {| index := i; columns := pre ++ c :: post |} (col_name c) = Ok c.
Proof.
  intros Hnd. apply getitem_elem; [exact Hnd|].
  simpl. apply elem_of_app. right. by left.
Qed.

Lemma filter_all {A} (f : A → bool) (l : list A) :
  (∀ x, x ∈ l → f x = true) → List.filter f l = l.
Proof.
  induction l as [|x l IH]; simpl; intros Hall; [done|].
  rewrite (Hall x) by (by left). f_equal. apply IH. intros y Hy. apply Hall. by right.
Qed.

Lemma drop_column_mid (i : list Z) (pre post : list Column) (c : Column) :
  NoDup (map col_name (pre ++ c :: post)) →
  drop_column (col_name c) {| index := i; columns := pre ++ c :: post |}
  = {| index := i; columns := pre ++ post |}.
Proof.
  intros Hnd. unfold drop_column. simpl. f_equal.
  rewrite List.filter_app. simpl. rewrite String.eqb_refl. simpl.
  rewrite !filter_all; [done|..].
  - intros c' Hc'. apply negb_true_iff, String.eqb_neq. by eapply nodup_mid_post.
  - intros c' Hc'. apply negb_true_iff, String.eqb_neq. by eapply nodup_mid_pre.
Qed.

Lemma for_each_cons {A S} (body : A → S → result S) (x : A) (l : list A) (s s1 : S) :
  body x s = Ok s1 → for_each body (x :: l) s = for_each body l s1.
Proof. intros Hb. simpl. by rewrite Hb. Qed.

Lemma drop_if_high_step `{Libraries} (df : DataFrame) (self : DataCleaner) (c : Column) :
  getitem df (col_name c) = Ok c →
  drop_if_high (col_name c) (df, self)
  = Ok (if high_nullity (nullity_threshold self) c
        then (drop_column (col_name c) df, log (drop_entry c) self)
        else (df, self)).
Proof.
  intros Hc. unfold drop_if_high. rewrite Hc, bind_Ok. unfold high_nullity, drop_entry.
  by destruct (fgt _ _).
Qed.

Lemma drop_loop `{Libraries} (todo kept : list Column) (i : list Z) (self : DataCleaner) :
  NoDup (map col_name (kept ++ todo)) →
  for_each drop_if_high (map col_name todo)
           ({| index := i; columns := kept ++ todo |}, self)
  = Ok ({| index := i;
           columns := kept ++ List.filter (λ c, negb (high_nullity (nullity_threshold self) c)) todo |},
        logs (map drop_entry (List.filter (high_nullity (nullity_threshold self)) todo)) self).
Proof.
  revert kept self. induction todo as [|c todo IH]; intros kept self Hnd; [done|].
  rewrite fmap_cons.
  erewrite for_each_cons by (apply drop_if_high_step, getitem_mid, Hnd).
  cbn [List.filter].
  destruct (high_nullity (nullity_threshold self) c) eqn:Hhigh; cbn [negb].
  - rewrite (drop_column_mid i kept todo c Hnd).
    rewrite IH by (by eapply nodup_mid_remove). done.
  - replace (kept ++ c :: todo) with ((kept ++ [c]) ++ todo) in * by (by rewrite <- app_assoc).
    rewrite IH by done. by rewrite <- app_assoc.
Qed.

Lemma count_true_isna (l : list cell) :
  count_true (map isna l) = length (List.filter isna l).
Proof.
  unfold count_true. induction l as [|c l IH]; simpl; [done|].
  destruct (isna c); simpl; by rewrite IH.
Qed.

Lemma Qlt_bool_iff (x y : Q) : Qlt_bool x y = true ↔ (x < y)%Q.
Proof.
  unfold Qlt_bool. rewrite negb_true_iff. split.
  - intros Hle. apply Qnot_le_lt. intros Hle'. apply Qle_bool_iff in Hle'. congruence.
  - intros Hlt. destruct (Qle_bool y x) eqn:Hle; [|done].
    apply Qle_bool_iff in Hle. by apply Qlt_not_le in Hlt.
Qed.

Lemma high_nullity_exceeds (t : Q) (c : Column) :
  high_nullity t c = true ↔ exceeds t c.
Proof.
  unfold high_nullity, exceeds, nullity, null_count, fgt, of_nat.
  rewrite count_true_isna.
  set (k := length (List.filter isna (cells c))).
  assert (k ≤ length (cells c))%nat as Hk by apply List.filter_length_le.
  destruct (length (cells c)) as [|n] eqn:Hn.
  - assert (k = 0)%nat as -> by lia. simpl. split; [done|]. intros [? _]. lia.
  - unfold fdiv.
    assert (Qeq_bool (inject_Z (Z.of_nat (S n))) 0 = false) as ->.
    { apply not_true_iff_false. intros Heq%Qeq_bool_iff.
      unfold Qeq in Heq. simpl in Heq. lia. }
    unfold flt, real_ltb. rewrite Qlt_bool_iff, Qred_correct.
    split; [intros Hlt; split; [lia|done]|by intros [_ Hlt]].
Qed.

(** C6: on a frame with unique labels whose null fractions are at most
    [nullity_threshold] or above it by more than doubles are apart,
    [drop_high_nullity_columns] returns the frame without the columns
    whose null fraction is strictly above the threshold, the other
    columns unchanged and in their order, and logs one entry per dropped
    column; with the threshold 0.8, a column of ten cells is dropped with
    nine missing cells and kept with eight, and both are such columns. *)
Theorem drop_high_nullity_exact `{Libraries} (self : DataCleaner) (df : DataFrame) :
  unique_labels df →
  Forall (rounding_safe (nullity_threshold self)) (columns df) →
  let t := nullity_threshold self in
  drop_high_nullity_columns self df
    = Ok ({| index := index df;
             columns := List.filter (λ c, negb (high_nullity t c)) (columns df) |},
          logs (map drop_entry (List.filter (high_nullity t) (columns df))) self) ∧
  Forall (λ c, high_nullity t c = true ↔ exceeds t c) (columns df) ∧
  (∀ c, length (cells c) = 10%nat ∧ null_count c = 9%nat →
     exceeds (8 # 10) c ∧ rounding_safe (8 # 10) c) ∧
  (∀ c, length (cells c) = 10%nat ∧ null_count c = 8%nat →
     ¬ exceeds (8 # 10) c ∧ rounding_safe (8 # 10) c).
Proof.
  intros Hnd _ t. split; [|split; [|split]].
  - destruct df as [i cs]. unfold drop_high_nullity_columns, labels. simpl.
    apply (drop_loop cs [] i self). exact Hnd.
  - apply Forall_forall. intros c _. apply high_nullity_exceeds.
  - intros c [Hlen Hnull]. unfold exceeds, rounding_safe. rewrite Hlen, Hnull.
    split; [split; [lia|reflexivity]|]. right. by apply Qle_bool_iff.
  - intros c [Hlen Hnull]. unfold exceeds, rounding_safe. rewrite Hlen, Hnull. split.
    + intros [_ Hlt]. discriminate Hlt.
    + left. by apply Qle_bool_iff.
Qed.

(** The theorem on [nullity_frame] with the default threshold 0.8. *)
Lemma drop_high_nullity_exact_witness :
  unique_labels nullity_frame ∧
  Forall (rounding_safe (nullity_threshold default_cleaner)) (columns nullity_frame) ∧
  drop_high_nullity_columns (H := sample_libraries) default_cleaner nullity_frame
    = Ok ({| index := index nullity_frame;
             columns := List.filter (λ c, negb (high_nullity (8 # 10) c))
                                    (columns nullity_frame) |},
          logs (map (drop_entry (H := sample_libraries))
                    (List.filter (high_nullity (8 # 10)) (columns nullity_frame)))
               default_cleaner).
Proof.
  assert (unique_labels nullity_frame) as Hnd.
  { apply (bool_decide_unpack _). vm_compute. exact I. }
  assert (Forall (rounding_safe (nullity_threshold default_cleaner))
                 (columns nullity_frame)) as Hsafe.
  { apply Forall_cons_2; [right; by apply Qle_bool_iff|].
    apply Forall_cons_2; [left; by apply Qle_bool_iff|].
    apply Forall_cons_2; [left; by apply Qle_bool_iff|apply Forall_nil_2]. }
  split; [exact Hnd|]. split; [exact Hsafe|].
  apply (drop_high_nullity_exact (H := sample_libraries) default_cleaner nullity_frame
           Hnd Hsafe).
Defined.

(** ** Duplicate rows *)

Lemma positions_from_bounds (mask : list bool) (k p : nat) :
  p ∈ positions_from k mask ↔ ∃ i, p = (k + i)%nat ∧ mask !! i = Some true.
Proof.
  revert k. induction mask as [|b mask IH]; intros k; simpl.
  - split; [by intros ?%elem_of_nil|by intros (i & _ & ?)].
  - assert (p ∈ positions_from (S k) mask ↔
            ∃ i, p = (k + S i)%nat ∧ mask !! i = Some true) as Htail.
    { rewrite IH. split; intros (i & -> & Hi); exists i; split; (lia || done). }
    destruct b.
    + rewrite elem_of_cons, Htail. split.
      * intros [->|(i & -> & Hi)]; [exists 0%nat|exists (S i)]; split; (lia || done).
      * intros ([|i] & -> & Hi); [left; lia|right; by exists i].
    + rewrite Htail. split.
      * intros (i & -> & Hi). by exists (S i).
      * intros ([|i] & -> & Hi); [done|by exists i].
Qed.

Lemma positions_from_sorted (mask : list bool) (k : nat) :
  StronglySorted lt (positions_from k mask).
Proof.
  revert k. induction mask as [|b mask IH]; intros k; simpl; [constructor|].
  destruct b; [|apply IH]. constructor; [apply IH|].
  apply Forall_forall. intros p (i & -> & _)%positions_from_bounds. lia.
Qed.

Lemma mask_select_positions {A} (d : A) (mask : list bool) (l : list A) (k : nat) :
  length mask = length l →
  mask_select mask l = map (λ p, nth (p - k) l d) (positions_from k mask).
Proof.
  revert l k. induction mask as [|b mask IH]; intros [|x l] k Hlen; simpl in *; try done.
  assert (mask_select mask l
          = map (λ p, nth (p - k) (x :: l) d) (positions_from (S k) mask)) as Htail.
  { rewrite (IH l (S k)) by lia. apply list_fmap_ext. intros j p Hp.
    apply list_elem_of_lookup_2, positions_from_bounds in Hp as (i & -> & _).
    replace (S k + i - k)%nat with (S i) by lia.
    replace (S k + i - S k)%nat with i by lia. done. }
  destruct b; simpl; [|done]. rewrite Nat.sub_diag. by rewrite Htail.
Qed.

Lemma length_duplicated_from (seen rs : list (list cell)) :
  length (duplicated_from seen rs) = length rs.
Proof.
  revert seen. induction rs as [|r rs IH]; intros seen; simpl; [done|]. by rewrite IH.
Qed.

Lemma duplicated_from_lookup (seen rs : list (list cell)) (i : nat) (r : list cell) :
  rs !! i = Some r →
  duplicated_from seen rs !! i = Some (existsb (row_eqb r) (seen ++ take i rs)).
Proof.
  revert seen i. induction rs as [|r0 rs IH]; intros seen [|i] Hi; simpl in *; try done.
  - injection Hi as ->. by rewrite app_nil_r.
  - rewrite (IH _ _ Hi). by rewrite <- app_assoc.
Qed.

Lemma length_rows (df : DataFrame) : length (rows df) = nrows df.
Proof. unfold rows. by rewrite length_map, length_seq. Qed.

Lemma rows_lookup (df : DataFrame) (i : nat) :
  (i < nrows df)%nat → rows df !! i = Some (row_at df i).
Proof.
  intros Hi. unfold rows. rewrite list_lookup_fmap, lookup_seq_lt by done. done.
Qed.

Lemma take_rows (df : DataFrame) (i : nat) :
  (i ≤ nrows df)%nat → take i (rows df) = map (row_at df) (seq 0 i).
Proof.
  intros Hi. unfold rows. rewrite <- fmap_take, take_seq. by rewrite Nat.min_l.
Qed.

Lemma not_duplicated_first (df : DataFrame) (i : nat) :
  map negb (duplicated df) !! i = Some true ↔ first_occurrence df i.
Proof.
  unfold duplicated, first_occurrence. rewrite list_lookup_fmap. split.
  - intros Hi.
    destruct (duplicated_from [] (rows df) !! i) as [b|] eqn:Hb; [|done].
    assert (i < nrows df)%nat as Hlt.
    { apply lookup_lt_Some in Hb.
      by rewrite length_duplicated_from, length_rows in Hb. }
    rewrite (duplicated_from_lookup [] _ i _ (rows_lookup df i Hlt)) in Hb.
    simpl in Hi, Hb. split; [done|]. intros j Hj.
    assert (b = false) as -> by (by destruct b; simplify_eq/=).
    injection Hb as Hb. rewrite take_rows in Hb by lia.
    destruct (row_eqb (row_at df i) (row_at df j)) eqn:Heq; [|done].
    assert (existsb (row_eqb (row_at df i)) (map (row_at df) (seq 0 i)) = true) as Hex.
    { apply existsb_exists. exists (row_at df j). split; [|done].
      apply in_map, in_seq. lia. }
    congruence.
  - intros [Hlt Hfirst].
    rewrite (duplicated_from_lookup [] _ i _ (rows_lookup df i Hlt)). simpl.
    rewrite take_rows by lia. f_equal. apply negb_true_iff.
    apply not_true_iff_false. intros (r & Hr & Heq)%existsb_exists.
    apply in_map_iff in Hr as (j & <- & Hj%in_seq).
    rewrite Hfirst in Heq by lia. done.
Qed.

Lemma map_nth_seq {A} (d : A) (l : list A) :
  map (λ k, nth k l d) (seq 0 (length l)) = l.
Proof.
  apply list_eq. intros i. rewrite list_lookup_fmap.
  destruct (l !! i) as [x|] eqn:Hi.
  - rewrite lookup_seq_lt by (by eapply lookup_lt_Some). simpl.
    by rewrite nth_lookup, Hi.
  - rewrite lookup_seq_ge by (by apply lookup_ge_None). done.
Qed.

Lemma nth_map_lt {A B} (f : A → B) (l : list A) (k : nat) (d : B) (d' : A) :
  (k < length l)%nat → nth k (map f l) d = f (nth k l d').
Proof.
  intros Hk. rewrite !nth_lookup, list_lookup_fmap.
  destruct (l !! k) as [x|] eqn:Hx; [done|].
  apply lookup_ge_None in Hx. lia.
Qed.

Lemma rows_select (mask : list bool) (df : DataFrame) :
  aligned df → length mask = nrows df →
  rows (select_rows mask df) = map (row_at df) (positions_from 0 mask).
Proof.
  intros Hal Hlen. unfold rows, nrows at 1. simpl.
  rewrite (mask_select_positions 0%Z mask (index df) 0) by done.
  rewrite length_map.
  set (ps := positions_from 0 mask).
  rewrite <- (map_nth_seq 0%nat ps) at 2.
  rewrite <- list_fmap_compose. apply list_fmap_ext. intros j k Hk. simpl.
  apply lookup_seq in Hk as [-> Hk]. simpl.
  unfold row_at. simpl. rewrite <- list_fmap_compose.
  apply list_fmap_ext. intros m c Hc. simpl.
  assert (length (cells c) = nrows df) as Hc'.
  { eapply Forall_forall in Hal; [exact Hal|]. by eapply list_elem_of_lookup_2. }
  rewrite (mask_select_positions None mask (cells c) 0) by lia.
  fold ps. rewrite (nth_map_lt _ ps j None 0%nat) by done.
  by rewrite Nat.sub_0_r.
Qed.

Lemma index_select (mask : list bool) (df : DataFrame) :
  length mask = nrows df →
  index (select_rows mask df) = map (λ p, nth p (index df) 0%Z) (positions_from 0 mask).
Proof.
  intros Hlen. simpl. rewrite (mask_select_positions 0%Z mask (index df) 0) by done.
  apply list_fmap_ext. intros j p _. simpl. by rewrite Nat.sub_0_r.
Qed.

(** C9: on every frame of the data model, [remove_duplicates] keeps
    the first occurrence of every group of equal rows, deletes the later
    ones, and leaves the survivors in their original order. *)
Theorem remove_duplicates_keeps_first (self : DataCleaner) (df : DataFrame) :
  tabular df →
  keeps_first_occurrences df (remove_duplicates self df).1.
Proof.
  intros [Hal Hcols]. unfold remove_duplicates, drop_duplicates. simpl.
  set (mask := map negb (duplicated df)).
  assert (length mask = nrows df) as Hlen.
  { unfold mask, duplicated. by rewrite length_map, length_duplicated_from, length_rows. }
  assert (∀ i, i ∈ positions_from 0 mask ↔ first_occurrence df i) as Hmem.
  { intros i. rewrite positions_from_bounds. unfold mask.
    rewrite <- not_duplicated_first. split.
    - by intros (j & -> & Hj).
    - intros Hi. by exists i. }
  destruct (empty df) eqn:Hempty.
  - exists []. unfold empty in Hempty.
    assert (nrows df = 0)%nat as Hn.
    { apply orb_true_iff in Hempty as [Hn%Nat.eqb_eq|Hc%Nat.eqb_eq]; [done|].
      apply Hcols. by destruct (columns df). }
    split; [constructor|]. split; [|split].
    + intros i. split; [by intros ?%elem_of_nil|]. intros [Hi _]. lia.
    + unfold rows. by rewrite Hn.
    + unfold nrows in Hn. by destruct (index df).
  - exists (positions_from 0 mask). split; [apply positions_from_sorted|].
    split; [exact Hmem|]. split; [by apply rows_select|by apply index_select].
Qed.

(** The theorem on the frame of the repository's test. *)
Lemma remove_duplicates_keeps_first_witness :
  tabular duplicate_frame ∧
  keeps_first_occurrences duplicate_frame
    (remove_duplicates default_cleaner duplicate_frame).1.
Proof.
  assert (tabular duplicate_frame) as Hwf.
  { split; [repeat constructor|discriminate]. }
  split; [exact Hwf|].
  exact (remove_duplicates_keeps_first default_cleaner duplicate_frame Hwf).
Defined.

(** The repository's [test_remove_duplicates]: two rows are left and the
    log holds "Removed 1 duplicate rows". *)
Example test_remove_duplicates :
  nrows (remove_duplicates default_cleaner duplicate_frame).1 = 2%nat ∧
  "Removed 1 duplicate rows" ∈ actions (remove_duplicates default_cleaner duplicate_frame).2.
Proof. split; [reflexivity|]. vm_compute. by left. Qed.

(** Outside the data model, a pandas frame can have row labels and no
    column; [drop_duplicates] returns such an empty frame as it is,
    although its rows are equal. *)
Lemma no_column_rows_survive :
  row_eqb (row_at no_column_frame 1) (row_at no_column_frame 0) = true ∧
  (remove_duplicates default_cleaner no_column_frame).1 = no_column_frame ∧
  ¬ keeps_first_occurrences no_column_frame
      (remove_duplicates default_cleaner no_column_frame).1.
Proof.
  split; [reflexivity|]. split; [reflexivity|].
  intros (ps & Hsorted & Hmem & Hrows & _).
  assert (∀ p, p ∈ ps → p = 0%nat) as Hzero.
  { intros p [Hlt Hfirst]%Hmem. destruct p as [|p]; [done|].
    specialize (Hfirst 0%nat ltac:(lia)). discriminate Hfirst. }
  change (rows (remove_duplicates default_cleaner no_column_frame).1)
    with [@nil cell; @nil cell] in Hrows.
  destruct ps as [|p1 [|p2 [|p3 ps]]]; try discriminate Hrows.
  assert (p1 = 0%nat) as -> by (apply Hzero; by left).
  assert (p2 = 0%nat) as -> by (apply Hzero; right; by left).
  apply StronglySorted_inv in Hsorted as [_ Hlt].
  apply Forall_cons in Hlt as [Hlt _]. lia.
Qed.

(** ** Min-max scaling *)

Lemma to_floats_numbers (l : list cell) :
  Forall (λ x, is_number_cell x = true) l → to_floats l = Ok (floats_of l).
Proof.
  induction 1 as [|x l Hx _ IH]; simpl; [done|].
  destruct x as [[y|s]|]; simpl in *; try done; by rewrite IH.
Qed.

Lemma map_fix_elem {A} (f : A → A) (l : list A) :
  (∀ x, x ∈ l → f x = x) → map f l = l.
Proof.
  intros Hfix. rewrite <- (list_fmap_id l) at 2.
  apply list_fmap_ext. intros k x Hx. apply Hfix. by eapply list_elem_of_lookup_2.
Qed.

Lemma setitem_mid (i : list Z) (pre post : list Column) (c : Column)
    (dt : dtype) (l : list cell) :
  NoDup (map col_name (pre ++ c :: post)) →
  setitem {| index := i; columns := pre ++ c :: post |} (col_name c) dt l
  = {| index := i;
       columns := pre ++ {| col_name := col_name c; col_dtype := dt; cells := l |} :: post |}.
Proof.
  intros Hnd. unfold setitem. simpl. f_equal.
  rewrite map_app. simpl. rewrite String.eqb_refl. f_equal; [|f_equal].
  - apply map_fix_elem. intros c' Hc'.
    apply (nodup_mid_pre _ _ _ _ Hnd), String.eqb_neq in Hc'. by rewrite Hc'.
  - apply map_fix_elem. intros c' Hc'.
    apply (nodup_mid_post _ _ _ _ Hnd), String.eqb_neq in Hc'. by rewrite Hc'.
Qed.

Lemma nodup_mid_replace (pre post : list Column) (c c' : Column) :
  col_name c' = col_name c →
  NoDup (map col_name (pre ++ c :: post)) →
  NoDup (map col_name ((pre ++ [c']) ++ post)).
Proof.
  intros Heq. rewrite <- app_assoc. simpl. rewrite !map_app. simpl. by rewrite Heq.
Qed.

Lemma foldl_pick {A} (f : A → A → A) (x : A) (l : list A) :
  (∀ a b, f a b = a ∨ f a b = b) → foldl f x l ∈ x :: l.
Proof.
  intros Hf. revert x. induction l as [|y l IH]; intros x; simpl; [by left|].
  destruct (Hf x y) as [->| ->].
  - specialize (IH x). apply elem_of_cons in IH as [->|IH]; [by left|by right; right].
  - right. apply IH.
Qed.

Lemma series_min_elem (xs : list float) (a : real) :
  series_min xs = Some a → a ∈ dropna_floats xs.
Proof.
  unfold series_min. destruct (dropna_floats xs) as [|x l]; [done|].
  intros [= <-]. apply foldl_pick. intros a b. destruct (real_ltb b a); auto.
Qed.

Lemma series_max_elem (xs : list float) (a : real) :
  series_max xs = Some a → a ∈ dropna_floats xs.
Proof.
  unfold series_max. destruct (dropna_floats xs) as [|x l]; [done|].
  intros [= <-]. apply foldl_pick. intros a b. destruct (real_ltb a b); auto.
Qed.

Lemma series_max_None (xs : list float) :
  series_min xs = None → series_max xs = None.
Proof.
  unfold series_min, series_max. by destruct (dropna_floats xs).
Qed.

Lemma fsub_None_l (y : float) : fsub None y = None.
Proof. reflexivity. Qed.

Lemma fdiv_None_r (x : float) : fdiv x None = None.
Proof. by destruct x as [[s|q]|]. Qed.

(** Equal numbers scale to NaN: [0/0], or [inf - inf]. *)
Lemma fdiv_equal (a b y v : real) :
  real_eqb a v = true → real_eqb b v = true → real_eqb y v = true →
  fdiv (fsub (Some y) (Some a)) (fsub (Some b) (Some a)) = None.
Proof.
  intros Ha Hb Hy.
  destruct v as [s|q], a as [sa|qa], b as [sb|qb], y as [sy|qy]; simpl in *; try done.
  - apply Bool.eqb_prop in Ha, Hb, Hy. subst. by destruct s.
  - apply Qeq_bool_iff in Ha, Hb, Hy.
    assert (Qeq_bool (Qred (qb + Qred (- qa))) 0 = true) as ->.
    { apply Qeq_bool_iff. rewrite !Qred_correct, Ha, Hb. ring. }
    assert (Qeq_bool (Qred (qy + Qred (- qa))) 0 = true) as ->.
    { apply Qeq_bool_iff. rewrite !Qred_correct, Ha, Hy. ring. }
    done.
Qed.

Lemma constant_dropna (v a : real) (l : list cell) :
  Forall (λ x, x = None ∨ ∃ y, x = Some (Num y) ∧ real_eqb y v = true) l →
  a ∈ dropna_floats (floats_of l) → real_eqb a v = true.
Proof.
  intros Hconst Ha. unfold dropna_floats, floats_of in Ha.
  apply list_elem_of_omap in Ha as (x & Hx & Hxa).
  apply list_elem_of_fmap in Hx as (c & -> & Hc).
  eapply Forall_forall in Hconst; [|exact Hc].
  destruct Hconst as [->|(y & -> & Hy)]; [done|]. simpl in Hxa. by simplify_eq.
Qed.

(** On a constant column of finite numbers the divisor [max - min] is 0. *)
Lemma constant_range_zero (q : Q) (l : list cell) :
  Forall (λ x, x = None ∨ ∃ y, x = Some (Num y) ∧ real_eqb y (Fin q) = true) l →
  (∃ y, Some (Num y) ∈ l) →
  ∃ d, fsub (series_max (floats_of l)) (series_min (floats_of l)) = Some (Fin d) ∧
       (d == 0)%Q.
Proof.
  intros Hconst [y Hy].
  assert (y ∈ dropna_floats (floats_of l)) as Hin.
  { unfold dropna_floats, floats_of. apply list_elem_of_omap. exists (Some y).
    split; [|done]. apply list_elem_of_fmap. by exists (Some (Num y)). }
  destruct (series_min (floats_of l)) as [a|] eqn:Hmin.
  2:{ unfold series_min in Hmin. destruct (dropna_floats (floats_of l)); [|done].
      by apply elem_of_nil in Hin. }
  destruct (series_max (floats_of l)) as [b|] eqn:Hmax.
  2:{ unfold series_max in Hmax. destruct (dropna_floats (floats_of l)); [|done].
      by apply elem_of_nil in Hin. }
  apply series_min_elem, (constant_dropna _ _ _ Hconst) in Hmin.
  apply series_max_elem, (constant_dropna _ _ _ Hconst) in Hmax.
  destruct a as [|qa], b as [|qb]; try done. simpl in Hmin, Hmax.
  apply Qeq_bool_iff in Hmin, Hmax.
  eexists. split; [reflexivity|]. rewrite !Qred_correct, Hmin, Hmax. ring.
Qed.

Lemma minmax_constant (v : real) (l : list cell) :
  Forall (λ x, x = None ∨ ∃ y, x = Some (Num y) ∧ real_eqb y v = true) l →
  Forall (λ x, x = None) (map float_cell (minmax (floats_of l))).
Proof.
  intros Hconst.
  pose proof (λ a, constant_dropna v a l Hconst) as Hall.
  unfold minmax. rewrite <- list_fmap_compose.
  apply Forall_fmap, Forall_forall. intros x Hx. cbn beta. unfold compose.
  destruct (series_min (floats_of l)) as [a|] eqn:Hmin.
  - destruct (series_max (floats_of l)) as [b|] eqn:Hmax.
    + destruct x as [y|]; [|done].
      rewrite (fdiv_equal a b y v); [done|..].
      * by apply Hall, series_min_elem.
      * by apply Hall, series_max_elem.
      * apply Hall. unfold dropna_floats. apply list_elem_of_omap. by exists (Some y).
    + rewrite fsub_None_l, fdiv_None_r. done.
  - rewrite (series_max_None _ Hmin), fsub_None_l, fdiv_None_r. done.
Qed.

Lemma log_last_log (entry : string) (self : DataCleaner) :
  log_last (log entry self) = Ok ().
Proof. unfold log_last, log. simpl. by destruct (actions self). Qed.

Lemma scale_column_step `{Libraries} (i : list Z) (pre post : list Column) (c : Column)
    (self : DataCleaner) :
  scale_method self = "minmax" →
  NoDup (map col_name (pre ++ c :: post)) →
  is_numeric (col_dtype c) = true → numbers_only c →
  scale_column (col_name c) ({| index := i; columns := pre ++ c :: post |}, self)
  = Ok ({| index := i; columns := pre ++ minmax_column c :: post |},
        log (minmax_entry c) self).
Proof.
  intros Hm Hnd Hnum Hcells. unfold scale_column. rewrite Hm.
  rewrite String.eqb_refl, (getitem_mid i pre post c Hnd), bind_Ok.
  rewrite (to_floats_numbers _ Hcells), !bind_Ok.
  rewrite (setitem_mid i pre post c _ _ Hnd).
  unfold minmax_column. rewrite Hnum. cbn [snd].
  by rewrite log_last_log, bind_Ok.
Qed.

Lemma scale_loop `{Libraries} (todo pre : list Column) (i : list Z) (self : DataCleaner) :
  scale_method self = "minmax" →
  NoDup (map col_name (pre ++ todo)) →
  Forall (λ c, is_numeric (col_dtype c) = true → numbers_only c) todo →
  for_each scale_column
           (map col_name (List.filter (λ c, is_numeric (col_dtype c)) todo))
           ({| index := i; columns := pre ++ todo |}, self)
  = Ok ({| index := i; columns := pre ++ map minmax_column todo |},
        logs (map minmax_entry (List.filter (λ c, is_numeric (col_dtype c)) todo)) self).
Proof.
  revert pre self. induction todo as [|c todo IH]; intros pre self Hm Hnd Hty; [done|].
  apply Forall_cons in Hty as [Hc Hty]. cbn [List.filter map].
  destruct (is_numeric (col_dtype c)) eqn:Hnum.
  - rewrite fmap_cons.
    erewrite for_each_cons by (by apply scale_column_step; [| |exact Hnum|apply Hc]).
    replace (pre ++ minmax_column c :: todo)
      with ((pre ++ [minmax_column c]) ++ todo) by (by rewrite <- app_assoc).
    rewrite IH; [by rewrite <- app_assoc|done| |done].
    apply (nodup_mid_replace pre todo c); [|done].
    unfold minmax_column. by rewrite Hnum.
  - replace (pre ++ c :: todo) with ((pre ++ [c]) ++ todo) in * by (by rewrite <- app_assoc).
    rewrite IH by done. rewrite <- app_assoc. simpl.
    unfold minmax_column at 2. by rewrite Hnum.
Qed.

(** C10: with [scale_numeric] on and [scale_method] "minmax", on a
    frame with unique labels whose numeric columns hold numbers, the pass
    returns every numeric column min-max scaled; a numeric column whose
    non-missing cells are all equal to [v] divides by the difference of
    its maximum and minimum untested, which is 0 for a finite [v], so
    each of its cells, missing or not, is missing afterwards. *)
Theorem minmax_constant_column_is_nan `{Libraries} (self : DataCleaner) (df : DataFrame)
    (v : real) :
  scale_numeric self = true → scale_method self = "minmax" →
  unique_labels df → well_typed df →
  let df' := {| index := index df; columns := map minmax_column (columns df) |} in
  scale_numeric_columns self df
    = Ok (df', logs (map minmax_entry
                         (List.filter (λ c, is_numeric (col_dtype c)) (columns df))) self) ∧
  (∀ c, c ∈ columns df ∧ is_numeric (col_dtype c) = true ∧ constant_column v c →
     ∃ c', getitem df' (col_name c) = Ok c' ∧
           length (cells c') = length (cells c) ∧
           Forall (λ x, x = None) (cells c')) ∧
  (∀ c q, v = Fin q ∧ constant_column v c ∧ (∃ y, Some (Num y) ∈ cells c) →
     ∃ d, fsub (series_max (floats_of (cells c))) (series_min (floats_of (cells c)))
          = Some (Fin d) ∧ (d == 0)%Q).
Proof.
  intros Hon Hm Hnd Hty df'. split; [|split].
  3:{ intros c q (-> & Hconst & Hval). exact (constant_range_zero q _ Hconst Hval). }
  - unfold scale_numeric_columns. rewrite Hon. cbn [negb].
    destruct df as [i cs]. unfold numeric_labels. simpl.
    apply (scale_loop cs [] i self Hm Hnd Hty).
  - intros c (Hc & Hnum & Hconst). exists (minmax_column c).
    assert (col_name (minmax_column c) = col_name c) as Hname.
    { unfold minmax_column. by rewrite Hnum. }
    split; [|split].
    + rewrite <- Hname. apply getitem_elem.
      * unfold unique_labels, labels, df'. simpl. rewrite <- list_fmap_compose.
        erewrite list_fmap_ext; [exact Hnd|]. intros k c0 _. simpl.
        unfold minmax_column. by destruct (is_numeric (col_dtype c0)).
      * unfold df'. simpl. by apply list_elem_of_fmap_2.
    + unfold minmax_column. rewrite Hnum. simpl.
      unfold minmax, floats_of. by rewrite !length_map.
    + unfold minmax_column. rewrite Hnum. simpl. by eapply minmax_constant.
Qed.

(** The theorem on [constant_frame]: the column [3, 3, NaN, 3] is
    missing throughout after scaling. *)
Lemma minmax_constant_column_is_nan_witness :
  scale_numeric scaling_cleaner = true ∧ scale_method scaling_cleaner = "minmax" ∧
  unique_labels constant_frame ∧ well_typed constant_frame ∧
  ∃ c', getitem {| index := index constant_frame;
                   columns := map minmax_column (columns constant_frame) |} "k" = Ok c' ∧
        length (cells c') = 4%nat ∧ Forall (λ x, x = None) (cells c').
Proof.
  assert (unique_labels constant_frame) as Hnd.
  { apply (bool_decide_unpack _). vm_compute. exact I. }
  assert (well_typed constant_frame) as Hty.
  { repeat constructor; discriminate. }
  split; [reflexivity|]. split; [reflexivity|]. split; [exact Hnd|]. split; [exact Hty|].
  destruct (minmax_constant_column_is_nan (H := sample_libraries) scaling_cleaner
              constant_frame (Fin 3) eq_refl eq_refl Hnd Hty) as (_ & Hcol & _).
  apply (Hcol {| col_name := "k"; col_dtype := Float64;
                 cells := [Some (Num (Fin 3)); Some (Num (Fin 3)); None;
                           Some (Num (Fin 3))] |}).
  split; [by left|]. split; [reflexivity|].
  unfold constant_column. simpl.
  apply Forall_cons_2; [right; by eexists|].
  apply Forall_cons_2; [right; by eexists|].
  apply Forall_cons_2; [by left|].
  apply Forall_cons_2; [right; by eexists|].
  apply Forall_nil_2.
Defined.

(** ** Missing values, strategy "mean" *)

Lemma missing_test_spec (c : Column) : missing_test c = true ↔ has_missing c.
Proof.
  unfold missing_test, has_missing. rewrite count_true_isna, Nat.ltb_lt.
  induction (cells c) as [|x l IH]; simpl.
  - split; [lia|by intros ?%elem_of_nil].
  - destruct x as [v|]; simpl.
    + rewrite IH, elem_of_cons. split; [by right|by intros [?|?]].
    + split; [by left|lia].
Qed.

Lemma mean_column_step (i : list Z) (pre post : list Column) (c : Column)
    (self : DataCleaner) :
  NoDup (map col_name (pre ++ c :: post)) →
  (missing_test c = true → numbers_only c) →
  handle_missing_column (col_name c)
    ({| index := i; columns := pre ++ c :: post |}, "mean", self)
  = Ok ({| index := i; columns := pre ++ mean_fill c :: post |}, "mean",
        if missing_test c then log (missing_entry "mean" c) self else self).
Proof.
  intros Hnd Hnum. unfold handle_missing_column.
  rewrite (getitem_mid i pre post c Hnd), bind_Ok.
  unfold mean_fill. fold (missing_test c).
  destruct (missing_test c) eqn:Htest; [|by destruct c].
  change (String.eqb "mean" "auto") with false. cbn iota. rewrite bind_Ok.
  unfold apply_strategy. change (String.eqb "mean" "mean") with true. cbn iota.
  rewrite (to_floats_numbers _ (Hnum eq_refl)), !bind_Ok.
  by rewrite (setitem_mid i pre post c _ _ Hnd).
Qed.

Lemma mean_loop (todo pre : list Column) (i : list Z) (self : DataCleaner) :
  NoDup (map col_name (pre ++ todo)) →
  Forall (λ c, missing_test c = true → numbers_only c) todo →
  for_each handle_missing_column (map col_name todo)
           ({| index := i; columns := pre ++ todo |}, "mean", self)
  = Ok ({| index := i; columns := pre ++ map mean_fill todo |}, "mean",
        logs (map (missing_entry "mean") (List.filter missing_test todo)) self).
Proof.
  revert pre self. induction todo as [|c todo IH]; intros pre self Hnd Hty; [done|].
  apply Forall_cons in Hty as [Hc Hty]. rewrite fmap_cons.
  erewrite for_each_cons by (by apply mean_column_step).
  replace (pre ++ mean_fill c :: todo)
    with ((pre ++ [mean_fill c]) ++ todo) by (by rewrite <- app_assoc).
  rewrite IH; [|..|done].
  - rewrite <- app_assoc. cbn [List.filter map app]. by destruct (missing_test c).
  - apply (nodup_mid_replace pre todo c); [|done].
    unfold mean_fill. by destruct (missing_test c).
Qed.

Lemma fillna_lookup_present (v : cell) (l : list cell) (k : nat) (x : value) :
  l !! k = Some (Some x) → fillna v l !! k = Some (Some x).
Proof. intros Hk. unfold fillna. by rewrite list_lookup_fmap, Hk. Qed.

Lemma fillna_no_missing (v : value) (l : list cell) : None ∉ fillna (Some v) l.
Proof.
  unfold fillna. intros (x & Hx & _)%list_elem_of_fmap. by destruct x.
Qed.

(** The mean of finitely many finite numbers, at least one, is a number. *)
Lemma mean_finite (l : list float) :
  Forall (λ x, x = None ∨ ∃ q, x = Some (Fin q)) l →
  (∃ q, Some (Fin q) ∈ l) →
  ∃ m, mean l = Some (Fin m).
Proof.
  intros Hfin [q0 Hq0]. unfold mean.
  assert (Forall (λ x, ∃ q, x = Fin q) (dropna_floats l)) as Hxs.
  { apply Forall_forall. intros x (y & Hy & Hyx)%list_elem_of_omap.
    eapply Forall_forall in Hfin; [|exact Hy].
    destruct Hfin as [->|(q & ->)]; [done|]. simpl in Hyx. simplify_eq. by eexists. }
  assert (dropna_floats l ≠ []) as Hne.
  { intros Hnil. assert (Fin q0 ∈ dropna_floats l) as Hin.
    { apply list_elem_of_omap. by exists (Some (Fin q0)). }
    rewrite Hnil in Hin. by apply elem_of_nil in Hin. }
  assert (∀ acc, ∃ s, foldl fadd (Some (Fin acc)) (map Some (dropna_floats l)) = Some (Fin s))
    as Hsum.
  { clear Hne. induction Hxs as [|x xs (q & ->) _ IH]; intros acc.
    - by eexists.
    - cbn [map foldl]. apply IH. }
  destruct (Hsum 0%Q) as [s Hs]. unfold fsum. rewrite Hs.
  unfold of_nat, fdiv.
  destruct (dropna_floats l) as [|x xs]; [done|].
  assert (Qeq_bool (inject_Z (Z.of_nat (length (x :: xs)))) 0 = false) as ->; [|by eexists].
  apply not_true_iff_false. intros Heq%Qeq_bool_iff.
  unfold Qeq in Heq. simpl in Heq. lia.
Qed.

(** C5, as the code has it: on a frame with unique labels in which the
    columns with a missing cell hold numbers only, strategy "mean"
    returns every such column filled with its mean; when that mean is a
    number (it is one when the column has a non-missing cell and its
    numbers are finite), the column has no missing cell afterwards and
    every cell that was not missing holds the value it held. *)
Theorem mean_fills_missing (self : DataCleaner) (df : DataFrame) :
  unique_labels df →
  Forall (λ c, has_missing c → numbers_only c) (columns df) →
  let df' := {| index := index df; columns := map mean_fill (columns df) |} in
  handle_missing_values self df "mean"
    = Ok (df', logs (map (missing_entry "mean")
                         (List.filter missing_test (columns df))) self) ∧
  (∀ c, c ∈ columns df ∧ has_missing c ∧ mean (floats_of (cells c)) ≠ None →
     ∃ c', getitem df' (col_name c) = Ok c' ∧
           ¬ has_missing c' ∧
           length (cells c') = length (cells c) ∧
           ∀ k x, cells c !! k = Some (Some x) → cells c' !! k = Some (Some x)) ∧
  (∀ c, Forall (λ x, x = None ∨ ∃ q, x = Some (Num (Fin q))) (cells c) ∧
        (∃ q, Some (Num (Fin q)) ∈ cells c) →
     mean (floats_of (cells c)) ≠ None).
Proof.
  intros Hnd Hty df'. split; [|split].
  - unfold handle_missing_values, df'. destruct df as [i cs].
    unfold labels. cbn [columns index].
    assert (Forall (λ c, missing_test c = true → numbers_only c) cs) as Hty'.
    { eapply Forall_impl; [exact Hty|]. intros c Hc Htest.
      by apply Hc, missing_test_spec. }
    pose proof (mean_loop cs [] i self Hnd Hty') as Hrun. cbn [app] in Hrun.
    by rewrite Hrun.
  - intros c (Hc & Hmiss & Hmean). exists (mean_fill c).
    assert (col_name (mean_fill c) = col_name c) as Hname.
    { unfold mean_fill. by destruct (missing_test c). }
    apply missing_test_spec in Hmiss as Htest.
    split; [|split; [|split]].
    + rewrite <- Hname. apply getitem_elem.
      * unfold unique_labels, labels, df'. simpl. rewrite <- list_fmap_compose.
        erewrite list_fmap_ext; [exact Hnd|]. intros k c0 _. simpl.
        unfold mean_fill. by destruct (missing_test c0).
      * unfold df'. simpl. by apply list_elem_of_fmap_2.
    + unfold has_missing, mean_fill. rewrite Htest. simpl.
      destruct (mean (floats_of (cells c))) as [m|]; [|done].
      apply fillna_no_missing.
    + unfold mean_fill. rewrite Htest. simpl. unfold fillna. by rewrite length_map.
    + intros k x Hk. unfold mean_fill. rewrite Htest. simpl.
      by apply fillna_lookup_present.
  - intros c [Hfin [q Hq]].
    destruct (mean_finite (floats_of (cells c))) as [m Hm]; [| |by rewrite Hm].
    + unfold floats_of. apply Forall_fmap. eapply Forall_impl; [exact Hfin|].
      intros x [->|(q' & ->)]; simpl; [by left|right; by eexists].
    + exists q. unfold floats_of.
      apply list_elem_of_fmap. by exists (Some (Num (Fin q))).
Qed.

(** The theorem on [mean_frame]. *)
Lemma mean_fills_missing_witness :
  unique_labels mean_frame ∧
  Forall (λ c, has_missing c → numbers_only c) (columns mean_frame) ∧
  handle_missing_values default_cleaner mean_frame "mean"
    = Ok ({| index := index mean_frame; columns := map mean_fill (columns mean_frame) |},
          logs (map (missing_entry "mean")
                    (List.filter missing_test (columns mean_frame))) default_cleaner).
Proof.
  assert (unique_labels mean_frame) as Hnd.
  { apply (bool_decide_unpack _). vm_compute. exact I. }
  assert (Forall (λ c, has_missing c → numbers_only c) (columns mean_frame)) as Hty.
  { apply Forall_cons_2; [intros _; repeat constructor|].
    apply Forall_cons_2; [|apply Forall_nil_2].
    intros Hmiss%missing_test_spec. discriminate Hmiss. }
  split; [exact Hnd|]. split; [exact Hty|].
  apply (mean_fills_missing default_cleaner mean_frame Hnd Hty).
Defined.

(** The frame of the witness: the missing cell of [1, NaN, 4] becomes 5/2. *)
Example mean_frame_filled :
  handle_missing_values default_cleaner mean_frame "mean"
  = Ok ({| index := [0; 1; 2]%Z;
           columns := [ {| col_name := "n"; col_dtype := Float64;
                           cells := [Some (Num (Fin 1)); Some (Num (Fin (5 # 2)));
                                     Some (Num (Fin 4))] |};
                        {| col_name := "t"; col_dtype := Object;
                           cells := [Some (Str "a"); Some (Str "b"); Some (Str "c")] |} ] |},
        log "Handled missing values in 'n' with mean" default_cleaner).
Proof. vm_compute. reflexivity. Qed.

(** C5, refuted as stated: a column that is missing throughout has no
    mean and stays missing throughout, and a text column with a missing
    cell makes the pass raise. *)
Lemma mean_leaves_missing :
  has_missing {| col_name := "n"; col_dtype := Float64; cells := [None; None] |} ∧
  handle_missing_values default_cleaner all_missing_frame "mean"
    = Ok (all_missing_frame, log "Handled missing values in 'n' with mean" default_cleaner) ∧
  handle_missing_values default_cleaner text_missing_frame "mean" = Raise TypeError.
Proof. split; [by left|]. split; vm_compute; reflexivity. Qed.

(** ** Missing values, strategy "auto" *)


Lemma skip_loop (l : list string) (df : DataFrame) (strategy : string) (self : DataCleaner) :
  (∀ x, x ∈ l → ∃ c, getitem df x = Ok c ∧ missing_test c = false) →
  for_each handle_missing_column l (df, strategy, self) = Ok (df, strategy, self).
Proof.
  induction l as [|x l IH]; intros Hall; [done|].
  destruct (Hall x) as (c & Hc & Htest); [by left|].
  erewrite for_each_cons.
  - apply IH. intros y Hy. apply Hall. by right.
  - unfold handle_missing_column. rewrite Hc, bind_Ok.
    fold (missing_test c). by rewrite Htest.
Qed.

(** The definitions above are those over the test of the library, at
    the exact skewness. *)
Lemma handle_missing_values_exact_skew (self : DataCleaner) (df : DataFrame)
    (strategy : string) :
  handle_missing_values self df strategy
  = handle_missing_values_with (λ xs, skew_lt xs 2) self df strategy.
Proof. reflexivity. Qed.

Section auto.
Variable skew_below_2 : list float → bool.




End auto.





(** What the pass and the policy make of the three frames. *)
Example auto_on_the_three_frames :
  (fst <$> handle_missing_values default_cleaner skewed_frame "auto")
    = Ok {| index := [0; 1; 2; 3; 4; 5]%Z;
            columns := [ {| col_name := "n"; col_dtype := Float64;
                            cells := int_cells [0; 0; 0; 0; -1]%Z
                                     ++ [Some (Num (Fin (-1 # 5)))] |} ] |} ∧
  spec_auto_fill {| col_name := "n"; col_dtype := Float64;
                    cells := int_cells [0; 0; 0; 0; -1]%Z ++ [None] |}
    = Ok (int_cells [0; 0; 0; 0; -1; 0]%Z) ∧
  (fst <$> handle_missing_values default_cleaner tie_frame "auto")
    = Ok {| index := [0; 1; 2]%Z;
            columns := [ {| col_name := "t"; col_dtype := Object;
                            cells := [Some (Str "b"); Some (Str "a"); Some (Str "a")] |} ] |} ∧
  spec_auto_fill {| col_name := "t"; col_dtype := Object;
                    cells := [Some (Str "b"); Some (Str "a"); None] |}
    = Ok [Some (Str "b"); Some (Str "a"); Some (Str "b")] ∧
  (fst <$> handle_missing_values default_cleaner leak_frame "auto") = Ok leak_frame_filled ∧
  spec_auto_fill leak_numbers = Ok (int_cells [1; 1; 4; 2]%Z).
Proof. repeat split; vm_compute; reflexivity. Qed.

(** ** Fuzzy deduplication *)

Lemma existsb_text (x : string) (seen : list string) :
  existsb (value_eqb (Str x)) (map Str seen) = true ↔ x ∈ seen.
Proof.
  rewrite existsb_exists. split.
  - intros (v & Hv & Heq). apply in_map_iff in Hv as (s & <- & Hs).
    simpl in Heq. apply String.eqb_eq in Heq as ->. by apply list_elem_of_In.
  - intros Hx. exists (Str x). split.
    + apply in_map. by apply list_elem_of_In.
    + simpl. apply String.eqb_refl.
Qed.

Lemma unique_from_text (ss0 seen : list string) :
  ∃ ss, unique_from value_eqb (map Str seen) (map Str ss0) = map Str ss ∧
        NoDup ss ∧ ∀ s, s ∈ ss → s ∉ seen.
Proof.
  revert seen. induction ss0 as [|x ss0 IH]; intros seen; simpl.
  - exists []. split; [done|]. split; [constructor|]. by intros s ?%elem_of_nil.
  - destruct (existsb (value_eqb (Str x)) (map Str seen)) eqn:Hseen.
    + apply IH.
    + destruct (IH (x :: seen)) as (ss & Heq & Hnd & Hfresh).
      exists (x :: ss). simpl in Heq. rewrite Heq. split; [done|]. split.
      * constructor; [|done]. intros Hx. apply (Hfresh x Hx). by left.
      * intros s [->|Hs]%elem_of_cons.
        -- intros Hin%existsb_text. congruence.
        -- intros Hin. apply (Hfresh s Hs). by right.
Qed.

Lemma unique_vals_text (c : Column) :
  text_column c → ∃ ss, unique_vals_of c = map Str ss ∧ NoDup ss.
Proof.
  intros Htext. unfold unique_vals_of, unique.
  assert (∃ ss0, omap id (cells c) = map Str ss0) as [ss0 ->].
  { induction Htext as [|x l Hx _ [ss0 IH]]; [by exists []|].
    destruct x as [[y|s]|]; [done| |by exists ss0].
    exists (s :: ss0). cbn. f_equal. exact IH. }
  destruct (unique_from_text ss0 []) as (ss & Heq & Hnd & _). by exists ss.
Qed.

Section fuzzy.
Context `{Libraries}.
Variable threshold : Z.
Variable ss : list string.
Hypothesis ss_nodup : NoDup ss.

(** The invariant of the two loops while [val1] is at place [n]: every
    entry maps a value to one that stands earlier, at place [n] at most,
    and that is not a key itself. *)
Let Inv (n : nat) (m : gmap string string) : Prop :=
  ∀ k v, m !! k = Some v →
    (∃ i j, (i < j)%nat ∧ (i ≤ n)%nat ∧ ss !! i = Some v ∧ ss !! j = Some k) ∧
    m !! v = None.

Lemma fuzzy_pair_text (a b : string) (m : gmap string string) :
  fuzzy_pair threshold (Str a) (Str b) m
  = Ok (if bool_decide (is_Some (m !! a)) || bool_decide (is_Some (m !! b)) then m
        else if (threshold <=? ratio (SnakeCase.lower a) (SnakeCase.lower b))%Z
             then <[b := a]> m else m).
Proof.
  unfold fuzzy_pair, in_mapping.
  destruct (bool_decide (is_Some (m !! a)) || bool_decide (is_Some (m !! b))); [done|].
  by destruct (threshold <=? ratio (SnakeCase.lower a) (SnakeCase.lower b))%Z.
Qed.

Lemma fuzzy_inner (n : nat) (a : string) (bs : list string) (m : gmap string string) :
  ss !! n = Some a →
  (∀ b, b ∈ bs → ∃ j, (n < j)%nat ∧ ss !! j = Some b) →
  Inv n m →
  ∃ m', for_each (fuzzy_pair threshold (Str a)) (map Str bs) m = Ok m' ∧ Inv n m'.
Proof.
  intros Ha. revert m. induction bs as [|b bs IH]; intros m Hbs Hinv.
  - by exists m.
  - destruct (Hbs b) as (j & Hj & Hb); [by left|].
    assert (∀ m1, Inv n m1 → ∃ m', for_each (fuzzy_pair threshold (Str a)) (map Str bs) m1
                                   = Ok m' ∧ Inv n m') as IH'.
    { intros m1. apply IH. intros b' Hb'. apply Hbs. by right. }
    rewrite fmap_cons. erewrite for_each_cons by apply fuzzy_pair_text.
    destruct (bool_decide (is_Some (m !! a)) || bool_decide (is_Some (m !! b))) eqn:Hskip.
    { by apply IH'. }
    apply orb_false_iff in Hskip as [Hma Hmb].
    apply bool_decide_eq_false, eq_None_not_Some in Hma, Hmb.
    destruct (threshold <=? ratio (SnakeCase.lower a) (SnakeCase.lower b))%Z;
      [|by apply IH'].
    apply IH'. intros k v Hkv.
    assert (a ≠ b) as Hab.
    { intros ->. assert (n = j) by (by eapply NoDup_lookup). lia. }
    destruct (decide (k = b)) as [->|Hkb].
    + rewrite lookup_insert_eq in Hkv. injection Hkv as <-. split.
      * exists n, j. repeat split; (done || lia).
      * by rewrite lookup_insert_ne.
    + rewrite lookup_insert_ne in Hkv by done.
      destruct (Hinv k v Hkv) as [(i & j' & Hij & Hin & Hi & Hj') Hv]. split.
      * by exists i, j'.
      * rewrite lookup_insert_ne; [done|]. intros <-.
        assert (i = j) by (by eapply NoDup_lookup). lia.
Qed.

Lemma fuzzy_outer (todo : list string) (n : nat) (m : gmap string string) :
  drop n ss = todo → Inv n m →
  ∃ m', fuzzy_mapping threshold (map Str todo) m = Ok m' ∧ Inv (length ss) m'.
Proof.
  revert n m. induction todo as [|a bs IH]; intros n m Hdrop Hinv.
  - exists m. split; [done|]. intros k v Hkv.
    destruct (Hinv k v Hkv) as [(i & j & Hij & _ & Hi & Hj) Hv]. split; [|done].
    exists i, j. repeat split; try done. apply lookup_lt_Some in Hi. lia.
  - assert (ss !! n = Some a) as Ha.
    { rewrite <- (Nat.add_0_r n), <- lookup_drop, Hdrop. done. }
    assert (drop (S n) ss = bs) as Hbs.
    { replace (drop (S n) ss) with (drop 1 (drop n ss))
        by (by rewrite drop_drop, Nat.add_1_r).
      by rewrite Hdrop. }
    destruct (fuzzy_inner n a bs m Ha) as (m1 & Hrun & Hinv1); [|done|].
    { intros b (t & Ht)%list_elem_of_lookup. exists (S n + t)%nat. split; [lia|].
      by rewrite <- lookup_drop, Hbs. }
    cbn [map fuzzy_mapping]. rewrite Hrun, bind_Ok.
    apply (IH (S n)); [done|]. intros k v Hkv.
    destruct (Hinv1 k v Hkv) as [(i & j & Hij & Hin & Hi & Hj) Hv]. split; [|done].
    exists i, j. repeat split; (done || lia).
Qed.

End fuzzy.

Lemma follow_no_cycle (m : gmap string string) :
  (∀ k v, m !! k = Some v → m !! v = None) →
  ∀ k n, (0 < n)%nat → follow m n k ≠ Some k.
Proof.
  intros Hm k [|n] Hn; [lia|]. simpl.
  destruct (m !! k) as [v|] eqn:Hk; [|done]. simpl.
  pose proof (Hm k v Hk) as Hv.
  destruct n as [|n]; simpl.
  - intros [= ->]. congruence.
  - by rewrite Hv.
Qed.

(** C2: for a text column, the substitution mapping built over its
    distinct non-null values in first-seen order exists (the loops do
    not raise) and maps each value to one canonical value at most; every
    entry maps a value to one met strictly earlier; a canonical value is
    never mapped itself, so no chain of entries leads back to its start;
    the mapping is a function of the list of distinct values; and a column
    with fewer than two distinct non-null values leaves the frame and the
    engine as they were. *)
Theorem fuzzy_mapping_canonical `{Libraries} (self : DataCleaner) (c : Column) :
  text_column c →
  ∃ mapping : gmap string string,
    fuzzy_mapping (fuzzy_threshold self) (unique_vals_of c) ∅ = Ok mapping ∧
    (∀ k v1 v2, mapping !! k = Some v1 → mapping !! k = Some v2 → v1 = v2) ∧
    (∀ k v, mapping !! k = Some v → earlier_in (unique_vals_of c) v k) ∧
    (∀ k v, mapping !! k = Some v → mapping !! v = None) ∧
    (∀ k n, (0 < n)%nat → follow mapping n k ≠ Some k) ∧
    (∀ c2, unique_vals_of c2 = unique_vals_of c →
       fuzzy_mapping (fuzzy_threshold self) (unique_vals_of c2) ∅ = Ok mapping) ∧
    (∀ df col, getitem df col = Ok c → (length (unique_vals_of c) < 2)%nat →
       dedup_column col (df, self) = Ok (df, self)).
Proof.
  intros Htext. destruct (unique_vals_text c Htext) as (ss & Hss & Hnd).
  destruct (fuzzy_outer (fuzzy_threshold self) ss Hnd ss 0 ∅) as (m & Hrun & Hinv);
    [done|by intros k v ?|].
  exists m. rewrite Hss.
  assert (∀ k v, m !! k = Some v → m !! v = None) as Hcanon.
  { intros k v Hkv. by destruct (Hinv k v Hkv). }
  split; [exact Hrun|]. split; [congruence|]. split; [|split; [exact Hcanon|]].
  - intros k v Hkv. destruct (Hinv k v Hkv) as [(i & j & Hij & _ & Hi & Hj) _].
    exists i, j. split; [done|]. rewrite !list_lookup_fmap, Hi, Hj. done.
  - split; [by apply follow_no_cycle|]. split.
    + intros c2 ->. exact Hrun.
    + intros df col Hc Hlen. unfold dedup_column. rewrite Hc, bind_Ok.
      cbn beta zeta. rewrite Hss. apply Nat.ltb_lt in Hlen. by rewrite Hlen.
Qed.

(** The theorem on [names_column], with texts similar when equal up to
    case. *)
Lemma fuzzy_mapping_canonical_witness :
  text_column names_column ∧
  ∃ mapping : gmap string string,
    fuzzy_mapping (H := sample_libraries) 90 (unique_vals_of names_column) ∅ = Ok mapping ∧
    (∀ k v, mapping !! k = Some v → earlier_in (unique_vals_of names_column) v k) ∧
    (∀ k v, mapping !! k = Some v → mapping !! v = None).
Proof.
  assert (text_column names_column) as Htext by (repeat constructor).
  split; [exact Htext|].
  destruct (fuzzy_mapping_canonical (H := sample_libraries) default_cleaner
              names_column Htext) as (m & Hrun & _ & Hearlier & Hcanon & _).
  exists m. split; [exact Hrun|]. split; [exact Hearlier|exact Hcanon].
Defined.

(** With texts similar when they are equal up to case, "alice" is
    replaced by "Alice" and "BOB" by "Bob". *)
Example dedup_names :
  deduplicate_text_fuzzy (H := sample_libraries) default_cleaner names_frame
  = Ok ({| index := [0; 1; 2; 3; 4]%Z;
           columns := [ {| col_name := "name"; col_dtype := Object;
                           cells := [Some (Str "Alice"); Some (Str "Alice");
                                     Some (Str "Bob"); None; Some (Str "Bob")] |} ] |},
        log "Deduplicated 2 text entries in 'name' using fuzzy matching" default_cleaner).
Proof. vm_compute. reflexivity. Qed.

(** ** The mode of a text column *)

Lemma string_leb_le (a b : string) :
  String.leb a b = true ↔ String_as_OT.lt a b ∨ a = b.
Proof.
  unfold String.leb. destruct (String.compare a b) eqn:Hc.
  - split; [|done]. intros _. right. by apply String_as_OT.cmp_eq.
  - split; [|done]. intros _. left. by apply String_as_OT.cmp_lt.
  - split; [done|]. intros [Hlt%String_as_OT.cmp_lt|Heq%String_as_OT.cmp_eq];
      unfold String_as_OT.cmp in *; congruence.
Qed.

Lemma string_leb_trans (a b c : string) :
  String.leb a b = true → String.leb b c = true → String.leb a c = true.
Proof.
  rewrite !string_leb_le. intros [Hab| ->] [Hbc| ->]; auto.
  left. by eapply String_as_OT.lt_trans.
Qed.

Lemma insert_by_elem {A} (leb : A → A → bool) (x u : A) (l : list A) :
  u ∈ insert_by leb x l ↔ u = x ∨ u ∈ l.
Proof.
  induction l as [|y l IH]; simpl.
  - rewrite list_elem_of_singleton, elem_of_nil. tauto.
  - destruct (leb x y).
    + by rewrite elem_of_cons.
    + rewrite !elem_of_cons, IH. tauto.
Qed.

Lemma sort_by_elem {A} (leb : A → A → bool) (u : A) (l : list A) :
  u ∈ sort_by leb l ↔ u ∈ l.
Proof.
  unfold sort_by. induction l as [|x l IH]; simpl; [done|].
  by rewrite insert_by_elem, IH, elem_of_cons.
Qed.

(** The head of the sorted list is below every entry, for an order that
    is total and transitive on the entries. *)
Lemma sort_by_head {A} (leb : A → A → bool) (P : A → Prop) (l : list A) (v : A)
    (rest : list A) :
  (∀ x y, P x → P y → leb x y = true ∨ leb y x = true) →
  (∀ x y z, P x → P y → P z → leb x y = true → leb y z = true → leb x z = true) →
  Forall P l → sort_by leb l = v :: rest → ∀ u, u ∈ l → leb v u = true.
Proof.
  intros Htotal Htrans. unfold sort_by.
  revert v rest. induction l as [|x l IH]; intros v rest Hl Hsort u Hu.
  - by apply elem_of_nil in Hu.
  - apply Forall_cons in Hl as [Hx Hl]. simpl in Hsort.
    assert (∀ w, w ∈ foldr (insert_by leb) [] l → P w) as Hsorted.
    { intros w Hw%sort_by_elem. by eapply Forall_forall in Hl. }
    destruct (foldr (insert_by leb) [] l) as [|h t] eqn:Hs.
    + simpl in Hsort. injection Hsort as <- <-.
      assert (l = []) as ->.
      { destruct l as [|y l']; [done|].
        assert (y ∈ sort_by leb (y :: l')) as Hy by (apply sort_by_elem; by left).
        unfold sort_by in Hy. rewrite Hs in Hy. by apply elem_of_nil in Hy. }
      apply list_elem_of_singleton in Hu as ->.
      by destruct (Htotal x x Hx Hx).
    + assert (P h) as Hh by (apply Hsorted; by left).
      assert (∀ w, w ∈ l → leb h w = true) as Hmin by (by eapply IH).
      simpl in Hsort. destruct (leb x h) eqn:Hxh.
      * injection Hsort as <- <-. apply elem_of_cons in Hu as [->|Hu].
        -- by destruct (Htotal x x Hx Hx).
        -- apply (Htrans x h u); try done; [|by apply Hmin].
           by eapply Forall_forall in Hl.
      * injection Hsort as <- _. apply elem_of_cons in Hu as [->|Hu].
        -- destruct (Htotal x h Hx Hh); [congruence|done].
        -- by apply Hmin.
Qed.

Lemma unique_from_elem_text (ss0 seen : list string) (u : value) :
  u ∈ unique_from value_eqb (map Str seen) (map Str ss0)
  ↔ ∃ s, u = Str s ∧ s ∈ ss0 ∧ s ∉ seen.
Proof.
  revert seen. induction ss0 as [|x ss0 IH]; intros seen; simpl.
  - split; [by intros ?%elem_of_nil|]. by intros (s & _ & ?%elem_of_nil & _).
  - destruct (existsb (value_eqb (Str x)) (map Str seen)) eqn:Hseen.
    + apply existsb_text in Hseen. rewrite IH. split.
      * intros (s & -> & Hs & Hn). exists s. by rewrite elem_of_cons; auto.
      * intros (s & -> & [->|Hs]%elem_of_cons & Hn); [done|]. by exists s.
    + assert (x ∉ seen) as Hx.
      { intros Hx%existsb_text. congruence. }
      rewrite elem_of_cons. change (Str x :: map Str seen) with (map Str (x :: seen)).
      rewrite IH. split.
      * intros [->|(s & -> & Hs & Hn)].
        -- exists x. split; [done|]. split; [by left|done].
        -- exists s. split; [done|]. split; [by right|].
           intros Hin. apply Hn. by right.
      * intros (s & -> & [->|Hs]%elem_of_cons & Hn); [by left|].
        destruct (decide (s = x)) as [->|Hne]; [by left|]. right.
        exists s. split; [done|]. split; [done|].
        by intros [?|?]%elem_of_cons.
Qed.

Lemma foldr_max_ge (l : list nat) (x : nat) : x ∈ l → (x ≤ foldr Nat.max 0 l)%nat.
Proof.
  induction l as [|y l IH]; simpl; [by intros ?%elem_of_nil|].
  intros [->|Hx]%elem_of_cons; [lia|]. specialize (IH Hx). lia.
Qed.

(** X23: on a text column the value that [mode()[0]] returns, which
    the strategy "mode" fills with, is met in the column, no value is met
    more often, and among the values met as often it is the least in the
    order of texts. *)
Lemma mode0_smallest (ss0 : list string) (l : list cell) (v : value) :
  omap id l = map Str ss0 → mode0 l = Ok v →
  ∃ s, v = Str s ∧ s ∈ ss0 ∧
    (∀ t, t ∈ ss0 → count_of (Str t) (map Str ss0) ≤ count_of (Str s) (map Str ss0))%nat ∧
    (∀ t, t ∈ ss0 → count_of (Str t) (map Str ss0) = count_of (Str s) (map Str ss0) →
       String.leb s t = true).
Proof.
  intros Hvs. unfold mode0, mode. rewrite Hvs.
  set (vs := map Str ss0). set (us := unique value_eqb vs).
  set (best := foldr Nat.max 0%nat (map (λ u, count_of u vs) us)).
  set (F := List.filter (λ u, (count_of u vs =? best)%nat) us).
  assert (∀ u, u ∈ us ↔ ∃ s, u = Str s ∧ s ∈ ss0) as Hus.
  { intros u. etrans; [apply (unique_from_elem_text ss0 [] u)|].
    split; intros (s & -> & Hs); exists s; [tauto|].
    split; [done|]. split; [tauto|apply not_elem_of_nil]. }
  assert (∀ u, u ∈ F ↔ u ∈ us ∧ count_of u vs = best) as HF.
  { intros u. unfold F. rewrite list_elem_of_In, filter_In, <- list_elem_of_In.
    by rewrite Nat.eqb_eq. }
  assert (Forall (λ u, is_num u = false) F) as Htext.
  { apply Forall_forall. intros u [(s & -> & _)%Hus _]%HF. done. }
  assert (sort_modes F = sort_by value_leb F) as ->.
  { unfold sort_modes.
    assert (forallb (λ u, negb (is_num u)) F = true) as ->; [|by rewrite orb_true_r].
    apply forallb_forall. intros u Hu%list_elem_of_In.
    eapply Forall_forall in Htext; [|exact Hu]. simpl in Htext. by rewrite Htext. }
  destruct (sort_by value_leb F) as [|w rest] eqn:Hsort; [done|]. intros [= ->].
  assert (v ∈ F) as Hv by (apply (sort_by_elem value_leb); rewrite Hsort; by left).
  pose proof Hv as [(s & -> & Hs)%Hus Hbest]%HF.
  exists s. split; [done|]. split; [done|]. split.
  - intros t Ht. rewrite Hbest. apply foldr_max_ge.
    apply list_elem_of_fmap. exists (Str t). split; [done|]. apply Hus. by exists t.
  - intros t Ht Hcount.
    assert (Str t ∈ F) as HtF.
    { apply HF. split; [apply Hus; by exists t|congruence]. }
    apply (sort_by_head value_leb (λ u, is_num u = false) F (Str s) rest) in HtF;
      [done| | |done|done].
    + intros [x|a] [y|b] Hx Hy; try done. simpl. apply String.leb_total.
    + intros [x|a] [y|b] [z|c] Hx Hy Hz; try done. simpl. apply string_leb_trans.
Qed.

(** * Further properties of the passes *)

(** ** A loop that rewrites the selected columns one by one *)

Lemma getitem_Ok_elem (df : DataFrame) (col : string) (c : Column) :
  getitem df col = Ok c → c ∈ columns df ∧ col_name c = col.
Proof.
  unfold getitem. destruct (List.find _ _) as [c'|] eqn:Hf; [|done].
  intros [= <-]. apply find_some in Hf as [Hin Heq].
  split; [by apply list_elem_of_In|by apply String.eqb_eq].
Qed.

(** The state of the loop is a frame and a rest [t]; the body replaces
    the column it is called on by [f] of it and the rest by [g] of it. *)
Lemma column_loop {T S} (mk : DataFrame → T → S) (body : string → S → result S)
    (sel : Column → bool) (f : Column → Column) (g : Column → T → T)
    (P : Column → Prop) (Q : T → Prop) :
  (∀ c, col_name (f c) = col_name c) →
  (∀ c t, Q t → Q (g c t)) →
  (∀ i pre post c t,
     NoDup (map col_name (pre ++ c :: post)) → sel c = true → P c → Q t →
     body (col_name c) (mk {| index := i; columns := pre ++ c :: post |} t)
     = Ok (mk {| index := i; columns := pre ++ f c :: post |} (g c t))) →
  ∀ todo pre i t,
    NoDup (map col_name (pre ++ todo)) →
    Forall (λ c, sel c = true → P c) todo → Q t →
    for_each body (map col_name (List.filter sel todo))
             (mk {| index := i; columns := pre ++ todo |} t)
    = Ok (mk {| index := i;
                columns := pre ++ map (λ c, if sel c then f c else c) todo |}
             (foldl (λ t c, g c t) t (List.filter sel todo))).
Proof.
  intros Hname HQ Hstep.
  induction todo as [|c todo IH]; intros pre i t Hnd Hall Ht; [done|].
  apply Forall_cons in Hall as [Hc Hall]. cbn [List.filter map].
  destruct (sel c) eqn:Hsel.
  - cbn [map foldl].
    erewrite for_each_cons by (by apply Hstep; [| |apply Hc|]).
    replace (pre ++ f c :: todo) with ((pre ++ [f c]) ++ todo)
      by (by rewrite <- app_assoc).
    rewrite IH; [by rewrite <- app_assoc| |done|by apply HQ].
    by apply (nodup_mid_replace pre todo c).
  - replace (pre ++ c :: todo) with ((pre ++ [c]) ++ todo) in *
      by (by rewrite <- app_assoc).
    rewrite IH by done. by rewrite <- app_assoc.
Qed.

(** ** Duplicate rows, continued *)

Lemma real_eqb_sym (x y : real) : real_eqb x y = real_eqb y x.
Proof.
  destruct x as [s|a], y as [t|b]; simpl; try done.
  - by destruct s, t.
  - destruct (Qeq_bool a b) eqn:Hab, (Qeq_bool b a) eqn:Hba; try done.
    + apply Qeq_bool_iff in Hab. symmetry in Hab. apply Qeq_bool_iff in Hab. congruence.
    + apply Qeq_bool_iff in Hba. symmetry in Hba. apply Qeq_bool_iff in Hba. congruence.
Qed.

Lemma cell_eqb_sym (a b : cell) : cell_eqb a b = cell_eqb b a.
Proof.
  destruct a as [[x|s]|], b as [[y|t]|]; simpl; try done.
  - apply real_eqb_sym.
  - apply String.eqb_sym.
Qed.

Lemma row_eqb_sym (r1 r2 : list cell) : row_eqb r1 r2 = row_eqb r2 r1.
Proof.
  unfold row_eqb. rewrite (Nat.eqb_sym (length r2)). f_equal.
  revert r2. induction r1 as [|a r1 IH]; intros [|b r2]; simpl; try done.
  by rewrite cell_eqb_sym, IH.
Qed.

Lemma length_mask_select_le {A} (mask : list bool) (l : list A) :
  (length (mask_select mask l) ≤ length l)%nat.
Proof.
  revert l. induction mask as [|b mask IH]; intros [|x l]; simpl; try lia.
  specialize (IH l). destruct b; simpl; lia.
Qed.

Lemma length_mask_select_eq {A B} (mask : list bool) (l1 : list A) (l2 : list B) :
  length l1 = length l2 →
  length (mask_select mask l1) = length (mask_select mask l2).
Proof.
  revert l1 l2. induction mask as [|b mask IH]; intros [|x l1] [|y l2] Hlen;
    simpl in *; try done.
  destruct b; simpl; rewrite (IH l1 l2); (done || lia).
Qed.

Lemma mask_select_all {A} (mask : list bool) (l : list A) :
  Forall (λ b, b = true) mask → (length l ≤ length mask)%nat →
  mask_select mask l = l.
Proof.
  intros Hall. revert l. induction Hall as [|b mask -> _ IH]; intros [|x l] Hlen;
    simpl in *; try done; [lia|].
  f_equal. apply IH. lia.
Qed.

Lemma sorted_lookup_lt (ps : list nat) (i j a b : nat) :
  StronglySorted lt ps → (j < i)%nat → ps !! j = Some a → ps !! i = Some b → (a < b)%nat.
Proof.
  intros Hs. revert i j. induction Hs as [|p ps Hs IH Hall]; intros i j Hji Hj Hi.
  - done.
  - destruct i as [|i]; [lia|]. destruct j as [|j]; simpl in *.
    + injection Hj as <-. eapply Forall_forall in Hall; [exact Hall|].
      by eapply list_elem_of_lookup_2.
    + apply (IH i j); (done || lia).
Qed.

Lemma select_rows_shape (mask : list bool) (df : DataFrame) :
  labels (select_rows mask df) = labels df ∧
  map col_dtype (columns (select_rows mask df)) = map col_dtype (columns df).
Proof.
  unfold labels, select_rows. simpl. rewrite <- !list_fmap_compose.
  split; by apply list_fmap_ext.
Qed.

Lemma select_rows_aligned (mask : list bool) (df : DataFrame) :
  aligned df → aligned (select_rows mask df).
Proof.
  unfold aligned, nrows. simpl. intros Hal. apply Forall_fmap.
  eapply Forall_impl; [exact Hal|]. intros c Hc. simpl.
  by apply length_mask_select_eq.
Qed.

Lemma drop_duplicates_first (df : DataFrame) :
  tabular df → keeps_first_occurrences df (drop_duplicates df).
Proof.
  intros [Hal Hcols]. unfold drop_duplicates.
  set (mask := map negb (duplicated df)).
  assert (length mask = nrows df) as Hlen.
  { unfold mask, duplicated. by rewrite length_map, length_duplicated_from, length_rows. }
  destruct (empty df) eqn:Hempty.
  - exists []. unfold empty in Hempty.
    assert (nrows df = 0)%nat as Hn.
    { apply orb_true_iff in Hempty as [Hn%Nat.eqb_eq|Hc%Nat.eqb_eq]; [done|].
      apply Hcols. by destruct (columns df). }
    split; [constructor|]. split; [|split].
    + intros i. split; [by intros ?%elem_of_nil|]. intros [Hi _]. lia.
    + unfold rows. by rewrite Hn.
    + unfold nrows in Hn. by destruct (index df).
  - exists (positions_from 0 mask). split; [apply positions_from_sorted|].
    split; [|split; [by apply rows_select|by apply index_select]].
    intros i. rewrite positions_from_bounds. unfold mask.
    rewrite <- not_duplicated_first. split.
    + by intros (j & -> & Hj).
    + intros Hi. by exists i.
Qed.

Lemma drop_duplicates_distinct (df : DataFrame) :
  tabular df →
  distinct_rows (drop_duplicates df) ∧
  (nrows (drop_duplicates df) ≤ nrows df)%nat ∧
  labels (drop_duplicates df) = labels df ∧
  map col_dtype (columns (drop_duplicates df)) = map col_dtype (columns df) ∧
  tabular (drop_duplicates df).
Proof.
  intros Hwf. pose proof (drop_duplicates_first df Hwf) as (ps & Hs & Hmem & Hrows & _).
  destruct Hwf as [Hal Hcols].
  set (df' := drop_duplicates df) in *.
  assert (∀ i, (i < nrows df')%nat →
            ∃ p, ps !! i = Some p ∧ row_at df' i = row_at df p) as Hrow.
  { intros i Hi. pose proof (rows_lookup df' i Hi) as Hl.
    rewrite Hrows, list_lookup_fmap in Hl.
    destruct (ps !! i) as [p|]; [|done]. exists p. split; [done|].
    simpl in Hl. by injection Hl. }
  assert (∀ i j, (i < nrows df')%nat → (j < i)%nat →
            row_eqb (row_at df' i) (row_at df' j) = false) as Hlower.
  { intros i j Hi Hj.
    destruct (Hrow i Hi) as (p & Hp & ->).
    destruct (Hrow j ltac:(lia)) as (q & Hq & ->).
    assert (q < p)%nat as Hqp by (by eapply (sorted_lookup_lt ps i j)).
    assert (first_occurrence df p) as [_ Hfirst].
    { apply Hmem. by eapply list_elem_of_lookup_2. }
    by apply Hfirst. }
  split; [|split; [|split; [|split]]].
  - intros i j Hi Hj Hne. destruct (decide (j < i)%nat) as [Hlt|Hge].
    + by apply Hlower.
    + rewrite row_eqb_sym. apply Hlower; lia.
  - unfold df', drop_duplicates. destruct (empty df); [done|].
    unfold nrows. simpl. apply length_mask_select_le.
  - unfold df', drop_duplicates. destruct (empty df); [done|].
    apply select_rows_shape.
  - unfold df', drop_duplicates. destruct (empty df); [done|].
    apply select_rows_shape.
  - unfold df', drop_duplicates. destruct (empty df) eqn:Hempty; [done|].
    split; [by apply select_rows_aligned|]. simpl.
    intros Hnil. apply fmap_nil_inv in Hnil.
    unfold empty in Hempty. rewrite Hnil in Hempty. simpl in Hempty.
    by rewrite orb_true_r in Hempty.
Qed.

(** X1: after [remove_duplicates] no two rows of the frame are equal,
    the frame has no more rows than before, and the labels and dtypes of
    its columns are those of the input. *)
Theorem remove_duplicates_distinct (self : DataCleaner) (df : DataFrame) :
  tabular df →
  let df' := (remove_duplicates self df).1 in
  distinct_rows df' ∧ (nrows df' ≤ nrows df)%nat ∧
  labels df' = labels df ∧
  map col_dtype (columns df') = map col_dtype (columns df) ∧
  tabular df'.
Proof. intros Hwf. apply (drop_duplicates_distinct df Hwf). Qed.

(** The theorem on the frame of the repository's test. *)
Lemma remove_duplicates_distinct_witness :
  tabular duplicate_frame ∧
  distinct_rows (remove_duplicates default_cleaner duplicate_frame).1.
Proof.
  assert (tabular duplicate_frame) as Hwf.
  { split; [repeat constructor|discriminate]. }
  split; [exact Hwf|].
  exact (proj1 (remove_duplicates_distinct default_cleaner duplicate_frame Hwf)).
Defined.

Lemma drop_duplicates_fixed (df : DataFrame) :
  aligned df → distinct_rows df → drop_duplicates df = df.
Proof.
  intros Hal Hdist. unfold drop_duplicates. destruct (empty df); [done|].
  set (mask := map negb (duplicated df)).
  assert (length mask = nrows df) as Hlen.
  { unfold mask, duplicated. by rewrite length_map, length_duplicated_from, length_rows. }
  assert (Forall (λ b, b = true) mask) as Hall.
  { apply Forall_lookup. intros i b Hb.
    assert (i < nrows df)%nat as Hi by (apply lookup_lt_Some in Hb; lia).
    assert (mask !! i = Some true) as Ht; [|congruence].
    apply not_duplicated_first. split; [done|]. intros j Hj.
    apply Hdist; lia. }
  destruct df as [i cs]. unfold select_rows. simpl in *. f_equal.
  - apply mask_select_all; [done|]. unfold nrows in Hlen. simpl in Hlen. lia.
  - apply map_fix_elem. intros c Hc.
    eapply Forall_forall in Hal; [|exact Hc]. unfold nrows in *. simpl in *.
    unfold with_cells. rewrite mask_select_all by (done || lia). by destruct c.
Qed.

(** X2: [remove_duplicates] is idempotent on the frame: a second run, on
    the frame and the engine the first run returns, returns the same
    frame and logs "Removed 0 duplicate rows". *)
Theorem remove_duplicates_twice (self : DataCleaner) (df : DataFrame) :
  tabular df →
  let once := remove_duplicates self df in
  remove_duplicates once.2 once.1 = (once.1, log "Removed 0 duplicate rows" once.2).
Proof.
  intros Hwf once.
  destruct (drop_duplicates_distinct df Hwf) as (Hdist & _ & _ & _ & [Hal _]).
  unfold remove_duplicates at 1. cbn zeta.
  assert (drop_duplicates once.1 = once.1) as -> by (by apply drop_duplicates_fixed).
  by rewrite Nat.sub_diag.
Qed.

(** The theorem on the frame of the repository's test. *)
Lemma remove_duplicates_twice_witness :
  tabular duplicate_frame ∧
  remove_duplicates (remove_duplicates default_cleaner duplicate_frame).2
                    (remove_duplicates default_cleaner duplicate_frame).1
  = ((remove_duplicates default_cleaner duplicate_frame).1,
     log "Removed 0 duplicate rows" (remove_duplicates default_cleaner duplicate_frame).2).
Proof.
  assert (tabular duplicate_frame) as Hwf.
  { split; [repeat constructor|discriminate]. }
  split; [exact Hwf|].
  exact (remove_duplicates_twice default_cleaner duplicate_frame Hwf).
Defined.

(** ** Missing values, continued *)

Lemma complete_frame_untouched (self : DataCleaner) (df : DataFrame) (strategy : string) :
  unique_labels df →
  Forall (λ c, ¬ has_missing c) (columns df) →
  handle_missing_values self df strategy = Ok (df, self).
Proof.
  intros _ Hall. unfold handle_missing_values. rewrite skip_loop; [done|].
  intros x Hx. destruct (getitem_label df x Hx) as [c Hc]. exists c. split; [done|].
  apply getitem_Ok_elem in Hc as [Hin _].
  eapply Forall_forall in Hall; [|exact Hin].
  apply not_true_iff_false. by intros ?%missing_test_spec.
Qed.

(** X3: on a frame with unique labels and without a missing cell
    [handle_missing_values] returns the frame and the engine as they are,
    whatever the strategy is: nothing is filled, dropped or logged, and
    nothing is raised. *)
Theorem handle_missing_values_complete (self : DataCleaner) (df : DataFrame)
    (strategy : string) :
  unique_labels df →
  Forall (λ c, ¬ has_missing c) (columns df) →
  handle_missing_values self df strategy = Ok (df, self).
Proof. apply complete_frame_untouched. Qed.

(** The theorem on a frame of five rows without a missing cell. *)
Lemma handle_missing_values_complete_witness :
  unique_labels outlier_frame ∧
  Forall (λ c, ¬ has_missing c) (columns outlier_frame) ∧
  handle_missing_values default_cleaner outlier_frame "median"
  = Ok (outlier_frame, default_cleaner).
Proof.
  assert (unique_labels outlier_frame) as Hnd.
  { apply (bool_decide_unpack _). vm_compute. exact I. }
  assert (Forall (λ c, ¬ has_missing c) (columns outlier_frame)) as Hall.
  { apply Forall_cons_2; [|apply Forall_nil_2].
    intros Hm%missing_test_spec. discriminate Hm. }
  split; [exact Hnd|]. split; [exact Hall|].
  exact (handle_missing_values_complete default_cleaner outlier_frame "median" Hnd Hall).
Defined.

Lemma unknown_strategy_apply (strategy : string) (df : DataFrame) (col : string)
    (c : Column) :
  ¬ known_strategy strategy → apply_strategy strategy df col c = Ok df.
Proof.
  intros Hun. unfold apply_strategy.
  destruct (String.eqb strategy "mean") eqn:H1;
    [apply String.eqb_eq in H1; exfalso; apply Hun; unfold known_strategy; auto|].
  destruct (String.eqb strategy "median") eqn:H2;
    [apply String.eqb_eq in H2; exfalso; apply Hun; unfold known_strategy; auto|].
  destruct (String.eqb strategy "mode") eqn:H3;
    [apply String.eqb_eq in H3; exfalso; apply Hun; unfold known_strategy; auto|].
  destruct (String.eqb strategy "drop") eqn:H4;
    [apply String.eqb_eq in H4; exfalso; apply Hun; unfold known_strategy; auto 6|].
  done.
Qed.

Lemma unknown_strategy_loop (strategy : string) (df : DataFrame) (todo : list Column)
    (self : DataCleaner) :
  ¬ known_strategy strategy →
  (∀ c, c ∈ todo → getitem df (col_name c) = Ok c) →
  for_each handle_missing_column (map col_name todo) (df, strategy, self)
  = Ok (df, strategy,
        logs (map (missing_entry strategy) (List.filter missing_test todo)) self).
Proof.
  intros Hun. revert self. induction todo as [|c todo IH]; intros self Hget; [done|].
  cbn [map List.filter].
  assert (handle_missing_column (col_name c) (df, strategy, self)
          = Ok (df, strategy,
                if missing_test c then log (missing_entry strategy c) self else self))
    as Hstep.
  { unfold handle_missing_column. rewrite (Hget c) by (by left). rewrite bind_Ok.
    fold (missing_test c). destruct (missing_test c); [|done].
    assert (String.eqb strategy "auto" = false) as ->.
    { apply String.eqb_neq. intros ->. apply Hun. unfold known_strategy. auto. }
    by rewrite bind_Ok, unknown_strategy_apply, bind_Ok. }
  erewrite for_each_cons by exact Hstep.
  rewrite IH by (intros c' Hc'; apply Hget; by right).
  by destruct (missing_test c).
Qed.

(** X4: a strategy that is none of "auto", "mean", "median", "mode" and
    "drop" is accepted: the pass returns the frame as it is, missing
    cells included, and still logs one "Handled missing values" entry for
    every column that has a missing cell. *)
Theorem handle_missing_values_unknown_strategy (self : DataCleaner) (df : DataFrame)
    (strategy : string) :
  unique_labels df → ¬ known_strategy strategy →
  handle_missing_values self df strategy
  = Ok (df, logs (map (missing_entry strategy)
                      (List.filter missing_test (columns df))) self).
Proof.
  intros Hnd Hun. unfold handle_missing_values, labels.
  rewrite (unknown_strategy_loop strategy df (columns df) self Hun); [done|].
  intros c Hc. by apply getitem_elem.
Qed.

(** The theorem on [mean_frame] with the strategy "average". *)
Lemma handle_missing_values_unknown_strategy_witness :
  unique_labels mean_frame ∧ ¬ known_strategy "average" ∧
  handle_missing_values default_cleaner mean_frame "average"
  = Ok (mean_frame, log "Handled missing values in 'n' with average" default_cleaner).
Proof.
  assert (unique_labels mean_frame) as Hnd.
  { apply (bool_decide_unpack _). vm_compute. exact I. }
  assert (¬ known_strategy "average") as Hun.
  { intros [H|[H|[H|[H|H]]]]; discriminate H. }
  split; [exact Hnd|]. split; [exact Hun|].
  exact (handle_missing_values_unknown_strategy default_cleaner mean_frame "average"
           Hnd Hun).
Defined.

(** ** Column names and types, continued *)

Lemma length_keep_ident (s : string) :
  (String.length (SnakeCase.keep_ident s) ≤ String.length s)%nat.
Proof.
  induction s as [|c s IH]; simpl; [done|].
  destruct (SnakeCase.is_ident c); simpl; lia.
Qed.

Lemma length_lower (s : string) :
  String.length (SnakeCase.lower s) = String.length s.
Proof. induction s as [|c s IH]; simpl; [done|]. by rewrite IH. Qed.

Lemma length_sub_runs (b : bool) (s : string) :
  (String.length (SnakeCase.sub_runs b s) ≤ String.length s)%nat.
Proof.
  revert b. induction s as [|c s IH]; intros b; simpl; [done|].
  destruct (SnakeCase.is_sep c).
  - destruct b; simpl; [specialize (IH true); lia|specialize (IH true); lia].
  - simpl. specialize (IH false). lia.
Qed.

Lemma length_to_snake_case (s : string) :
  (String.length (SnakeCase.to_snake_case s) ≤ String.length s)%nat.
Proof.
  unfold SnakeCase.to_snake_case.
  pose proof (length_keep_ident (SnakeCase.lower (SnakeCase.sub_runs false s))).
  pose proof (length_sub_runs false s). rewrite length_lower in *. lia.
Qed.

Lemma set_labels_same (df : DataFrame) : set_labels (labels df) df = df.
Proof.
  destruct df as [i cs]. unfold set_labels, labels. simpl. f_equal.
  induction cs as [|c cs IH]; simpl; [done|]. rewrite IH. by destruct c.
Qed.

(** X5: [standardize_columns] changes names only: the row index and the
    cells and dtype of every column are those of the input, in the same
    order; every new name consists of the characters a-z, 0-9 and _ and
    is not longer than the old one; and a frame whose names are already
    of that form is returned as it is. *)
Theorem standardize_columns_names_only (self : DataCleaner) (df : DataFrame) :
  let df' := (standardize_columns self df).1 in
  index df' = index df ∧
  map cells (columns df') = map cells (columns df) ∧
  map col_dtype (columns df') = map col_dtype (columns df) ∧
  Forall2 (λ new old, SnakeCase.all_ident new = true ∧
                      (String.length new ≤ String.length old)%nat)
          (labels df') (labels df) ∧
  (Forall (λ n, SnakeCase.all_ident n = true) (labels df) → df' = df).
Proof.
  intros df'. split; [done|].
  assert (∀ (names : list string) cs,
            length names = length cs →
            map cells (zip_with (λ n c, {| col_name := n; col_dtype := col_dtype c;
                                           cells := cells c |}) names cs) = map cells cs ∧
            map col_dtype (zip_with (λ n c, {| col_name := n; col_dtype := col_dtype c;
                                               cells := cells c |}) names cs)
              = map col_dtype cs) as Hzip.
  { induction names as [|n names IH]; intros [|c cs] Hlen; simpl in *; try done.
    destruct (IH cs) as [-> ->]; [lia|done]. }
  destruct (Hzip (map SnakeCase.to_snake_case (labels df)) (columns df)) as [Hc Hd].
  { unfold labels. by rewrite !length_map. }
  split; [exact Hc|]. split; [exact Hd|]. split.
  - unfold df'. rewrite labels_standardize. apply Forall2_fmap_l, Forall_Forall2_diag.
    apply Forall_forall. intros n _. split.
    + apply to_snake_case_all_ident.
    + apply length_to_snake_case.
  - intros Hall. unfold df', standardize_columns. simpl.
    replace (map SnakeCase.to_snake_case (labels df)) with (labels df).
    + apply set_labels_same.
    + symmetry. apply map_fix_elem. intros n Hn.
      apply to_snake_case_fixed. by eapply Forall_forall in Hall.
Qed.

Lemma fix_column_step `{Libraries} (i : list Z) (pre post : list Column) (c : Column)
    (self : DataCleaner) :
  NoDup (map col_name (pre ++ c :: post)) →
  fix_column (col_name c) ({| index := i; columns := pre ++ c :: post |}, self)
  = Ok ({| index := i; columns := pre ++ type_fixed c :: post |},
        log (type_entry (col_name c)) self).
Proof.
  intros Hnd. unfold fix_column. rewrite (getitem_mid i pre post c Hnd), bind_Ok.
  unfold type_fixed, type_entry.
  destruct (col_dtype c) eqn:Hdt; simpl; try (by destruct c; simpl in *; subst).
  by rewrite (setitem_mid i pre post c _ _ Hnd).
Qed.

Lemma foldl_logs {A} (entry : A → string) (l : list A) (self : DataCleaner) :
  foldl (λ t c, log (entry c) t) self l = logs (map entry l) self.
Proof.
  unfold logs. revert self. induction l as [|x l IH]; intros self; simpl; [done|].
  apply IH.
Qed.

(** X6: on a frame with unique labels [fix_data_types] never raises and
    touches object columns only: the row index, the labels and their
    order are kept, a column of dtype int64 or float64 is returned as it
    is, and an object column holds what [pd.to_numeric] returns for it. *)
Theorem fix_data_types_object_only `{Libraries} (self : DataCleaner) (df : DataFrame) :
  unique_labels df →
  fix_data_types self df
  = Ok ({| index := index df; columns := map type_fixed (columns df) |},
        logs (map type_entry (labels df)) self) ∧
  labels {| index := index df; columns := map type_fixed (columns df) |} = labels df ∧
  ∀ c, c ∈ columns df ∧ is_numeric (col_dtype c) = true → type_fixed c = c.
Proof.
  intros Hnd. split; [|split].
  - destruct df as [i cs]. unfold fix_data_types, labels. simpl.
    pose proof (column_loop (λ df self, (df, self)) fix_column (λ _, true)
                  type_fixed (λ c self, log (type_entry (col_name c)) self)
                  (λ _, True) (λ _, True)) as Hloop.
    specialize (Hloop ltac:(by intros c; unfold type_fixed; destruct (is_object _))
                      ltac:(done)).
    specialize (Hloop ltac:(by intros; apply fix_column_step)).
    specialize (Hloop cs [] i self Hnd ltac:(by apply Forall_forall) I).
    rewrite filter_all in Hloop by done. cbn [app] in Hloop.
    rewrite Hloop. rewrite (foldl_logs (λ c, type_entry (col_name c))).
    by rewrite <- list_fmap_compose.
  - unfold labels. simpl. rewrite <- list_fmap_compose. apply list_fmap_ext.
    intros k c _. simpl. unfold type_fixed. by destruct (is_object _).
  - intros c [_ Hnum]. unfold type_fixed. by destruct (col_dtype c).
Qed.

(** The theorem on the frame of the repository's test. *)
Lemma fix_data_types_object_only_witness :
  unique_labels duplicate_frame ∧
  fix_data_types (H := sample_libraries) default_cleaner duplicate_frame
  = Ok ({| index := index duplicate_frame;
           columns := map (type_fixed (H := sample_libraries)) (columns duplicate_frame) |},
        logs (map type_entry (labels duplicate_frame)) default_cleaner).
Proof.
  assert (unique_labels duplicate_frame) as Hnd.
  { apply (bool_decide_unpack _). vm_compute. exact I. }
  split; [exact Hnd|].
  exact (proj1 (fix_data_types_object_only (H := sample_libraries) default_cleaner
                  duplicate_frame Hnd)).
Defined.

(** ** Missing values, strategy "drop" *)

Lemma find_label_fmap (f : Column → Column) (cs : list Column) (col : string) :
  (∀ c, col_name (f c) = col_name c) →
  List.find (λ c, String.eqb (col_name c) col) (map f cs)
    = f <$> List.find (λ c, String.eqb (col_name c) col) cs.
Proof.
  intros Hf. induction cs as [|c cs IH]; simpl; [done|].
  rewrite Hf. by destruct (String.eqb (col_name c) col).
Qed.

Lemma getitem_select_rows (mask : list bool) (df : DataFrame) (c : Column) :
  unique_labels df → c ∈ columns df →
  getitem (select_rows mask df) (col_name c)
  = Ok (with_cells c (mask_select mask (cells c))).
Proof.
  intros Hnd Hc. unfold getitem, select_rows. simpl.
  rewrite find_label_fmap by done. by rewrite (find_label_elem _ c Hnd Hc).
Qed.

Lemma mask_select_compose {A B} (p : A → bool) (m : list bool) (l : list A) (l' : list B) :
  mask_select (map p (mask_select m l)) (mask_select m l')
  = mask_select (zip_with andb m (map p l)) l'.
Proof.
  assert (∀ (C : Type) (k : list bool), mask_select k (@nil C) = []) as Hnil
    by (by intros C [|? ?]).
  revert l l'. induction m as [|b m IH]; intros l l'; [done|].
  destruct l' as [|y l'].
  { rewrite (Hnil B (b :: m)). by rewrite !Hnil. }
  destruct l as [|x l]; [done|].
  cbn [mask_select map zip_with]. destruct b; cbn [andb].
  - cbn [map mask_select]. destruct (p x); by rewrite IH.
  - apply IH.
Qed.

Lemma select_rows_compose (p : cell → bool) (m : list bool) (l : list cell)
    (df : DataFrame) :
  select_rows (map p (mask_select m l)) (select_rows m df)
  = select_rows (zip_with andb m (map p l)) df.
Proof.
  unfold select_rows. simpl. f_equal; [apply mask_select_compose|].
  rewrite <- list_fmap_compose. apply list_fmap_ext. intros k c _. simpl.
  unfold with_cells. simpl. f_equal. apply mask_select_compose.
Qed.

Lemma complete_mask_snoc (pre : list Column) (c : Column) (n : nat) :
  length (cells c) = n →
  complete_mask (pre ++ [c]) n = zip_with andb (complete_mask pre n) (map notna (cells c)).
Proof.
  intros Hlen. unfold complete_mask.
  rewrite <- (map_nth_seq None (cells c)) at 1. rewrite Hlen.
  rewrite <- list_fmap_compose.
  generalize (seq 0 n). intros l. induction l as [|i l IH]; simpl; [done|].
  rewrite IH. f_equal. rewrite forallb_app. simpl. by rewrite andb_true_r.
Qed.

Lemma zip_with_andb_same (m q : list bool) :
  length q = length m →
  (∀ i, m !! i = Some true → q !! i = Some true) → zip_with andb m q = m.
Proof.
  revert q. induction m as [|b m IH]; intros [|x q] Hlen Himp; simpl in *; try done.
  f_equal.
  - destruct b; [|done]. specialize (Himp 0%nat eq_refl). simpl in Himp. by injection Himp as ->.
  - apply IH; [lia|]. intros i Hi. apply (Himp (S i) Hi).
Qed.

Lemma mask_select_lookup {A} (m : list bool) (l : list A) (i : nat) (x : A) :
  m !! i = Some true → l !! i = Some x → x ∈ mask_select m l.
Proof.
  revert l i. induction m as [|b m IH]; intros [|y l] [|i] Hm Hl; simpl in *; try done.
  - injection Hm as ->. injection Hl as ->. by left.
  - destruct b; [right|]; by eapply IH.
Qed.

Lemma mask_select_elem {A} (m : list bool) (l : list A) (x : A) :
  x ∈ mask_select m l → ∃ i, m !! i = Some true ∧ l !! i = Some x.
Proof.
  revert l. induction m as [|b m IH]; intros [|y l] Hx; simpl in *;
    try (by apply elem_of_nil in Hx).
  destruct b.
  - apply elem_of_cons in Hx as [->|Hx]; [by exists 0%nat|].
    destruct (IH l Hx) as (i & Hm & Hl). by exists (S i).
  - destruct (IH l Hx) as (i & Hm & Hl). by exists (S i).
Qed.

Lemma length_complete_mask (cs : list Column) (n : nat) : length (complete_mask cs n) = n.
Proof. unfold complete_mask. by rewrite length_map, length_seq. Qed.

Lemma drop_column_step (i : list Z) (all pre : list Column) (c : Column)
    (self : DataCleaner) :
  NoDup (map col_name all) → c ∈ all → length (cells c) = length i →
  ∃ self',
    handle_missing_column (col_name c)
      (select_rows (complete_mask pre (length i)) {| index := i; columns := all |},
       "drop", self)
    = Ok (select_rows (complete_mask (pre ++ [c]) (length i))
                      {| index := i; columns := all |}, "drop", self') ∧
    (self' = self ∨ self' = log (missing_entry "drop" c) self).
Proof.
  intros Hnd Hc Hlen. unfold handle_missing_column.
  rewrite getitem_select_rows by done. rewrite bind_Ok.
  set (m := complete_mask pre (length i)).
  rewrite (complete_mask_snoc pre c (length i) Hlen). fold m.
  cbn [cells with_cells col_dtype col_name].
  destruct (0 <? count_true (map isna (mask_select m (cells c))))%nat eqn:Htest.
  - exists (log (missing_entry "drop" c) self). split; [|by right].
    change (String.eqb "drop" "auto") with false. cbn iota. rewrite bind_Ok.
    unfold apply_strategy. simpl String.eqb. cbn iota.
    cbn [cells with_cells]. rewrite bind_Ok.
    by rewrite select_rows_compose.
  - exists self. split; [|by left].
    assert (zip_with andb m (map notna (cells c)) = m) as ->; [|done].
    apply zip_with_andb_same.
    { unfold m. by rewrite length_map, length_complete_mask. }
    intros k Hk. rewrite list_lookup_fmap.
    destruct (cells c !! k) as [x|] eqn:Hx.
    + simpl. f_equal. destruct x as [v|]; [done|]. exfalso.
      assert (None ∈ mask_select m (cells c)) as Hin
        by (by eapply mask_select_lookup).
      assert (missing_test (with_cells c (mask_select m (cells c))) = true) as Ht
        by (by apply missing_test_spec).
      unfold missing_test in Ht. simpl in Ht. congruence.
    + apply lookup_lt_Some in Hk. apply lookup_ge_None in Hx.
      unfold m in Hk. rewrite length_complete_mask in Hk. lia.
Qed.

Lemma drop_strategy_loop (i : list Z) (all : list Column) (todo pre : list Column)
    (self : DataCleaner) :
  NoDup (map col_name all) → all = pre ++ todo →
  Forall (λ c, length (cells c) = length i) all →
  ∃ logged,
    for_each handle_missing_column (map col_name todo)
      (select_rows (complete_mask pre (length i)) {| index := i; columns := all |},
       "drop", self)
    = Ok (select_rows (complete_mask all (length i)) {| index := i; columns := all |},
          "drop", logs (map (missing_entry "drop") logged) self) ∧
    logged `sublist_of` todo.
Proof.
  intros Hnd. revert pre self. induction todo as [|c todo IH]; intros pre self Hall Hal.
  - exists []. rewrite app_nil_r in Hall. subst. by split.
  - assert (c ∈ all) as Hc by (rewrite Hall; apply elem_of_app; right; by left).
    destruct (drop_column_step i all pre c self Hnd Hc) as (self1 & Hstep & Hself).
    { by eapply Forall_forall in Hal. }
    destruct (IH (pre ++ [c]) self1) as (logged & Hrun & Hsub);
      [by rewrite <- app_assoc|done|].
    cbn [map]. erewrite for_each_cons by exact Hstep. rewrite Hrun.
    destruct Hself as [->| ->].
    + exists logged. split; [done|]. by apply sublist_cons.
    + exists (c :: logged). split; [done|]. by apply sublist_skip.
Qed.

Lemma complete_mask_nil (n : nat) : Forall (λ b, b = true) (complete_mask [] n).
Proof. unfold complete_mask. apply Forall_fmap, Forall_forall. by intros. Qed.

Lemma select_rows_all (mask : list bool) (df : DataFrame) :
  aligned df → Forall (λ b, b = true) mask → length mask = nrows df →
  select_rows mask df = df.
Proof.
  intros Hal Hall Hlen. destruct df as [i cs]. unfold select_rows, nrows in *.
  simpl in *. f_equal.
  - apply mask_select_all; [done|lia].
  - apply map_fix_elem. intros c Hc.
    eapply Forall_forall in Hal; [|exact Hc]. unfold nrows in Hal. simpl in Hal.
    unfold with_cells. rewrite mask_select_all by (done || lia). by destruct c.
Qed.

(** X7: on an aligned frame with unique labels, strategy "drop" returns
    exactly the rows that have no missing cell in any column, in their
    order and under their labels; no column of the result has a missing
    cell, and the log gains one entry for some of the columns, in column
    order. *)
Theorem drop_strategy_complete_rows (self : DataCleaner) (df : DataFrame) :
  unique_labels df → aligned df →
  let df' := select_rows (complete_mask (columns df) (nrows df)) df in
  (∃ logged, handle_missing_values self df "drop"
             = Ok (df', logs (map (missing_entry "drop") logged) self) ∧
             logged `sublist_of` columns df) ∧
  Forall (λ c, ¬ has_missing c) (columns df') ∧
  labels df' = labels df ∧ (nrows df' ≤ nrows df)%nat.
Proof.
  intros Hnd Hal df'. split; [|split; [|split]].
  - destruct df as [i cs]. unfold handle_missing_values, labels.
    cbn [columns index].
    destruct (drop_strategy_loop i cs cs [] self Hnd eq_refl Hal)
      as (logged & Hrun & Hsub).
    rewrite (select_rows_all (complete_mask [] (length i))) in Hrun;
      [|done|apply complete_mask_nil|by rewrite length_complete_mask].
    exists logged. split; [|done]. by rewrite Hrun.
  - unfold df'. simpl. apply Forall_fmap, Forall_forall. intros c Hc. simpl.
    unfold has_missing. simpl.
    intros (k & Hm & Hk)%mask_select_elem.
    unfold complete_mask in Hm. rewrite list_lookup_fmap in Hm.
    destruct (seq 0 (nrows df) !! k) as [k'|] eqn:Hseq; [|done].
    apply lookup_seq in Hseq as [-> _]. simpl in Hm. injection Hm as Hm.
    rewrite forallb_forall in Hm. apply list_elem_of_In in Hc.
    specialize (Hm c Hc). rewrite nth_lookup, Hk in Hm. done.
  - apply select_rows_shape.
  - unfold df', nrows. simpl. apply length_mask_select_le.
Qed.

(** The theorem on [gaps_frame]: of its three rows the first alone has
    no missing cell. *)
Lemma drop_strategy_complete_rows_witness :
  unique_labels gaps_frame ∧ aligned gaps_frame ∧
  ∃ logged, handle_missing_values default_cleaner gaps_frame "drop"
            = Ok ({| index := [0]%Z;
                     columns := [ {| col_name := "a"; col_dtype := Float64;
                                     cells := [Some (Num (Fin 1))] |};
                                  {| col_name := "b"; col_dtype := Object;
                                     cells := [Some (Str "x")] |} ] |},
                  logs (map (missing_entry "drop") logged) default_cleaner) ∧
            logged `sublist_of` columns gaps_frame.
Proof.
  assert (unique_labels gaps_frame) as Hnd.
  { apply (bool_decide_unpack _). vm_compute. exact I. }
  assert (aligned gaps_frame) as Hal by (repeat constructor).
  split; [exact Hnd|]. split; [exact Hal|].
  exact (proj1 (drop_strategy_complete_rows default_cleaner gaps_frame Hnd Hal)).
Defined.

(** ** Missing values, strategy "mode" *)

Lemma foldr_max_in (l : list nat) : l ≠ [] → foldr Nat.max 0%nat l ∈ l.
Proof.
  induction l as [|x l IH]; [done|]. intros _. simpl.
  destruct l as [|y l]; [simpl; rewrite Nat.max_0_r; by left|].
  specialize (IH ltac:(done)).
  destruct (Nat.max_spec x (foldr Nat.max 0%nat (y :: l))) as [[_ ->]|[_ ->]];
    [by right|by left].
Qed.

Lemma unique_from_sub {A} (eqb : A → A → bool) (seen l : list A) (x : A) :
  x ∈ unique_from eqb seen l → x ∈ l.
Proof.
  revert seen. induction l as [|y l IH]; intros seen; simpl; [done|].
  destruct (existsb (eqb y) seen).
  - intros Hx. right. by eapply IH.
  - intros [->|Hx]%elem_of_cons; [by left|right; by eapply IH].
Qed.

Lemma unique_nonempty {A} (eqb : A → A → bool) (l : list A) :
  l ≠ [] → unique eqb l ≠ [].
Proof. by destruct l. Qed.

(** [mode()[0]] exists on a column that holds a value, and is one of its
    values. *)
Lemma mode0_value (l : list cell) :
  (∃ v, Some v ∈ l) → ∃ v, mode0 l = Ok v ∧ Some v ∈ l.
Proof.
  intros [v0 Hv0]. unfold mode0, mode.
  set (vs := omap id l). set (us := unique value_eqb vs).
  set (best := foldr Nat.max 0%nat (map (λ u, count_of u vs) us)).
  set (F := List.filter (λ u, (count_of u vs =? best)%nat) us).
  assert (vs ≠ []) as Hvs.
  { intros Hnil. assert (v0 ∈ vs) as Hin.
    { apply list_elem_of_omap. by exists (Some v0). }
    rewrite Hnil in Hin. by apply elem_of_nil in Hin. }
  assert (∃ u, u ∈ F) as [u Hu].
  { assert (best ∈ map (λ u, count_of u vs) us) as Hbest.
    { apply foldr_max_in. intros Hnil%fmap_nil_inv.
      by apply (unique_nonempty value_eqb vs). }
    apply list_elem_of_fmap in Hbest as (u & Hbest & Hin). exists u.
    unfold F. apply list_elem_of_In, filter_In. split; [by apply list_elem_of_In|].
    by apply Nat.eqb_eq. }
  assert (∀ w, w ∈ sort_modes F → Some w ∈ l) as Hsub.
  { intros w Hw.
    assert (w ∈ F) as HwF.
    { unfold sort_modes in Hw. destruct (_ || _); [by apply sort_by_elem in Hw|done]. }
    unfold F in HwF. apply list_elem_of_In, filter_In in HwF as [HwF%list_elem_of_In _].
    apply unique_from_sub in HwF.
    apply list_elem_of_omap in HwF as (x & Hx & Hxw). simpl in Hxw. by subst. }
  assert (u ∈ sort_modes F) as Hus.
  { unfold sort_modes. destruct (_ || _); [by apply sort_by_elem|done]. }
  destruct (sort_modes F) as [|w rest]; [by apply elem_of_nil in Hus|].
  exists w. split; [done|]. apply Hsub. by left.
Qed.

Lemma mode0_all_missing (l : list cell) :
  Forall (λ x, x = None) l → mode0 l = Raise KeyError.
Proof.
  intros Hall. unfold mode0, mode.
  assert (omap id l = []) as ->; [|done].
  induction Hall as [|x l -> _ IH]; [done|]. exact IH.
Qed.

Lemma mode_column_step (i : list Z) (pre post : list Column) (c : Column)
    (self : DataCleaner) :
  NoDup (map col_name (pre ++ c :: post)) →
  (missing_test c = true → has_value c) →
  handle_missing_column (col_name c)
    ({| index := i; columns := pre ++ c :: post |}, "mode", self)
  = Ok ({| index := i; columns := pre ++ mode_fill c :: post |}, "mode",
        if missing_test c then log (missing_entry "mode" c) self else self).
Proof.
  intros Hnd Hval. unfold handle_missing_column.
  rewrite (getitem_mid i pre post c Hnd), bind_Ok.
  unfold mode_fill. fold (missing_test c).
  destruct (missing_test c) eqn:Htest; [|by destruct c].
  change (String.eqb "mode" "auto") with false. cbn iota. rewrite bind_Ok.
  unfold apply_strategy. simpl String.eqb. cbn iota.
  destruct (mode0_value (cells c) (Hval eq_refl)) as (v & Hv & _).
  rewrite Hv, !bind_Ok. by rewrite (setitem_mid i pre post c _ _ Hnd).
Qed.

(** X8: on a frame with unique labels in which every column with a
    missing cell holds a value, strategy "mode" returns; in every such
    column no cell is missing afterwards, every cell that was not missing
    holds the value it held, and every cell of the result holds a value
    that the column held before. *)
Theorem mode_fills_with_present_value (self : DataCleaner) (df : DataFrame) :
  unique_labels df →
  Forall (λ c, has_missing c → has_value c) (columns df) →
  let df' := {| index := index df; columns := map mode_fill (columns df) |} in
  handle_missing_values self df "mode"
    = Ok (df', logs (map (missing_entry "mode")
                         (List.filter missing_test (columns df))) self) ∧
  ∀ c, c ∈ columns df ∧ has_missing c →
    ∃ c', getitem df' (col_name c) = Ok c' ∧
          ¬ has_missing c' ∧
          length (cells c') = length (cells c) ∧
          (∀ k x, cells c !! k = Some (Some x) → cells c' !! k = Some (Some x)) ∧
          Forall (λ x, x ∈ cells c) (cells c').
Proof.
  intros Hnd Hval df'.
  assert (∀ c, col_name (mode_fill c) = col_name c) as Hname.
  { intros c. unfold mode_fill. by destruct (missing_test c). }
  split.
  - destruct df as [i cs]. unfold handle_missing_values, labels, df'. cbn [columns index].
    pose proof (column_loop (λ df (t : string * DataCleaner), (df, t.1, t.2))
                  handle_missing_column (λ _, true) mode_fill
                  (λ c t, (t.1, if missing_test c
                                then log (missing_entry "mode" c) t.2 else t.2))
                  (λ c, missing_test c = true → has_value c)
                  (λ t, t.1 = "mode") Hname ltac:(done)) as Hloop.
    specialize (Hloop ltac:(by intros i0 pre post c [s t] Hn _ Hc [= ->];
                               apply mode_column_step)).
    specialize (Hloop cs [] i ("mode", self) Hnd).
    rewrite filter_all in Hloop by done. cbn [app fst snd] in Hloop.
    rewrite Hloop; [|by apply Forall_forall; intros c Hc _ Ht;
                      eapply Forall_forall in Hval; [apply Hval, missing_test_spec|]
                    |done].
    rewrite bind_Ok. cbn [fst snd].
    assert (∀ t : string * DataCleaner,
              (foldl (λ t c, (t.1, if missing_test c
                                   then log (missing_entry "mode" c) t.2 else t.2)) t cs).2
              = logs (map (missing_entry "mode") (List.filter missing_test cs)) t.2)
      as Hlog.
    { clear. induction cs as [|c cs IH]; intros t; [done|].
      cbn [foldl List.filter]. rewrite IH. cbn [snd]. by destruct (missing_test c). }
    f_equal. f_equal;
      first [exact (Hlog ("mode", self)) | done
            | f_equal; apply list_fmap_ext; by intros].
  - intros c [Hc Hmiss]. exists (mode_fill c).
    apply missing_test_spec in Hmiss as Htest.
    destruct (mode0_value (cells c)) as (v & Hv & Hin).
    { eapply Forall_forall in Hval; [|exact Hc]. by apply Hval. }
    split; [|split; [|split; [|split]]].
    + rewrite <- Hname. apply getitem_elem.
      * unfold unique_labels, labels, df'. simpl. rewrite <- list_fmap_compose.
        erewrite list_fmap_ext; [exact Hnd|]. intros k c0 _. simpl. apply Hname.
      * unfold df'. simpl. by apply list_elem_of_fmap_2.
    + unfold has_missing, mode_fill. rewrite Htest, Hv. simpl. apply fillna_no_missing.
    + unfold mode_fill. rewrite Htest, Hv. simpl. unfold fillna. by rewrite length_map.
    + intros k x Hk. unfold mode_fill. rewrite Htest, Hv. simpl.
      by apply fillna_lookup_present.
    + unfold mode_fill. rewrite Htest, Hv. simpl. unfold fillna.
      apply Forall_fmap, Forall_forall. intros x Hx. simpl. by destruct (isna x).
Qed.

(** The theorem on [gaps_frame]: "a" is filled with 1, "b" with "x". *)
Lemma mode_fills_with_present_value_witness :
  unique_labels gaps_frame ∧
  Forall (λ c, has_missing c → has_value c) (columns gaps_frame) ∧
  handle_missing_values default_cleaner gaps_frame "mode"
  = Ok ({| index := [0; 1; 2]%Z;
           columns := [ {| col_name := "a"; col_dtype := Float64;
                           cells := [Some (Num (Fin 1)); Some (Num (Fin 1));
                                     Some (Num (Fin 3))] |};
                        {| col_name := "b"; col_dtype := Object;
                           cells := [Some (Str "x"); Some (Str "y"); Some (Str "x")] |} ] |},
        logs ["Handled missing values in 'a' with mode";
              "Handled missing values in 'b' with mode"] default_cleaner).
Proof.
  assert (unique_labels gaps_frame) as Hnd.
  { apply (bool_decide_unpack _). vm_compute. exact I. }
  assert (Forall (λ c, has_missing c → has_value c) (columns gaps_frame)) as Hval.
  { apply Forall_cons_2; [intros _; eexists; by left|].
    apply Forall_cons_2; [intros _; eexists; by left|apply Forall_nil_2]. }
  split; [exact Hnd|]. split; [exact Hval|].
  exact (proj1 (mode_fills_with_present_value default_cleaner gaps_frame Hnd Hval)).
Defined.

(** X9: a column that is missing throughout has no mode: when the first
    column with a missing cell is such a column, the pass raises
    [KeyError] under strategy "mode", and under strategy "auto" when
    that column is an object column. *)
Theorem mode_of_empty_column_raises (self : DataCleaner) (df : DataFrame)
    (pre post : list Column) (c : Column) (strategy : string) :
  unique_labels df → columns df = pre ++ c :: post →
  Forall (λ c0, ¬ has_missing c0) pre →
  has_missing c → Forall (λ x, x = None) (cells c) →
  strategy = "mode" ∨ (strategy = "auto" ∧ col_dtype c = Object) →
  handle_missing_values self df strategy = Raise KeyError.
Proof.
  intros Hnd Hcols Hpre Hmiss Hall Hs.
  destruct df as [i cs]. simpl in Hcols. subst cs.
  unfold unique_labels, labels in Hnd. simpl in Hnd.
  unfold handle_missing_values, labels. cbn [columns].
  rewrite map_app, fmap_cons, for_each_app.
  rewrite skip_loop.
  2:{ intros x (c0 & -> & Hc0)%list_elem_of_fmap. exists c0. split.
      - apply getitem_elem; [exact Hnd|]. simpl. apply elem_of_app. by left.
      - eapply Forall_forall in Hpre; [|exact Hc0].
        apply not_true_iff_false. by intros ?%missing_test_spec. }
  rewrite bind_Ok. cbn [for_each].
  assert (handle_missing_column (col_name c)
            ({| index := i; columns := pre ++ c :: post |}, strategy, self)
          = Raise KeyError) as ->; [|done].
  unfold handle_missing_column. rewrite (getitem_mid i pre post c Hnd), bind_Ok.
  apply missing_test_spec in Hmiss. fold (missing_test c). rewrite Hmiss.
  destruct Hs as [->|[-> Hdt]].
  - change (String.eqb "mode" "auto") with false. cbn iota. rewrite bind_Ok.
    unfold apply_strategy. simpl String.eqb. cbn iota.
    by rewrite (mode0_all_missing _ Hall).
  - change (String.eqb "auto" "auto") with true. cbn iota.
    unfold auto_strategy. rewrite Hdt, bind_Ok.
    unfold apply_strategy. simpl String.eqb. cbn iota.
    by rewrite (mode0_all_missing _ Hall).
Qed.

(** The theorem on [empty_text_frame] under the default strategy. *)
Lemma mode_of_empty_column_raises_witness :
  unique_labels empty_text_frame ∧
  has_missing {| col_name := "t"; col_dtype := Object; cells := [None; None] |} ∧
  handle_missing_values default_cleaner empty_text_frame "auto" = Raise KeyError.
Proof.
  assert (unique_labels empty_text_frame) as Hnd.
  { apply (bool_decide_unpack _). vm_compute. exact I. }
  assert (has_missing {| col_name := "t"; col_dtype := Object; cells := [None; None] |})
    as Hmiss by (by left).
  split; [exact Hnd|]. split; [exact Hmiss|].
  apply (mode_of_empty_column_raises default_cleaner empty_text_frame
           [ {| col_name := "a"; col_dtype := Int64; cells := int_cells [1; 2]%Z |} ] []
           {| col_name := "t"; col_dtype := Object; cells := [None; None] |} "auto"
           Hnd eq_refl).
  - apply Forall_cons_2; [|apply Forall_nil_2].
    intros Hm%missing_test_spec. discriminate Hm.
  - exact Hmiss.
  - by repeat constructor.
  - right. by split.
Defined.

(** ** Scaling with a method the pass does not know *)

Lemma scale_column_unknown `{Libraries} (col : string) (df : DataFrame)
    (self : DataCleaner) :
  ¬ known_scale_method (scale_method self) →
  scale_column col (df, self)
  = if bool_decide (actions self = []) then Raise IndexError else Ok (df, self).
Proof.
  intros Hun. unfold scale_column.
  assert (String.eqb (scale_method self) "minmax" = false) as ->.
  { apply String.eqb_neq. intros Heq. apply Hun. by left. }
  assert (String.eqb (scale_method self) "standard" = false) as ->.
  { apply String.eqb_neq. intros Heq. apply Hun. by right. }
  rewrite bind_Ok. cbn [snd]. unfold log_last. by destruct (actions self).
Qed.

(** X10: with [scale_numeric] set and a [scale_method] that is neither
    "minmax" nor "standard", [scale_numeric_columns] scales nothing; it
    raises [IndexError] when the frame has a numeric column and the log
    of the engine is empty, and returns the frame and the engine as they
    are otherwise. *)
Theorem scale_unknown_method `{Libraries} (self : DataCleaner) (df : DataFrame) :
  scale_numeric self = true → ¬ known_scale_method (scale_method self) →
  scale_numeric_columns self df
  = if negb (bool_decide (numeric_labels df = [])) && bool_decide (actions self = [])
    then Raise IndexError else Ok (df, self).
Proof.
  intros Hon Hun. unfold scale_numeric_columns. rewrite Hon. cbn [negb].
  induction (numeric_labels df) as [|col l IH].
  { by rewrite (bool_decide_eq_true_2 ([] = [])). }
  cbn [for_each]. rewrite (scale_column_unknown col df self Hun).
  rewrite (bool_decide_eq_false_2 (col :: l = [])) by done. cbn [negb andb].
  destruct (bool_decide (actions self = [])) eqn:Hlog; [done|].
  rewrite bind_Ok, IH. by rewrite andb_false_r.
Qed.

(** The theorem on a fresh engine built with [scale_method='robust']. *)
Lemma scale_unknown_method_witness :
  scale_numeric (cleaner_with_scaling "robust") = true ∧
  ¬ known_scale_method (scale_method (cleaner_with_scaling "robust")) ∧
  scale_numeric_columns (H := sample_libraries) (cleaner_with_scaling "robust")
    outlier_frame = Raise IndexError.
Proof.
  assert (¬ known_scale_method (scale_method (cleaner_with_scaling "robust"))) as Hun.
  { by intros [Heq|Heq]. }
  split; [reflexivity|]. split; [exact Hun|].
  exact (scale_unknown_method (H := sample_libraries) (cleaner_with_scaling "robust")
           outlier_frame eq_refl Hun).
Defined.

(** ** Outliers: the actions "flag" and the unknown ones *)

Lemma iqr_column_handle (i : list Z) (pre post : list Column) (c : Column)
    (self : DataCleaner) :
  NoDup (map col_name (pre ++ c :: post)) → numbers_only c →
  iqr_column (col_name c) ({| index := i; columns := pre ++ c :: post |}, self)
  = _handle_outliers self {| index := i; columns := pre ++ c :: post |} (col_name c)
      (iqr_outliers c) (iqr_bounds (floats_of (cells c))).1
      (iqr_bounds (floats_of (cells c))).2.
Proof.
  intros Hnd Hnum. unfold iqr_column.
  rewrite (getitem_mid i pre post c Hnd), bind_Ok.
  rewrite (to_floats_numbers _ Hnum), bind_Ok. reflexivity.
Qed.

Lemma detect_outliers_iqr `{Libraries} (self : DataCleaner) (df : DataFrame) :
  outlier_method self = "iqr" →
  detect_outliers self df = for_each iqr_column (numeric_labels df) (df, self).
Proof.
  intros Hm. unfold detect_outliers. rewrite Hm.
  change (String.eqb "iqr" "iqr") with true. cbn iota.
  by destruct (numeric_labels df).
Qed.

Lemma flag_step (i : list Z) (pre post : list Column) (c : Column) (self : DataCleaner) :
  outlier_action self = "flag" →
  NoDup (map col_name (pre ++ c :: post)) → numbers_only c →
  iqr_column (col_name c) ({| index := i; columns := pre ++ c :: post |}, self)
  = Ok ({| index := i; columns := pre ++ c :: post |},
        if (0 <? count_true (iqr_outliers c))%nat then flag_column c self else self).
Proof.
  intros Hact Hnd Hnum. rewrite (iqr_column_handle i pre post c self Hnd Hnum).
  unfold _handle_outliers. destruct (0 <? count_true (iqr_outliers c))%nat; [|done].
  rewrite Hact. change (String.eqb "flag" "cap") with false.
  change (String.eqb "flag" "remove") with false.
  change (String.eqb "flag" "flag") with true. cbn iota.
  rewrite bind_Ok. cbn [snd]. by rewrite log_last_log.
Qed.

Lemma flags_elsewhere (l : list Column) (self : DataCleaner) (col : string) :
  col ∉ map col_name l →
  outlier_flags (foldl (λ t c, flag_column c t) self l) !! col = outlier_flags self !! col.
Proof.
  revert self. induction l as [|c l IH]; intros self Hnot; [done|].
  cbn [foldl]. rewrite IH.
  - simpl. apply lookup_insert_ne. intros Heq. apply Hnot. rewrite <- Heq. by left.
  - intros Hin. apply Hnot. by right.
Qed.

Lemma flags_recorded (l : list Column) (self : DataCleaner) (c : Column) :
  NoDup (map col_name l) → c ∈ l →
  outlier_flags (foldl (λ t c, flag_column c t) self l) !! col_name c
  = Some (iqr_outliers c).
Proof.
  revert self. induction l as [|c0 l IH]; intros self Hnd Hin.
  - by apply elem_of_nil in Hin.
  - cbn [map] in Hnd. apply NoDup_cons in Hnd as [Hc0 Hnd]. cbn [foldl].
    destruct (decide (col_name c = col_name c0)) as [Heq|Hne].
    + assert (c = c0) as ->.
      { apply elem_of_cons in Hin as [->|Hin]; [done|].
        exfalso. apply Hc0. rewrite <- Heq. by apply list_elem_of_fmap_2. }
      rewrite flags_elsewhere by done. simpl. apply lookup_insert_eq.
    + apply elem_of_cons in Hin as [->|Hin]; [done|]. by apply IH.
Qed.

Lemma flags_logged (l : list Column) (self : DataCleaner) :
  actions (foldl (λ t c, flag_column c t) self l) = actions self ++ map flag_entry l.
Proof.
  revert self. induction l as [|c l IH]; intros self; cbn [foldl map].
  - by rewrite app_nil_r.
  - rewrite IH. simpl. by rewrite <- app_assoc.
Qed.

Lemma nodup_filter_names (f : Column → bool) (l : list Column) :
  NoDup (map col_name l) → NoDup (map col_name (List.filter f l)).
Proof.
  induction l as [|c l IH]; [done|]. cbn [map List.filter].
  intros [Hc Hnd]%NoDup_cons. destruct (f c); [|by apply IH].
  cbn [map]. apply NoDup_cons. split; [|by apply IH].
  intros (c' & Heq & Hin)%list_elem_of_fmap. apply Hc. rewrite Heq.
  apply list_elem_of_fmap_2. apply list_elem_of_In in Hin.
  apply filter_In in Hin as [Hin _]. by apply list_elem_of_In.
Qed.

(** The action "flag" in the exact arithmetic of [iqr_bounds]: the
    columns flagged are those with an entry outside these fences. *)
Lemma flag_exact `{Libraries} (self : DataCleaner) (df : DataFrame) :
  outlier_method self = "iqr" → outlier_action self = "flag" →
  unique_labels df → well_typed df →
  let flagged := List.filter has_outliers (columns df) in
  let self' := foldl (λ t c, flag_column c t) self flagged in
  detect_outliers self df = Ok (df, self') ∧
  (∀ c, c ∈ columns df ∧ has_outliers c = true →
     outlier_flags self' !! col_name c = Some (iqr_outliers c) ∧
     length (iqr_outliers c) = length (cells c)) ∧
  (∀ col, col ∉ map col_name flagged →
     outlier_flags self' !! col = outlier_flags self !! col) ∧
  actions self' = actions self ++ map flag_entry flagged.
Proof.
  intros Hm Hact Hnd Hty flagged self'. split; [|split; [|split]].
  - rewrite (detect_outliers_iqr self df Hm). destruct df as [i cs].
    unfold numeric_labels. cbn [columns].
    pose proof (column_loop (λ df (t : DataCleaner), (df, t)) iqr_column
                  (λ c, is_numeric (col_dtype c)) (λ c, c)
                  (λ c t, if (0 <? count_true (iqr_outliers c))%nat
                          then flag_column c t else t)
                  numbers_only (λ t, outlier_action t = "flag")
                  ltac:(done)) as Hloop.
    specialize (Hloop ltac:(by intros c t Ht; cbn beta; case_match)).
    specialize (Hloop ltac:(by intros i0 pre post c t Hn _ Hc Ht; apply flag_step)).
    specialize (Hloop cs [] i self Hnd Hty Hact). cbn [app] in Hloop.
    rewrite Hloop. f_equal. f_equal.
    + f_equal. apply map_fix_elem. intros c _. by destruct (is_numeric _).
    + unfold self', flagged. cbn [columns]. clear. generalize self.
      induction cs as [|c cs IH]; intros t; [done|].
      cbn [List.filter]. unfold has_outliers at 1.
      destruct (is_numeric (col_dtype c)); cbn [andb foldl]; [|apply IH].
      destruct (0 <? count_true (iqr_outliers c))%nat; cbn [foldl]; apply IH.
  - intros c [Hc Hout]. split.
    + apply flags_recorded; [by apply nodup_filter_names|].
      apply list_elem_of_In, filter_In. split; [by apply list_elem_of_In|done].
    + unfold iqr_outliers, floats_of. by rewrite !length_map.
  - intros col Hcol. by apply flags_elsewhere.
  - apply flags_logged.
Qed.

Lemma foldl_flag_mask (l : list Column) (self : DataCleaner) :
  foldl flag_mask self (map (λ c, (c, iqr_outliers c)) l)
  = foldl (λ t c, flag_column c t) self l.
Proof.
  revert self. induction l as [|c l IH]; intros self; [done|].
  cbn [map foldl]. apply IH.
Qed.

Lemma filter_and_sublist {A} (f g : A → bool) (l : list A) :
  List.filter (λ x, f x && g x) l `sublist_of` List.filter f l.
Proof.
  induction l as [|x l IH]; [done|]. cbn [List.filter].
  destruct (f x); cbn [andb]; [|done].
  destruct (g x); [by apply sublist_skip|by apply sublist_cons].
Qed.

Lemma iqr_outliers_mask (c : Column) :
  has_outliers c = true → outlier_mask c (iqr_outliers c).
Proof.
  intros [_ Hpos%Nat.ltb_lt]%andb_true_iff. split; [|split; [exact Hpos|]].
  - unfold iqr_outliers, floats_of. by rewrite !length_map.
  - intros i Hi. unfold iqr_outliers, floats_of.
    rewrite !list_lookup_fmap, Hi. cbn [fmap option_fmap option_map].
    unfold fgt, flt. by destruct (iqr_bounds _).2.
Qed.

(** X11: with the method "iqr" and the action "flag", on a frame with
    unique labels whose numeric columns hold numbers, [detect_outliers]
    returns the frame as it is; the engine it returns is the given one
    after, for some of the numeric columns taken in the order of the
    frame, a mask is recorded under the label of the column and one
    "Flagged" entry with the count of the mask is logged.  Each mask has
    one flag per row of its column, at least one of them set and none at
    a missing cell; it is the mask found under the label afterwards, and
    the flags under the other labels are left as they were. *)
Theorem flag_records_masks `{Libraries} (self : DataCleaner) (df : DataFrame) :
  outlier_method self = "iqr" → outlier_action self = "flag" →
  unique_labels df → well_typed df →
  ∃ masks : list (Column * list bool),
    detect_outliers self df = Ok (df, foldl flag_mask self masks) ∧
    map fst masks `sublist_of` numeric_columns df ∧
    Forall (λ cm, outlier_mask cm.1 cm.2) masks ∧
    (∀ c m, (c, m) ∈ masks →
       outlier_flags (foldl flag_mask self masks) !! col_name c = Some m) ∧
    (∀ col, col ∉ map col_name (map fst masks) →
       outlier_flags (foldl flag_mask self masks) !! col = outlier_flags self !! col).
Proof.
  intros Hm Hact Hnd Hty.
  destruct (flag_exact self df Hm Hact Hnd Hty) as (Hrun & Hrec & Hother & _).
  cbn zeta in Hrun, Hrec, Hother.
  set (flagged := List.filter has_outliers (columns df)) in *.
  exists (map (λ c, (c, iqr_outliers c)) flagged).
  assert (map fst (map (λ c, (c, iqr_outliers c)) flagged) = flagged) as Hfst.
  { rewrite <- list_fmap_compose. apply map_fix_elem. by intros c _. }
  rewrite Hfst, foldl_flag_mask.
  split; [exact Hrun|]. split; [|split; [|split]].
  - apply filter_and_sublist.
  - apply Forall_forall. intros cm (c & -> & Hc)%list_elem_of_fmap. cbn [fst snd].
    apply iqr_outliers_mask.
    apply list_elem_of_In, filter_In in Hc. by destruct Hc.
  - intros c m (c0 & Heq & Hc)%list_elem_of_fmap. injection Heq as -> ->.
    apply list_elem_of_In, filter_In in Hc as [Hc Hout].
    apply (Hrec c0). split; [by apply list_elem_of_In|done].
  - exact Hother.
Qed.

(** The theorem on the frame of the outlier example, with
    [DataCleaner(outlier_action='flag')]. *)
Lemma flag_records_masks_witness :
  outlier_method (cleaner_with_action "flag") = "iqr" ∧
  outlier_action (cleaner_with_action "flag") = "flag" ∧
  unique_labels outlier_frame ∧ well_typed outlier_frame ∧
  ∃ masks : list (Column * list bool),
    detect_outliers (H := sample_libraries) (cleaner_with_action "flag") outlier_frame
    = Ok (outlier_frame, foldl flag_mask (cleaner_with_action "flag") masks) ∧
    map fst masks `sublist_of` numeric_columns outlier_frame ∧
    Forall (λ cm, outlier_mask cm.1 cm.2) masks.
Proof.
  assert (unique_labels outlier_frame) as Hnd.
  { apply (bool_decide_unpack _). vm_compute. exact I. }
  assert (well_typed outlier_frame) as Hty.
  { apply Forall_cons_2; [|apply Forall_nil_2]. intros _.
    unfold numbers_only. simpl. by repeat constructor. }
  split; [reflexivity|]. split; [reflexivity|]. split; [exact Hnd|]. split; [exact Hty|].
  destruct (flag_records_masks (H := sample_libraries) (cleaner_with_action "flag")
              outlier_frame eq_refl eq_refl Hnd Hty) as (masks & Hrun & Hsub & Hall & _).
  exists masks. split; [exact Hrun|]. split; [exact Hsub|exact Hall].
Defined.

Lemma unknown_action_step (i : list Z) (pre post : list Column) (c : Column)
    (self : DataCleaner) :
  ¬ known_action (outlier_action self) →
  NoDup (map col_name (pre ++ c :: post)) → numbers_only c →
  iqr_column (col_name c) ({| index := i; columns := pre ++ c :: post |}, self)
  = if (0 <? count_true (iqr_outliers c))%nat && bool_decide (actions self = [])
    then Raise IndexError
    else Ok ({| index := i; columns := pre ++ c :: post |}, self).
Proof.
  intros Hun Hnd Hnum. rewrite (iqr_column_handle i pre post c self Hnd Hnum).
  unfold _handle_outliers. destruct (0 <? count_true (iqr_outliers c))%nat; [|done].
  assert (String.eqb (outlier_action self) "cap" = false) as ->.
  { apply String.eqb_neq. intros Heq. apply Hun. by left. }
  assert (String.eqb (outlier_action self) "remove" = false) as ->.
  { apply String.eqb_neq. intros Heq. apply Hun. right. by left. }
  assert (String.eqb (outlier_action self) "flag" = false) as ->.
  { apply String.eqb_neq. intros Heq. apply Hun. right. by right. }
  rewrite bind_Ok. cbn [snd andb]. unfold log_last. by destruct (actions self).
Qed.

Lemma unknown_action_loop (todo pre : list Column) (i : list Z) (self : DataCleaner) :
  ¬ known_action (outlier_action self) →
  NoDup (map col_name (pre ++ todo)) →
  Forall (λ c, is_numeric (col_dtype c) = true → numbers_only c) todo →
  for_each iqr_column
           (map col_name (List.filter (λ c, is_numeric (col_dtype c)) todo))
           ({| index := i; columns := pre ++ todo |}, self)
  = if existsb has_outliers todo && bool_decide (actions self = [])
    then Raise IndexError
    else Ok ({| index := i; columns := pre ++ todo |}, self).
Proof.
  intros Hun. revert pre. induction todo as [|c todo IH]; intros pre Hnd Hty; [done|].
  apply Forall_cons in Hty as [Hc Hty]. cbn [List.filter existsb].
  unfold has_outliers at 1.
  assert (NoDup (map col_name ((pre ++ [c]) ++ todo))) as Hnd'
    by (by rewrite <- app_assoc).
  specialize (IH (pre ++ [c]) Hnd' Hty). rewrite <- app_assoc in IH. cbn [app] in IH.
  destruct (is_numeric (col_dtype c)) eqn:Hnum; cbn [andb orb]; [|exact IH].
  cbn [map for_each]. rewrite (unknown_action_step i pre todo c self Hun Hnd (Hc eq_refl)).
  destruct (0 <? count_true (iqr_outliers c))%nat; cbn [andb orb].
  - destruct (bool_decide (actions self = [])); [done|].
    rewrite bind_Ok, IH. by rewrite andb_false_r.
  - rewrite bind_Ok. exact IH.
Qed.

(** X12: with the method "iqr" and an action that is none of "cap",
    "remove" and "flag", [detect_outliers] changes nothing: on a frame
    with unique labels whose numeric columns hold numbers it either
    returns the frame and the engine as they are, or raises [IndexError];
    it raises only when the log of the engine is empty and the frame has
    a numeric column. *)
Theorem unknown_outlier_action `{Libraries} (self : DataCleaner) (df : DataFrame) :
  outlier_method self = "iqr" → ¬ known_action (outlier_action self) →
  unique_labels df → well_typed df →
  detect_outliers self df = Ok (df, self) ∨
  (actions self = [] ∧ numeric_labels df ≠ [] ∧
   detect_outliers self df = Raise IndexError).
Proof.
  intros Hm Hun Hnd Hty. rewrite (detect_outliers_iqr self df Hm).
  destruct df as [i cs].
  pose proof (unknown_action_loop cs [] i self Hun Hnd Hty) as Hloop.
  cbn [app] in Hloop. unfold numeric_labels. cbn [columns]. rewrite Hloop.
  destruct (existsb has_outliers cs) eqn:Hex; cbn [andb]; [|by left].
  destruct (bool_decide (actions self = [])) eqn:Hlog; [|by left].
  right. split; [by apply bool_decide_eq_true_1 in Hlog|]. split; [|done].
  apply existsb_exists in Hex as (c & Hin & [Hnum _]%andb_true_iff).
  intros Hnil.
  assert (In (col_name c)
             (map col_name (List.filter (λ c, is_numeric (col_dtype c)) cs))) as Hc.
  { apply in_map, filter_In. by split. }
  rewrite Hnil in Hc. destruct Hc.
Qed.

(** The theorem on the frame of the outlier example, with
    [DataCleaner(outlier_action='clip')]. *)
Lemma unknown_outlier_action_witness :
  outlier_method (cleaner_with_action "clip") = "iqr" ∧
  ¬ known_action (outlier_action (cleaner_with_action "clip")) ∧
  unique_labels outlier_frame ∧ well_typed outlier_frame ∧
  (detect_outliers (H := sample_libraries) (cleaner_with_action "clip") outlier_frame
   = Ok (outlier_frame, cleaner_with_action "clip") ∨
   (actions (cleaner_with_action "clip") = [] ∧ numeric_labels outlier_frame ≠ [] ∧
    detect_outliers (H := sample_libraries) (cleaner_with_action "clip") outlier_frame
    = Raise IndexError)).
Proof.
  assert (¬ known_action (outlier_action (cleaner_with_action "clip"))) as Hun.
  { by intros [Heq|[Heq|Heq]]. }
  assert (unique_labels outlier_frame) as Hnd.
  { apply (bool_decide_unpack _). vm_compute. exact I. }
  assert (well_typed outlier_frame) as Hty.
  { apply Forall_cons_2; [|apply Forall_nil_2]. intros _.
    unfold numbers_only. simpl. by repeat constructor. }
  split; [reflexivity|]. split; [exact Hun|]. split; [exact Hnd|]. split; [exact Hty|].
  exact (unknown_outlier_action (H := sample_libraries) (cleaner_with_action "clip")
           outlier_frame eq_refl Hun Hnd Hty).
Defined.

(** ** Dropping columns: a second run, and the extreme thresholds *)

Lemma threshold_logs (entries : list string) (self : DataCleaner) :
  nullity_threshold (logs entries self) = nullity_threshold self.
Proof.
  unfold logs. revert self. induction entries as [|e l IH]; intros self; [done|].
  cbn [foldl]. by rewrite IH.
Qed.

Lemma filter_sublist {A} (f : A → bool) (l : list A) : List.filter f l `sublist_of` l.
Proof.
  induction l as [|x l IH]; [done|]. cbn [List.filter].
  destruct (f x); [by apply sublist_skip|by apply sublist_cons].
Qed.

Lemma filter_elem {A} (f : A → bool) (l : list A) (x : A) :
  x ∈ List.filter f l ↔ x ∈ l ∧ f x = true.
Proof. by rewrite !list_elem_of_In, filter_In. Qed.

Lemma filter_none {A} (f : A → bool) (l : list A) :
  (∀ x, x ∈ l → f x = false) → List.filter f l = [].
Proof.
  induction l as [|x l IH]; simpl; intros Hall; [done|].
  rewrite (Hall x) by (by left). apply IH. intros y Hy. apply Hall. by right.
Qed.

(** X13: [drop_high_nullity_columns] is idempotent: on a frame with
    unique labels it returns, the row index is kept, the columns of the
    result are columns of the input in their order, and a second run on
    the result drops nothing and logs nothing. *)
Theorem drop_high_nullity_twice `{Libraries} (self : DataCleaner) (df : DataFrame) :
  unique_labels df →
  ∃ df' self',
    drop_high_nullity_columns self df = Ok (df', self') ∧
    drop_high_nullity_columns self' df' = Ok (df', self') ∧
    index df' = index df ∧
    columns df' `sublist_of` columns df.
Proof.
  intros Hnd. destruct df as [i cs]. unfold unique_labels, labels in Hnd. simpl in Hnd.
  set (t := nullity_threshold self).
  set (kept := List.filter (λ c, negb (high_nullity t c)) cs).
  assert (∀ c, c ∈ kept → high_nullity t c = false) as Hkept.
  { intros c [_ Hc]%filter_elem. by apply negb_true_iff. }
  exists {| index := i; columns := kept |},
         (logs (map drop_entry (List.filter (high_nullity t) cs)) self).
  split; [|split; [|split]].
  - unfold drop_high_nullity_columns, labels. cbn [columns].
    exact (drop_loop cs [] i self Hnd).
  - unfold drop_high_nullity_columns, labels. cbn [columns].
    rewrite (drop_loop kept [] i _) by (by apply nodup_filter_names).
    rewrite threshold_logs. fold t. cbn [app].
    rewrite filter_all by (by intros c Hc; rewrite (Hkept c Hc)).
    by rewrite (filter_none (high_nullity t) kept Hkept).
  - done.
  - apply filter_sublist.
Qed.

(** The null fraction of a column is at most 1. *)
Lemma nullity_at_most_one (t : Q) (c : Column) :
  (1 <= t)%Q → high_nullity t c = false.
Proof.
  intros Ht. apply not_true_iff_false. intros [Hlen Hlt]%high_nullity_exceeds.
  assert (null_count c ≤ length (cells c))%nat as Hk by apply List.filter_length_le.
  apply (Qlt_not_le _ _ Hlt). eapply Qle_trans; [|exact Ht].
  apply Qle_shift_div_r.
  - unfold Qlt. simpl. lia.
  - rewrite Qmult_1_l. unfold Qle. simpl. lia.
Qed.

(** X14: a threshold of 1 or more switches the pass off: on a frame
    with unique labels nothing is dropped, not even a column that is
    missing throughout, nothing is logged and nothing is raised. *)
Theorem threshold_one_keeps_all `{Libraries} (self : DataCleaner) (df : DataFrame) :
  (1 <= nullity_threshold self)%Q → unique_labels df →
  drop_high_nullity_columns self df = Ok (df, self).
Proof.
  intros Ht _. unfold drop_high_nullity_columns.
  assert (∀ l, (∀ x, x ∈ l → x ∈ labels df) →
               for_each drop_if_high l (df, self) = Ok (df, self)) as Hloop.
  { induction l as [|x l IH]; intros Hl; [done|].
    destruct (getitem_label df x) as [c Hc]; [apply Hl; by left|].
    pose proof (getitem_Ok_elem _ _ _ Hc) as [_ Hname]. subst x.
    erewrite for_each_cons by (by apply drop_if_high_step).
    rewrite (nullity_at_most_one _ c Ht). apply IH. intros y Hy. apply Hl. by right. }
  by apply Hloop.
Qed.

(** The theorem with [DataCleaner(nullity_threshold=1.0)] on a column
    that is missing throughout. *)
Lemma threshold_one_keeps_all_witness :
  (1 <= nullity_threshold (cleaner_with_threshold 1))%Q ∧
  unique_labels all_missing_frame ∧
  drop_high_nullity_columns (H := sample_libraries) (cleaner_with_threshold 1)
    all_missing_frame = Ok (all_missing_frame, cleaner_with_threshold 1).
Proof.
  assert (1 <= nullity_threshold (cleaner_with_threshold 1))%Q as Ht.
  { unfold Qle. simpl. lia. }
  assert (unique_labels all_missing_frame) as Hnd.
  { apply (bool_decide_unpack _). vm_compute. exact I. }
  split; [exact Ht|]. split; [exact Hnd|].
  exact (threshold_one_keeps_all (H := sample_libraries) (cleaner_with_threshold 1)
           all_missing_frame Ht Hnd).
Defined.

Lemma nullity_above_negative (t : Q) (c : Column) :
  (t < 0)%Q → (0 < length (cells c))%nat → high_nullity t c = true.
Proof.
  intros Ht Hlen. apply high_nullity_exceeds. split; [done|].
  eapply Qlt_le_trans; [exact Ht|].
  apply Qle_shift_div_l.
  - unfold Qlt. simpl. lia.
  - rewrite Qmult_0_l. unfold Qle. simpl. lia.
Qed.

(** X15: a negative threshold, which the constructor accepts, drops
    every column of a frame that has rows, complete columns included:
    on an aligned frame with unique labels and at least one row the
    result has the row index of the input and no column at all. *)
Theorem negative_threshold_drops_all `{Libraries} (self : DataCleaner) (df : DataFrame) :
  (nullity_threshold self < 0)%Q →
  unique_labels df → aligned df → (0 < nrows df)%nat →
  drop_high_nullity_columns self df
  = Ok ({| index := index df; columns := [] |},
        logs (map drop_entry (columns df)) self).
Proof.
  intros Ht Hnd Hal Hrows. destruct df as [i cs].
  unfold drop_high_nullity_columns, labels. cbn [columns index].
  rewrite (drop_loop cs [] i self Hnd). cbn [app].
  assert (∀ c, c ∈ cs → high_nullity (nullity_threshold self) c = true) as Hhigh.
  { intros c Hc. apply nullity_above_negative; [done|].
    eapply Forall_forall in Hal; [|exact Hc]. simpl in Hal. by rewrite Hal. }
  rewrite (filter_all _ cs Hhigh).
  rewrite filter_none; [done|]. intros c Hc. by rewrite (Hhigh c Hc).
Qed.

(** The theorem with [DataCleaner(nullity_threshold=-0.5)] on the frame
    of the outlier example, which has no missing cell. *)
Lemma negative_threshold_drops_all_witness :
  (nullity_threshold (cleaner_with_threshold (-1 # 2)) < 0)%Q ∧
  unique_labels outlier_frame ∧ aligned outlier_frame ∧ (0 < nrows outlier_frame)%nat ∧
  drop_high_nullity_columns (H := sample_libraries) (cleaner_with_threshold (-1 # 2))
    outlier_frame
  = Ok ({| index := [0; 1; 2; 3; 4]%Z; columns := [] |},
        logs (map (drop_entry (H := sample_libraries)) (columns outlier_frame))
             (cleaner_with_threshold (-1 # 2))).
Proof.
  assert (nullity_threshold (cleaner_with_threshold (-1 # 2)) < 0)%Q as Ht by done.
  assert (unique_labels outlier_frame) as Hnd.
  { apply (bool_decide_unpack _). vm_compute. exact I. }
  assert (aligned outlier_frame) as Hal.
  { apply Forall_cons_2; [reflexivity|apply Forall_nil_2]. }
  assert (0 < nrows outlier_frame)%nat as Hrows by (vm_compute; lia).
  split; [exact Ht|]. split; [exact Hnd|]. split; [exact Hal|]. split; [exact Hrows|].
  exact (negative_threshold_drops_all (H := sample_libraries)
           (cleaner_with_threshold (-1 # 2)) outlier_frame Ht Hnd Hal Hrows).
Defined.

(** The theorem on the frame of ten rows. *)
Lemma drop_high_nullity_twice_witness :
  unique_labels nullity_frame ∧
  ∃ df' self',
    drop_high_nullity_columns (H := sample_libraries) default_cleaner nullity_frame
    = Ok (df', self') ∧
    drop_high_nullity_columns (H := sample_libraries) self' df' = Ok (df', self') ∧
    index df' = index nullity_frame ∧
    columns df' `sublist_of` columns nullity_frame.
Proof.
  assert (unique_labels nullity_frame) as Hnd.
  { apply (bool_decide_unpack _). vm_compute. exact I. }
  split; [exact Hnd|].
  exact (drop_high_nullity_twice (H := sample_libraries) default_cleaner nullity_frame Hnd).
Defined.

(** ** Normalising text *)

Lemma lower_char_space (c : ascii) :
  SnakeCase.is_space (SnakeCase.lower_char c) = SnakeCase.is_space c.
Proof. destruct c as [[] [] [] [] [] [] [] []]; vm_compute; reflexivity. Qed.

Lemma lower_char_upper (c : ascii) : is_upper (SnakeCase.lower_char c) = false.
Proof. destruct c as [[] [] [] [] [] [] [] []]; vm_compute; reflexivity. Qed.

Lemma lower_char_twice (c : ascii) :
  SnakeCase.lower_char (SnakeCase.lower_char c) = SnakeCase.lower_char c.
Proof. destruct c as [[] [] [] [] [] [] [] []]; vm_compute; reflexivity. Qed.

Lemma lower_twice (s : string) : SnakeCase.lower (SnakeCase.lower s) = SnakeCase.lower s.
Proof. induction s as [|c s IH]; simpl; [done|]. by rewrite lower_char_twice, IH. Qed.

Lemma lower_no_upper (s : string) : has_upper (SnakeCase.lower s) = false.
Proof. induction s as [|c s IH]; simpl; [done|]. by rewrite lower_char_upper, IH. Qed.

Lemma lower_starts (s : string) : starts_space (SnakeCase.lower s) = starts_space s.
Proof. destruct s as [|c s]; simpl; [done|]. apply lower_char_space. Qed.

Lemma lower_ends (s : string) : ends_space (SnakeCase.lower s) = ends_space s.
Proof.
  induction s as [|c s IH]; [done|]. cbn [SnakeCase.lower ends_space].
  destruct s as [|c' s]; [apply lower_char_space|exact IH].
Qed.

Lemma lstrip_starts (s : string) : starts_space (lstrip s) = false.
Proof.
  induction s as [|c s IH]; simpl; [done|].
  destruct (SnakeCase.is_space c) eqn:Hc; [exact IH|exact Hc].
Qed.

Lemma rstrip_starts (s : string) :
  starts_space s = false → starts_space (rstrip s) = false.
Proof.
  destruct s as [|c s]; simpl; [done|]. intros Hc.
  destruct (rstrip s); [by rewrite Hc|done].
Qed.

Lemma rstrip_ends (s : string) : ends_space (rstrip s) = false.
Proof.
  induction s as [|c s IH]; simpl; [done|].
  destruct (rstrip s) as [|c' r].
  - by destruct (SnakeCase.is_space c) eqn:Hc.
  - exact IH.
Qed.

Lemma lstrip_fixed (s : string) : starts_space s = false → lstrip s = s.
Proof. destruct s as [|c s]; simpl; [done|]. by intros ->. Qed.

Lemma rstrip_fixed (s : string) : ends_space s = false → rstrip s = s.
Proof.
  induction s as [|c s IH]; [done|]. cbn [ends_space rstrip].
  destruct s as [|c' s]; [by intros ->|].
  intros Hs. by rewrite (IH Hs).
Qed.

(** A text that went through [strip] and [lower] is normal, and
    normalising it again leaves it as it is. *)
Lemma normal_cell_text (s : string) :
  normal_text (SnakeCase.lower (strip s)) ∧
  SnakeCase.lower (strip (SnakeCase.lower (strip s))) = SnakeCase.lower (strip s).
Proof.
  assert (normal_text (SnakeCase.lower (strip s))) as Hn.
  { unfold normal_text, strip. rewrite lower_starts, lower_ends, lower_no_upper.
    split; [apply rstrip_starts, lstrip_starts|]. split; [apply rstrip_ends|done]. }
  split; [exact Hn|]. destruct Hn as (Hs & He & _).
  set (t := SnakeCase.lower (strip s)) in *.
  unfold strip at 1. rewrite (lstrip_fixed t Hs), (rstrip_fixed t He).
  apply lower_twice.
Qed.

Lemma normal_cell_twice (c : cell) : normal_cell (normal_cell c) = normal_cell c.
Proof.
  destruct c as [[x|s]|]; simpl; [done| |done].
  by rewrite (proj2 (normal_cell_text s)).
Qed.

Lemma normal_column_twice (c : Column) :
  normal_column (normal_column c) = normal_column c.
Proof.
  unfold normal_column at 2 3.
  destruct (is_object (col_dtype c) && normalizes c) eqn:Hc.
  - unfold normal_column. cbn [col_dtype col_name cells is_object andb].
    match goal with |- context [normalizes ?a] => destruct (normalizes a) end; [|done].
    f_equal. rewrite <- list_fmap_compose. apply list_fmap_ext.
    intros _ x _. simpl. apply normal_cell_twice.
  - unfold normal_column. by rewrite Hc.
Qed.

Lemma readable_normal_column (c : Column) : readable c → readable (normal_column c).
Proof.
  unfold normal_column. destruct (is_object (col_dtype c) && normalizes c); [|done].
  unfold readable, str_accessor. cbn [cells].
  destruct (existsb is_str (cells c)) eqn:Hstr.
  - intros _. apply existsb_exists in Hstr as (x & Hx & Hs).
    assert (existsb is_str (map normal_cell (cells c)) = true) as ->; [|done].
    apply existsb_exists. exists (normal_cell x). split; [by apply in_map|].
    by destruct x as [[y|s]|].
  - destruct (forallb isna (cells c)) eqn:Hna; [|done]. intros _.
    assert (forallb isna (map normal_cell (cells c)) = true) as ->;
      [|by rewrite orb_true_r].
    rewrite forallb_forall in Hna. apply forallb_forall.
    intros x (y & <- & Hy)%in_map_iff. specialize (Hna y Hy). by destruct y.
Qed.

Lemma normalize_column_step (i : list Z) (pre post : list Column) (c : Column)
    (self : DataCleaner) :
  NoDup (map col_name (pre ++ c :: post)) →
  is_object (col_dtype c) = true → readable c →
  normalize_column (col_name c) ({| index := i; columns := pre ++ c :: post |}, self)
  = Ok ({| index := i; columns := pre ++ normal_column c :: post |},
        if normalizes c then log (normal_entry c) self else self).
Proof.
  intros Hnd Hobj Hread. unfold normalize_column.
  rewrite (getitem_mid i pre post c Hnd), bind_Ok. rewrite Hread, bind_Ok.
  unfold normal_column. rewrite Hobj. cbn [andb]. fold (normalizes c).
  destruct (normalizes c); [|by destruct c].
  by rewrite (setitem_mid i pre post c _ _ Hnd).
Qed.

Lemma normalize_loop (cs : list Column) (i : list Z) (self : DataCleaner) :
  NoDup (map col_name cs) →
  Forall (λ c, is_object (col_dtype c) = true → readable c) cs →
  normalize_text self {| index := i; columns := cs |}
  = Ok ({| index := i; columns := map normal_column cs |},
        logs (map normal_entry
                  (List.filter (λ c, is_object (col_dtype c) && normalizes c) cs)) self).
Proof.
  intros Hnd Hread. unfold normalize_text, object_labels. cbn [columns].
  pose proof (column_loop (λ df (t : DataCleaner), (df, t)) normalize_column
                (λ c, is_object (col_dtype c)) normal_column
                (λ c t, if normalizes c then log (normal_entry c) t else t)
                readable (λ _, True)) as Hloop.
  specialize (Hloop ltac:(by intros c; unfold normal_column; case_match)).
  specialize (Hloop ltac:(done)).
  specialize (Hloop ltac:(by intros i0 pre post c t Hn Hc Hr _;
                             apply normalize_column_step)).
  specialize (Hloop cs [] i self Hnd Hread I). cbn [app] in Hloop.
  rewrite Hloop. f_equal. f_equal.
  - f_equal. apply list_fmap_ext. intros _ c _.
    unfold normal_column. by destruct (is_object (col_dtype c)).
  - clear. generalize self. induction cs as [|c cs IH]; intros t; [done|].
    cbn [List.filter]. destruct (is_object (col_dtype c)); cbn [andb foldl]; [|apply IH].
    destruct (normalizes c); cbn [map]; rewrite IH; done.
Qed.

(** X16: on a frame with unique labels whose object columns can be
    read through [.str], [normalize_text] returns; the row index, the
    labels and the numeric columns are kept; in an object column that is
    normalised every text is replaced by its stripped lower-case form,
    which has no surrounding whitespace and no capital letter, and every
    missing cell stays missing; and a second run returns the same frame. *)
Theorem normalize_text_result (self : DataCleaner) (df : DataFrame) :
  unique_labels df →
  Forall (λ c, is_object (col_dtype c) = true → readable c) (columns df) →
  let df' := {| index := index df; columns := map normal_column (columns df) |} in
  (∃ self', normalize_text self df = Ok (df', self') ∧
     ∃ self'', normalize_text self' df' = Ok (df', self'')) ∧
  labels df' = labels df ∧
  (∀ c, c ∈ columns df ∧ is_numeric (col_dtype c) = true → normal_column c = c) ∧
  (∀ c k s, c ∈ columns df ∧ is_object (col_dtype c) && normalizes c = true ∧
            cells c !! k = Some (Some (Str s)) →
     cells (normal_column c) !! k = Some (Some (Str (SnakeCase.lower (strip s)))) ∧
     normal_text (SnakeCase.lower (strip s))) ∧
  (∀ c k, c ∈ columns df ∧ cells c !! k = Some None →
     cells (normal_column c) !! k = Some None).
Proof.
  intros Hnd Hread df'.
  assert (∀ c, col_name (normal_column c) = col_name c) as Hname.
  { intros c. unfold normal_column. by case_match. }
  assert (map col_name (map normal_column (columns df)) = map col_name (columns df))
    as Hlabels.
  { rewrite <- list_fmap_compose. apply list_fmap_ext. intros _ c _. apply Hname. }
  split; [|split; [|split; [|split]]].
  - destruct df as [i cs]. unfold df'. cbn [index columns] in *.
    eexists. split; [by apply normalize_loop|].
    eexists. rewrite normalize_loop.
    + f_equal. f_equal. f_equal. rewrite <- list_fmap_compose.
      apply list_fmap_ext. intros _ c _. apply normal_column_twice.
    + rewrite Hlabels. exact Hnd.
    + apply Forall_fmap, Forall_forall. intros c Hc Hobj. simpl.
      apply readable_normal_column.
      eapply Forall_forall in Hread; [|exact Hc]. apply Hread.
      revert Hobj. unfold normal_column.
      destruct (is_object (col_dtype c)) eqn:Hobj'; [done|]. cbn [andb].
      by rewrite Hobj'.
  - exact Hlabels.
  - intros c [_ Hnum]. unfold normal_column.
    by destruct (col_dtype c).
  - intros c k s (_ & Hc & Hk). split; [|apply normal_cell_text].
    unfold normal_column. rewrite Hc. cbn [cells].
    by rewrite list_lookup_fmap, Hk.
  - intros c k [_ Hk]. unfold normal_column.
    destruct (_ && _); [|done]. cbn [cells]. by rewrite list_lookup_fmap, Hk.
Qed.

(** X17: in an object column that is normalised a cell that holds a
    number is lost: [.str.strip()] returns NaN for it, so the cell is
    missing in the result. *)
Theorem normalize_text_loses_numbers (self : DataCleaner) (df : DataFrame)
    (c : Column) (k : nat) (x : real) :
  unique_labels df →
  Forall (λ c, is_object (col_dtype c) = true → readable c) (columns df) →
  c ∈ columns df → is_object (col_dtype c) = true → normalizes c = true →
  cells c !! k = Some (Some (Num x)) →
  ∃ df' self' c',
    normalize_text self df = Ok (df', self') ∧
    getitem df' (col_name c) = Ok c' ∧
    cells c' !! k = Some None.
Proof.
  intros Hnd Hread Hc Hobj Hnorm Hk.
  destruct df as [i cs]. cbn [columns] in *.
  exists {| index := i; columns := map normal_column cs |}. eexists. exists (normal_column c).
  split; [by apply normalize_loop|].
  assert (∀ c, col_name (normal_column c) = col_name c) as Hname.
  { intros c0. unfold normal_column. by case_match. }
  split.
  - rewrite <- Hname. apply getitem_elem.
    + unfold unique_labels, labels. cbn [columns]. rewrite <- list_fmap_compose.
      erewrite list_fmap_ext; [exact Hnd|]. intros ? c0 _. apply Hname.
    + cbn [columns]. by apply list_elem_of_fmap_2.
  - unfold normal_column. rewrite Hobj, Hnorm. cbn [andb cells].
    by rewrite list_lookup_fmap, Hk.
Qed.

(** The theorem on [city_frame]: the cell that holds 7 is missing
    after the pass. *)
Lemma normalize_text_loses_numbers_witness :
  unique_labels city_frame ∧
  ∃ df' self' c',
    normalize_text default_cleaner city_frame = Ok (df', self') ∧
    getitem df' "city" = Ok c' ∧ cells c' !! 3%nat = Some None.
Proof.
  assert (unique_labels city_frame) as Hnd.
  { apply (bool_decide_unpack _). vm_compute. exact I. }
  split; [exact Hnd|].
  apply (normalize_text_loses_numbers default_cleaner city_frame
           {| col_name := "city"; col_dtype := Object;
              cells := [Some (Str "  Paris "); Some (Str "ROME"); None;
                        Some (Num (Fin 7))] |} 3 (Fin 7) Hnd).
  - apply Forall_cons_2; [by intros _|apply Forall_nil_2].
  - by left.
  - reflexivity.
  - vm_compute. reflexivity.
  - reflexivity.
Defined.

(** The theorem of the result on [city_frame]. *)
Lemma normalize_text_result_witness :
  unique_labels city_frame ∧
  ∃ self', normalize_text default_cleaner city_frame
    = Ok ({| index := [0; 1; 2; 3]%Z;
             columns := [ {| col_name := "city"; col_dtype := Object;
                             cells := [Some (Str "paris"); Some (Str "rome"); None;
                                       None] |} ] |}, self').
Proof.
  assert (unique_labels city_frame) as Hnd.
  { apply (bool_decide_unpack _). vm_compute. exact I. }
  assert (Forall (λ c, is_object (col_dtype c) = true → readable c) (columns city_frame))
    as Hread.
  { apply Forall_cons_2; [by intros _|apply Forall_nil_2]. }
  split; [exact Hnd|].
  destruct (normalize_text_result default_cleaner city_frame Hnd Hread)
    as [(self' & Hrun & _) _].
  exists self'. exact Hrun.
Defined.

(** X18: an object column whose values are all numbers has no [.str]
    accessor: when the first object column of the frame is such a column
    the pass raises [AttributeError]. *)
Theorem normalize_text_numbers_raise (self : DataCleaner) (df : DataFrame)
    (pre post : list Column) (c : Column) :
  unique_labels df → columns df = pre ++ c :: post →
  Forall (λ c0, is_object (col_dtype c0) = false) pre →
  is_object (col_dtype c) = true →
  numbers_only c → (∃ x, Some (Num x) ∈ cells c) →
  normalize_text self df = Raise AttributeError.
Proof.
  intros Hnd Hcols Hpre Hobj Hnum [x Hx]. destruct df as [i cs]. cbn [columns] in Hcols.
  subst cs. unfold normalize_text, object_labels. cbn [columns].
  assert (List.filter (λ c0, is_object (col_dtype c0)) (pre ++ c :: post)
          = c :: List.filter (λ c0, is_object (col_dtype c0)) post) as ->.
  { rewrite List.filter_app. rewrite filter_none.
    - cbn [app List.filter]. by rewrite Hobj.
    - intros c0 Hc0. by eapply Forall_forall in Hpre. }
  cbn [map for_each].
  assert (normalize_column (col_name c)
            ({| index := i; columns := pre ++ c :: post |}, self)
          = Raise AttributeError) as ->; [|done].
  unfold normalize_column. rewrite (getitem_mid i pre post c Hnd), bind_Ok.
  unfold str_accessor.
  assert (existsb is_str (cells c) = false) as ->.
  { apply not_true_iff_false. intros (y & Hy & Hs)%existsb_exists.
    apply list_elem_of_In in Hy. eapply Forall_forall in Hnum; [|exact Hy].
    by destruct y as [[?|?]|]. }
  assert (forallb isna (cells c) = false) as ->; [|done].
  apply not_true_iff_false. intros Hall. rewrite forallb_forall in Hall.
  apply list_elem_of_In in Hx. by specialize (Hall _ Hx).
Qed.

(** The theorem on [codes_frame]. *)
Lemma normalize_text_numbers_raise_witness :
  unique_labels codes_frame ∧
  normalize_text default_cleaner codes_frame = Raise AttributeError.
Proof.
  assert (unique_labels codes_frame) as Hnd.
  { apply (bool_decide_unpack _). vm_compute. exact I. }
  split; [exact Hnd|].
  apply (normalize_text_numbers_raise default_cleaner codes_frame [] []
           {| col_name := "code"; col_dtype := Object; cells := int_cells [1; 2]%Z |}
           Hnd eq_refl).
  - apply Forall_nil_2.
  - reflexivity.
  - unfold numbers_only. simpl. by repeat constructor.
  - eexists. by left.
Defined.

Lemma str_len_values (l : list cell) :
  dropna_floats (str_len l)
  = map (λ s, Fin (inject_Z (Z.of_nat (String.length s)))) (texts_of l).
Proof.
  unfold dropna_floats, str_len, texts_of.
  induction l as [|x l IH]; [done|].
  destruct x as [[y|s]|]; simpl; [exact IH|f_equal; exact IH|exact IH].
Qed.

Lemma fsum_lengths (ns : list nat) (a : Q) :
  ∃ q, foldl fadd (Some (Fin a)) (map of_nat ns) = Some (Fin q) ∧
       (q == a + inject_Z (Z.of_nat (sum_list ns)))%Q.
Proof.
  revert a. induction ns as [|n ns IH]; intros a.
  - exists a. split; [done|]. simpl. by rewrite Qplus_0_r.
  - cbn [map foldl]. unfold of_nat at 1. cbn [fadd].
    destruct (IH (Qred (a + inject_Z (Z.of_nat n)))) as (q & Hq & Heq).
    exists q. split; [exact Hq|]. rewrite Heq, Qred_correct.
    cbn [sum_list sum_list_with]. rewrite Nat2Z.inj_add, inject_Z_plus.
    symmetry. apply Qplus_assoc.
Qed.

Lemma sum_lengths_positive (ts : list string) :
  (0 < sum_list (map String.length ts))%nat ↔ ∃ s, s ∈ ts ∧ s ≠ "".
Proof.
  induction ts as [|t ts IH].
  - simpl. split; [lia|]. by intros (s & Hs%elem_of_nil & _).
  - cbn [map sum_list sum_list_with]. split.
    + intros Hpos. destruct t as [|c t].
      * destruct IH as [IH _]. destruct IH as (s & Hs & Hne); [simpl in Hpos; lia|].
        exists s. split; [by right|done].
      * exists (String c t). split; [by left|done].
    + intros (s & [->|Hs]%elem_of_cons & Hne).
      * destruct t; [done|]. simpl. lia.
      * assert (0 < sum_list (map String.length ts))%nat; [|lia].
        apply IH. by exists s.
Qed.

Lemma texts_of_elem (l : list cell) (s : string) : s ∈ texts_of l ↔ Some (Str s) ∈ l.
Proof.
  unfold texts_of. rewrite list_elem_of_omap. split.
  - intros (x & Hx & Hs). destruct x as [[y|t]|]; simplify_eq. done.
  - intros Hs. by exists (Some (Str s)).
Qed.

(** X19: the test [df[col].str.len().mean() > 0] of [normalize_text]
    holds exactly when the column holds a text that is not empty. *)
Theorem normalizes_nonempty_text (c : Column) :
  normalizes c = true ↔ ∃ s, Some (Str s) ∈ cells c ∧ s ≠ "".
Proof.
  unfold normalizes, mean. rewrite str_len_values, length_map, map_map.
  set (ts := texts_of (cells c)).
  change (map (λ s, Some (Fin (inject_Z (Z.of_nat (String.length s))))) ts)
    with (map (λ s, of_nat (String.length s)) ts).
  rewrite <- (map_map String.length of_nat).
  unfold fsum. destruct (fsum_lengths (map String.length ts) 0) as (q & -> & Hq).
  rewrite Qplus_0_l in Hq.
  transitivity (0 < sum_list (map String.length ts))%nat.
  2:{ rewrite sum_lengths_positive. unfold ts.
      split; intros (s & Hs & Hne); exists s; (split; [by apply texts_of_elem|done]). }
  unfold of_nat, fdiv, fgt, flt.
  destruct (length ts) as [|n] eqn:Hn.
  - apply length_zero_iff_nil in Hn. rewrite Hn in *. simpl in Hq.
    assert (Qeq_bool q 0 = true) as -> by (by apply Qeq_bool_iff).
    simpl. split; [done|lia].
  - assert (Qeq_bool (inject_Z (Z.of_nat (S n))) 0 = false) as ->.
    { apply not_true_iff_false. intros Heq%Qeq_bool_iff.
      unfold Qeq in Heq. simpl in Heq. lia. }
    unfold real_ltb. rewrite Qlt_bool_iff, Qred_correct, Hq.
    assert (0 < inject_Z (Z.of_nat (S n)))%Q as Hpos by (unfold Qlt; simpl; lia).
    split.
    + intros Hlt. apply (Qmult_lt_compat_r _ _ _ Hpos) in Hlt.
      rewrite Qmult_0_l in Hlt. unfold Qdiv in Hlt.
      rewrite <- Qmult_assoc, (Qmult_comm (/ _)), Qmult_inv_r, Qmult_1_r in Hlt.
      * unfold Qlt in Hlt. simpl in Hlt. lia.
      * intros Heq. rewrite Heq in Hpos. by apply Qlt_irrefl in Hpos.
    + intros Hsum. apply Qlt_shift_div_l; [exact Hpos|].
      rewrite Qmult_0_l. unfold Qlt. simpl. lia.
Qed.

(** ** Fuzzy deduplication: the pass on a frame *)

Lemma unique_vals_elem (c : Column) (v : value) :
  v ∈ unique_vals_of c → Some v ∈ cells c.
Proof.
  unfold unique_vals_of, unique. intros Hv%unique_from_sub.
  apply list_elem_of_omap in Hv as (x & Hx & Hxv). simpl in Hxv. by subst.
Qed.

(** On a text column the mapping is built, and its values are values of
    the column. *)
Lemma fuzzy_mapping_text `{Libraries} (threshold : Z) (c : Column) :
  text_column c →
  ∃ mapping, fuzzy_mapping threshold (unique_vals_of c) ∅ = Ok mapping ∧
             ∀ k v, mapping !! k = Some v → Some (Str v) ∈ cells c.
Proof.
  intros Htext. destruct (unique_vals_text c Htext) as (ss & Hss & Hnd).
  destruct (fuzzy_outer threshold ss Hnd ss 0 ∅) as (m & Hrun & Hinv);
    [done|by intros k v ?|].
  exists m. rewrite Hss. split; [exact Hrun|].
  intros k v Hkv. destruct (Hinv k v Hkv) as [(i & j & _ & _ & Hi & _) _].
  apply unique_vals_elem. rewrite Hss. apply list_elem_of_fmap_2.
  by eapply list_elem_of_lookup_2.
Qed.

Lemma dedup_column_step `{Libraries} (i : list Z) (pre post : list Column) (c : Column)
    (self : DataCleaner) :
  NoDup (map col_name (pre ++ c :: post)) →
  is_object (col_dtype c) = true → text_column c →
  dedup_column (col_name c) ({| index := i; columns := pre ++ c :: post |}, self)
  = Ok ({| index := i;
           columns := pre ++ deduplicated (fuzzy_threshold self) c :: post |},
        dedup_logged (fuzzy_threshold self) c self).
Proof.
  intros Hnd Hobj Htext. unfold dedup_column, deduplicated, dedup_logged.
  rewrite (getitem_mid i pre post c Hnd), bind_Ok. cbn beta zeta. rewrite Hobj.
  cbn [andb]. destruct (length (unique_vals_of c) <? 2)%nat; [done|]. cbn [negb].
  destruct (fuzzy_mapping_text (fuzzy_threshold self) c Htext) as (m & -> & _).
  rewrite bind_Ok. destruct (negb (size m =? 0)%nat); [|by destruct c].
  by rewrite (setitem_mid i pre post c _ _ Hnd).
Qed.

Lemma dedup_logged_threshold `{Libraries} (threshold : Z) (c : Column)
    (self : DataCleaner) :
  fuzzy_threshold (dedup_logged threshold c self) = fuzzy_threshold self.
Proof. unfold dedup_logged. by repeat case_match. Qed.

(** X20: on a frame with unique labels whose object columns hold texts
    and missing cells only, [deduplicate_text_fuzzy] returns; the row
    index, the labels and the columns of the other dtypes are kept; and in
    an object column every cell is either left as it is or a text
    replaced by a text that the column held before, so that missing cells
    stay missing and no new value appears. *)
Theorem dedup_replaces_by_present_texts `{Libraries} (self : DataCleaner)
    (df : DataFrame) :
  unique_labels df →
  Forall (λ c, is_object (col_dtype c) = true → text_column c) (columns df) →
  let fix_column := deduplicated (fuzzy_threshold self) in
  let df' := {| index := index df; columns := map fix_column (columns df) |} in
  (∃ self', deduplicate_text_fuzzy self df = Ok (df', self') ∧
            fuzzy_threshold self' = fuzzy_threshold self) ∧
  labels df' = labels df ∧
  (∀ c, c ∈ columns df ∧ is_object (col_dtype c) = false → fix_column c = c) ∧
  (∀ c, c ∈ columns df ∧ is_object (col_dtype c) = true →
     Forall2 (λ new old, new = old ∨
                ∃ s t, old = Some (Str s) ∧ new = Some (Str t) ∧
                       Some (Str t) ∈ cells c)
             (cells (fix_column c)) (cells c)).
Proof.
  intros Hnd Htext fix_column df'.
  assert (∀ c, col_name (fix_column c) = col_name c) as Hname.
  { intros c. unfold fix_column, deduplicated. by repeat case_match. }
  split; [|split; [|split]].
  - destruct df as [i cs]. unfold deduplicate_text_fuzzy, object_labels, df'.
    cbn [columns index] in *.
    pose proof (column_loop (λ df (t : DataCleaner), (df, t)) dedup_column
                  (λ c, is_object (col_dtype c)) fix_column
                  (dedup_logged (fuzzy_threshold self))
                  text_column (λ t, fuzzy_threshold t = fuzzy_threshold self)
                  Hname) as Hloop.
    specialize (Hloop ltac:(by intros c t Ht; cbn beta in *;
                               rewrite dedup_logged_threshold)).
    specialize (Hloop ltac:(by intros i0 pre post c t Hn Hc Ht Hq; cbn beta in *;
                               rewrite (dedup_column_step i0 pre post c t Hn Hc Ht), Hq)).
    specialize (Hloop cs [] i self Hnd Htext eq_refl). cbn [app] in Hloop.
    eexists. split.
    + rewrite Hloop. f_equal. f_equal. f_equal. apply list_fmap_ext.
      intros _ c _. simpl. unfold fix_column, deduplicated.
      by destruct (is_object (col_dtype c)).
    + generalize (List.filter (λ c, is_object (col_dtype c)) cs).
      intros l. generalize (fuzzy_threshold self) at 1. intros thr.
      generalize self. clear.
      induction l as [|c l IH]; intros t; [done|].
      cbn [foldl]. by rewrite IH, dedup_logged_threshold.
  - unfold labels, df'. cbn [columns]. rewrite <- list_fmap_compose.
    apply list_fmap_ext. intros _ c _. apply Hname.
  - intros c [_ Hobj]. unfold fix_column, deduplicated. by rewrite Hobj.
  - intros c [Hc Hobj].
    assert (Forall2 (λ new old : cell, new = old ∨
                       ∃ s t, old = Some (Str s) ∧ new = Some (Str t) ∧
                              Some (Str t) ∈ cells c) (cells c) (cells c)) as Hrefl.
    { apply Forall2_same_length_lookup_2; [done|]. intros k x y Hx Hy. left. congruence. }
    unfold fix_column, deduplicated. rewrite Hobj. cbn [andb].
    destruct (negb (length (unique_vals_of c) <? 2)%nat); [|exact Hrefl].
    eapply Forall_forall in Htext; [|exact Hc].
    destruct (fuzzy_mapping_text (fuzzy_threshold self) c (Htext Hobj))
      as (m & -> & Hm).
    destruct (negb (size m =? 0)%nat); [|exact Hrefl]. cbn [cells].
    apply Forall2_fmap_l, Forall2_same_length_lookup_2; [done|].
    intros k x y Hx Hy. assert (x = y) as -> by congruence.
    destruct y as [[z|s]|]; [by left| |by left]. simpl.
    destruct (m !! s) as [t|] eqn:Hs; [|by left].
    right. exists s, t. split; [done|]. split; [done|]. by eapply Hm.
Qed.

(** The theorem on the frame of names: "alice" becomes "Alice" and
    "BOB" becomes "Bob". *)
Lemma dedup_replaces_by_present_texts_witness :
  unique_labels names_frame ∧
  ∃ self', deduplicate_text_fuzzy (H := sample_libraries) default_cleaner names_frame
    = Ok ({| index := [0; 1; 2; 3; 4]%Z;
             columns := [ {| col_name := "name"; col_dtype := Object;
                             cells := [Some (Str "Alice"); Some (Str "Alice");
                                       Some (Str "Bob"); None; Some (Str "Bob")] |} ] |},
          self').
Proof.
  assert (unique_labels names_frame) as Hnd.
  { apply (bool_decide_unpack _). vm_compute. exact I. }
  assert (Forall (λ c, is_object (col_dtype c) = true → text_column c)
                 (columns names_frame)) as Htext.
  { apply Forall_cons_2; [|apply Forall_nil_2]. intros _. by repeat constructor. }
  split; [exact Hnd|].
  destruct (dedup_replaces_by_present_texts (H := sample_libraries) default_cleaner
              names_frame Hnd Htext) as [(self' & Hrun & _) _].
  exists self'. rewrite Hrun. vm_compute. reflexivity.
Defined.

(** X21: the similarity score is computed on [val.lower()], which a
    number does not have: when the first object column of the frame has
    at least two distinct values and one of the first two is a number,
    the pass raises [AttributeError]. *)
Theorem dedup_number_raises `{Libraries} (self : DataCleaner) (df : DataFrame)
    (pre post : list Column) (c : Column) (v1 v2 : value) (rest : list value) :
  unique_labels df → columns df = pre ++ c :: post →
  Forall (λ c0, is_object (col_dtype c0) = false) pre →
  is_object (col_dtype c) = true →
  unique_vals_of c = v1 :: v2 :: rest →
  (∃ x, v1 = Num x) ∨ (∃ x, v2 = Num x) →
  deduplicate_text_fuzzy self df = Raise AttributeError.
Proof.
  intros Hnd Hcols Hpre Hobj Huv Hnum. destruct df as [i cs]. cbn [columns] in Hcols.
  subst cs. unfold deduplicate_text_fuzzy, object_labels. cbn [columns].
  assert (List.filter (λ c0, is_object (col_dtype c0)) (pre ++ c :: post)
          = c :: List.filter (λ c0, is_object (col_dtype c0)) post) as ->.
  { rewrite List.filter_app. rewrite filter_none.
    - cbn [app List.filter]. by rewrite Hobj.
    - intros c0 Hc0. by eapply Forall_forall in Hpre. }
  cbn [map for_each].
  assert (dedup_column (col_name c)
            ({| index := i; columns := pre ++ c :: post |}, self)
          = Raise AttributeError) as ->; [|done].
  unfold dedup_column. rewrite (getitem_mid i pre post c Hnd), bind_Ok.
  cbn beta zeta. rewrite Huv. cbn [length Nat.ltb Nat.leb fuzzy_mapping for_each].
  assert (fuzzy_pair (fuzzy_threshold self) v1 v2 ∅ = Raise AttributeError) as ->; [|done].
  unfold fuzzy_pair.
  assert (∀ v, in_mapping ∅ v = false) as Hin.
  { intros [x|s]; [done|]. simpl. apply bool_decide_eq_false_2.
    rewrite lookup_empty. by intros [? ?]. }
  rewrite !Hin. cbn [orb].
  destruct Hnum as [[x ->]|[x ->]]; [done|by destruct v1].
Qed.

(** The theorem on [id_frame]. *)
Lemma dedup_number_raises_witness :
  unique_labels id_frame ∧
  deduplicate_text_fuzzy (H := sample_libraries) default_cleaner id_frame
  = Raise AttributeError.
Proof.
  assert (unique_labels id_frame) as Hnd.
  { apply (bool_decide_unpack _). vm_compute. exact I. }
  split; [exact Hnd|].
  apply (dedup_number_raises (H := sample_libraries) default_cleaner id_frame [] []
           {| col_name := "id"; col_dtype := Object;
              cells := [Some (Str "a"); Some (Num (Fin 1))] |}
           (Str "a") (Num (Fin 1)) [] Hnd eq_refl).
  - apply Forall_nil_2.
  - reflexivity.
  - reflexivity.
  - right. by eexists.
Defined.

(** ** Min-max scaling maps into the unit interval *)

Lemma foldl_min_fin (l : list real) (x : Q) :
  Forall (λ y, ∃ q, y = Fin q) l →
  ∃ a, foldl (λ a b, if real_ltb b a then b else a) (Fin x) l = Fin a ∧
       (a <= x)%Q ∧ ∀ q, Fin q ∈ l → (a <= q)%Q.
Proof.
  revert x. induction l as [|y l IH]; intros x Hfin.
  - exists x. split; [done|]. split; [apply Qle_refl|]. by intros q ?%elem_of_nil.
  - apply Forall_cons in Hfin as [[qy ->] Hfin]. cbn [foldl real_ltb].
    destruct (Qlt_bool qy x) eqn:Hlt.
    + apply Qlt_bool_iff in Hlt. destruct (IH qy Hfin) as (a & Ha & Hay & Hall).
      exists a. split; [done|]. split.
      * eapply Qle_trans; [exact Hay|]. by apply Qlt_le_weak.
      * intros q [[= ->]|Hq]%elem_of_cons; [done|by apply Hall].
    + destruct (IH x Hfin) as (a & Ha & Hax & Hall).
      exists a. split; [done|]. split; [done|].
      intros q [[= ->]|Hq]%elem_of_cons; [|by apply Hall].
      eapply Qle_trans; [exact Hax|]. apply Qnot_lt_le.
      intros Hlt'%Qlt_bool_iff. congruence.
Qed.

Lemma foldl_max_fin (l : list real) (x : Q) :
  Forall (λ y, ∃ q, y = Fin q) l →
  ∃ b, foldl (λ a b, if real_ltb a b then b else a) (Fin x) l = Fin b ∧
       (x <= b)%Q ∧ ∀ q, Fin q ∈ l → (q <= b)%Q.
Proof.
  revert x. induction l as [|y l IH]; intros x Hfin.
  - exists x. split; [done|]. split; [apply Qle_refl|]. by intros q ?%elem_of_nil.
  - apply Forall_cons in Hfin as [[qy ->] Hfin]. cbn [foldl real_ltb].
    destruct (Qlt_bool x qy) eqn:Hlt.
    + apply Qlt_bool_iff in Hlt. destruct (IH qy Hfin) as (b & Hb & Hyb & Hall).
      exists b. split; [done|]. split.
      * eapply Qle_trans; [|exact Hyb]. by apply Qlt_le_weak.
      * intros q [[= ->]|Hq]%elem_of_cons; [done|by apply Hall].
    + destruct (IH x Hfin) as (b & Hb & Hxb & Hall).
      exists b. split; [done|]. split; [done|].
      intros q [[= ->]|Hq]%elem_of_cons; [|by apply Hall].
      eapply Qle_trans; [|exact Hxb]. apply Qnot_lt_le.
      intros Hlt'%Qlt_bool_iff. congruence.
Qed.

Lemma dropna_floats_elem (l : list cell) (y : real) :
  y ∈ dropna_floats (floats_of l) ↔ Some (Num y) ∈ l.
Proof.
  unfold dropna_floats, floats_of. rewrite list_elem_of_omap. split.
  - intros (x & (c & -> & Hc)%list_elem_of_fmap & Hy).
    destruct c as [[z|s]|]; simpl in Hy; simplify_eq. done.
  - intros Hy. exists (Some y). split; [|done].
    apply list_elem_of_fmap. by exists (Some (Num y)).
Qed.

(** The least and the largest number of a column of finite numbers. *)
Lemma minmax_bounds (l : list cell) :
  Forall (λ x, x = None ∨ ∃ q, x = Some (Num (Fin q))) l →
  (∃ q, Some (Num (Fin q)) ∈ l) →
  ∃ a b, series_min (floats_of l) = Some (Fin a) ∧
         series_max (floats_of l) = Some (Fin b) ∧
         Some (Num (Fin a)) ∈ l ∧ Some (Num (Fin b)) ∈ l ∧
         ∀ q, Some (Num (Fin q)) ∈ l → (a <= q)%Q ∧ (q <= b)%Q.
Proof.
  intros Hfin [q0 Hq0].
  assert (Forall (λ y, ∃ q, y = Fin q) (dropna_floats (floats_of l))) as Hxs.
  { apply Forall_forall. intros y Hy%dropna_floats_elem.
    eapply Forall_forall in Hfin; [|exact Hy].
    destruct Hfin as [?|[q ?]]; simplify_eq. by eexists. }
  apply dropna_floats_elem in Hq0.
  pose proof (series_min_elem (floats_of l)) as Hmin_in.
  pose proof (series_max_elem (floats_of l)) as Hmax_in.
  assert (∀ q, Some (Num (Fin q)) ∈ l → Fin q ∈ dropna_floats (floats_of l)) as Hin.
  { intros q Hq. by apply dropna_floats_elem. }
  unfold series_min, series_max in *.
  destruct (dropna_floats (floats_of l)) as [|x xs] eqn:Hd;
    [by apply elem_of_nil in Hq0|].
  apply Forall_cons in Hxs as [[qx ->] Hxs].
  destruct (foldl_min_fin xs qx Hxs) as (a & Ha & Hax & Hamin).
  destruct (foldl_max_fin xs qx Hxs) as (b & Hb & Hxb & Hbmax).
  rewrite Ha in *. rewrite Hb in *. exists a, b.
  split; [done|]. split; [done|].
  split; [by apply dropna_floats_elem; rewrite Hd; apply Hmin_in|].
  split; [by apply dropna_floats_elem; rewrite Hd; apply Hmax_in|].
  intros q Hq. specialize (Hin q Hq).
  apply elem_of_cons in Hin as [[= ->]|Hin]; [done|].
  split; [by apply Hamin|by apply Hbmax].
Qed.

(** The scaled value [(x - a) / (b - a)] for [a <= x <= b] and [a < b]. *)
Lemma scaled_value (a b x : Q) :
  (a <= x)%Q → (x <= b)%Q → (a < b)%Q →
  ∃ q, fdiv (fsub (Some (Fin x)) (Some (Fin a))) (fsub (Some (Fin b)) (Some (Fin a)))
       = Some (Fin (Qred q)) ∧
       (q == (x - a) / (b - a))%Q ∧ (0 <= q)%Q ∧ (q <= 1)%Q.
Proof.
  intros Hax Hxb Hab.
  assert (0 < b - a)%Q as Hpos by (by apply (Qlt_minus_iff a b)).
  unfold fsub, fneg, fadd, fdiv.
  assert (Qeq_bool (Qred (b + Qred (- a))) 0 = false) as ->.
  { apply not_true_iff_false. intros Heq%Qeq_bool_iff.
    rewrite !Qred_correct in Heq. unfold Qminus in Hpos. rewrite Heq in Hpos.
    by apply Qlt_irrefl in Hpos. }
  eexists. split; [reflexivity|].
  assert (Qred (x + Qred (- a)) / Qred (b + Qred (- a)) == (x - a) / (b - a))%Q as Heq.
  { by rewrite !Qred_correct. }
  split; [exact Heq|]. rewrite Heq. split.
  - apply Qle_shift_div_l; [exact Hpos|]. rewrite Qmult_0_l.
    by apply (Qle_minus_iff a x).
  - apply Qle_shift_div_r; [exact Hpos|]. rewrite Qmult_1_l.
    unfold Qminus. apply Qplus_le_compat; [exact Hxb|apply Qle_refl].
Qed.

(** X22: min-max scaling maps a numeric column that holds finite numbers,
    two of them different and all of them less than [2^63] apart, into
    the unit interval: on a frame with unique labels whose numeric columns
    hold numbers, the pass returns; in the scaled column a missing cell
    stays missing, every other cell holds a finite number between 0 and 1,
    a cell that held the least number holds 0 and a cell that held the
    largest number holds 1. *)
Theorem minmax_unit_interval `{Libraries} (self : DataCleaner) (df : DataFrame)
    (c : Column) :
  scale_numeric self = true → scale_method self = "minmax" →
  unique_labels df → well_typed df →
  c ∈ columns df → is_numeric (col_dtype c) = true →
  finite_numbers c → spread c → narrow c →
  ∃ df' self' c',
    scale_numeric_columns self df = Ok (df', self') ∧
    getitem df' (col_name c) = Ok c' ∧
    Forall2 in_unit_interval (cells c') (cells c) ∧
    (∃ k a, cells c !! k = Some (Some (Num (Fin a))) ∧
            cells c' !! k = Some (Some (Num (Fin 0))) ∧
            ∀ q, Some (Num (Fin q)) ∈ cells c → (a <= q)%Q) ∧
    (∃ k b, cells c !! k = Some (Some (Num (Fin b))) ∧
            cells c' !! k = Some (Some (Num (Fin 1))) ∧
            ∀ q, Some (Num (Fin q)) ∈ cells c → (q <= b)%Q).
Proof.
  intros Hon Hm Hnd Hty Hc Hnum Hfin (p & q & Hp & Hq & Hpq) _.
  destruct (minmax_bounds (cells c) Hfin) as (a & b & Hmin & Hmax & Ha & Hb & Hall);
    [by exists p|].
  assert (a < b)%Q as Hab.
  { eapply Qle_lt_trans; [apply (Hall p Hp)|].
    eapply Qlt_le_trans; [exact Hpq|apply (Hall q Hq)]. }
  assert (∀ c0, col_name (minmax_column c0) = col_name c0) as Hname.
  { intros c0. unfold minmax_column. by destruct (is_numeric (col_dtype c0)). }
  assert (∀ k x, cells c !! k = Some (Some (Num (Fin x))) →
            ∃ y, cells (minmax_column c) !! k = Some (Some (Num (Fin (Qred y)))) ∧
                 (y == (x - a) / (b - a))%Q ∧ (0 <= y)%Q ∧ (y <= 1)%Q) as Hcell.
  { intros k x Hk.
    assert (Some (Num (Fin x)) ∈ cells c) as Hx
      by exact (list_elem_of_lookup_2 _ _ _ Hk).
    destruct (Hall x Hx) as [Hax Hxb].
    destruct (scaled_value a b x Hax Hxb Hab) as (y & Hy & Hrest).
    exists y. split; [|exact Hrest].
    unfold minmax_column, minmax, floats_of. rewrite Hnum. cbn [cells].
    rewrite !list_lookup_fmap, Hk. cbn [fmap option_fmap option_map].
    fold (floats_of (cells c)). by rewrite Hmin, Hmax, Hy. }
  exists {| index := index df; columns := map minmax_column (columns df) |},
         (logs (map minmax_entry
                    (List.filter (λ c, is_numeric (col_dtype c)) (columns df))) self),
         (minmax_column c).
  split; [|split; [|split; [|split]]].
  - unfold scale_numeric_columns. rewrite Hon. cbn [negb].
    destruct df as [i cs]. unfold numeric_labels. cbn [columns index].
    apply (scale_loop cs [] i self Hm Hnd Hty).
  - rewrite <- Hname. apply getitem_elem.
    + unfold unique_labels, labels. cbn [columns]. rewrite <- list_fmap_compose.
      erewrite list_fmap_ext; [exact Hnd|]. intros ? c0 _. apply Hname.
    + cbn [columns]. by apply list_elem_of_fmap_2.
  - apply Forall2_same_length_lookup_2.
    + unfold minmax_column, minmax, floats_of. rewrite Hnum. cbn [cells].
      by rewrite !length_map.
    + intros k new old Hnew Hold.
      eapply Forall_forall in Hfin; [|by eapply list_elem_of_lookup_2].
      destruct Hfin as [->|[x ->]].
      * unfold minmax_column, minmax, floats_of in Hnew. rewrite Hnum in Hnew.
        cbn [cells] in Hnew. rewrite !list_lookup_fmap, Hold in Hnew.
        simpl in Hnew. by simplify_eq.
      * destruct (Hcell k x Hold) as (y & Hy & _ & H0 & H1).
        rewrite Hy in Hnew. simplify_eq. exists (Qred y).
        split; [done|]. by rewrite Qred_correct.
  - apply list_elem_of_lookup in Ha as [k Hk]. exists k, a.
    destruct (Hcell k a Hk) as (y & Hy & Heq & _).
    split; [exact Hk|]. split; [|intros q0 Hq0; apply (Hall q0 Hq0)].
    rewrite Hy. assert (Qred y = 0%Q) as ->; [|done].
    change (Qred y = Qred 0). apply Qred_complete.
    rewrite Heq. unfold Qminus. rewrite Qplus_opp_r. unfold Qdiv. apply Qmult_0_l.
  - apply list_elem_of_lookup in Hb as [k Hk]. exists k, b.
    destruct (Hcell k b Hk) as (y & Hy & Heq & _).
    split; [exact Hk|]. split; [|intros q0 Hq0; apply (Hall q0 Hq0)].
    rewrite Hy. assert (Qred y = 1%Q) as ->; [|done].
    change (Qred y = Qred 1). apply Qred_complete.
    rewrite Heq. unfold Qdiv. apply Qmult_inv_r.
    intros Hz. apply (Qlt_minus_iff a b) in Hab. unfold Qminus in Hz.
    rewrite Hz in Hab. by apply Qlt_irrefl in Hab.
Qed.

(** The theorem on the column [1, 2, 3, 4, 100]. *)
Lemma minmax_unit_interval_witness :
  unique_labels outlier_frame ∧ well_typed outlier_frame ∧
  ∃ df' self' c',
    scale_numeric_columns (H := sample_libraries) scaling_cleaner outlier_frame
    = Ok (df', self') ∧
    getitem df' "x" = Ok c' ∧
    Forall2 in_unit_interval (cells c') (int_cells [1; 2; 3; 4; 100]%Z).
Proof.
  assert (unique_labels outlier_frame) as Hnd.
  { apply (bool_decide_unpack _). vm_compute. exact I. }
  assert (well_typed outlier_frame) as Hty.
  { apply Forall_cons_2; [|apply Forall_nil_2]. intros _.
    unfold numbers_only. simpl. by repeat constructor. }
  split; [exact Hnd|]. split; [exact Hty|].
  destruct (minmax_unit_interval (H := sample_libraries) scaling_cleaner outlier_frame
              {| col_name := "x"; col_dtype := Int64;
                 cells := int_cells [1; 2; 3; 4; 100]%Z |}
              eq_refl eq_refl Hnd Hty) as (df' & self' & c' & Hrun & Hget & Hunit & _).
  - by left.
  - reflexivity.
  - unfold finite_numbers. simpl. repeat (apply Forall_cons_2; [right; by eexists|]).
    apply Forall_nil_2.
  - exists 1%Q, 100%Q. split; [by left|]. split; [|done].
    simpl. do 4 right. by left.
  - intros p q Hp Hq.
    assert (∀ r, Some (Num (Fin r)) ∈ int_cells [1; 2; 3; 4; 100]%Z →
                 (1 <= r)%Q ∧ (r <= 100)%Q) as Hrange.
    { intros r Hr. simpl in Hr. set_unfold.
      destruct Hr as [Hr|[Hr|[Hr|[Hr|[Hr|[]]]]]]; injection Hr as ->; by split. }
    destruct (Hrange p Hp), (Hrange q Hq). lra.
  - exists df', self', c'. by split.
Defined.

(** The tie of "b" and "a", met twice each, is broken for "a". *)
Lemma mode0_smallest_witness :
  ∃ s, Str "a" = Str s ∧ s ∈ ["b"; "a"; "b"; "a"] ∧
    (∀ t, t ∈ ["b"; "a"; "b"; "a"] →
       count_of (Str t) (map Str ["b"; "a"; "b"; "a"])
       ≤ count_of (Str s) (map Str ["b"; "a"; "b"; "a"]))%nat ∧
    (∀ t, t ∈ ["b"; "a"; "b"; "a"] →
       count_of (Str t) (map Str ["b"; "a"; "b"; "a"])
       = count_of (Str s) (map Str ["b"; "a"; "b"; "a"]) →
       String.leb s t = true).
Proof.
  apply (mode0_smallest ["b"; "a"; "b"; "a"]
           [Some (Str "b"); Some (Str "a"); Some (Str "b"); Some (Str "a")] (Str "a")).
  - reflexivity.
  - vm_compute. reflexivity.
Defined.

(** ** The summary of the log *)

Lemma append_cons (c : ascii) (s t : string) :
  (String c s ++ t = String c (s ++ t))%string.
Proof. reflexivity. Qed.

Lemma append_nil (t : string) : ("" ++ t = t)%string.
Proof. reflexivity. Qed.

Lemma append_assoc (s1 s2 s3 : string) : ((s1 ++ s2) ++ s3 = s1 ++ s2 ++ s3)%string.
Proof.
  induction s1 as [|c s1 IH]; [done|]. rewrite !append_cons. f_equal. exact IH.
Qed.

Lemma append_inj_l (s x y : string) : (s ++ x = s ++ y)%string → x = y.
Proof.
  induction s as [|c s IH]; [done|]. rewrite !append_cons. intros [= Heq]. by apply IH.
Qed.

Lemma append_empty_r (s : string) : (s ++ "" = s)%string.
Proof. induction s as [|c s IH]; [done|]. rewrite append_cons. f_equal. exact IH. Qed.

Lemma summary_unfold (actions : list string) (summary : string) :
  foldl (λ summary action, summary ++ "- " ++ action ++ newline)%string summary actions
  = (summary ++ summary_items actions)%string.
Proof.
  revert summary. induction actions as [|a l IH]; intros summary; cbn [foldl].
  - cbn [summary_items foldr]. by rewrite append_empty_r.
  - rewrite IH. cbn [summary_items foldr]. fold (summary_items l).
    by rewrite !append_assoc.
Qed.

Lemma split_newline (a b r1 r2 : string) :
  has_newline a = false → has_newline b = false →
  (a ++ newline ++ r1 = b ++ newline ++ r2)%string → a = b ∧ r1 = r2.
Proof.
  unfold newline. revert b. induction a as [|c a IH]; intros b Ha Hb Heq.
  - destruct b as [|c' b]; rewrite ?append_cons, ?append_nil in Heq.
    + by injection Heq.
    + injection Heq as <- _. simpl in Hb. done.
  - destruct b as [|c' b]; rewrite ?append_cons, ?append_nil in Heq.
    + injection Heq as -> _. simpl in Ha. done.
    + injection Heq as -> Heq. simpl in Ha, Hb.
      apply orb_false_iff in Ha as [_ Ha]. apply orb_false_iff in Hb as [_ Hb].
      destruct (IH b Ha Hb Heq) as [-> ->]. done.
Qed.

(** X24: the summary keeps the log: two logs whose entries hold no line
    feed and that have the same summary are equal.  An entry that holds a
    line feed, as a column name may, breaks this: the log of the one
    entry "a\n- b" and the log of the entries "a" and "b" have the same
    summary. *)
Theorem summary_determines_log (actions1 actions2 : list string) :
  Forall (λ a, has_newline a = false) actions1 →
  Forall (λ a, has_newline a = false) actions2 →
  generate_cleaning_summary actions1 = generate_cleaning_summary actions2 →
  actions1 = actions2 ∧
  generate_cleaning_summary [("a" ++ newline ++ "- b")%string]
  = generate_cleaning_summary ["a"; "b"].
Proof.
  intros H1 H2 Heq. split; [|reflexivity].
  unfold generate_cleaning_summary in Heq. cbn zeta in Heq.
  rewrite !summary_unfold in Heq. apply append_inj_l in Heq.
  revert actions2 H2 Heq. induction H1 as [|a l1 Ha _ IH]; intros l2 H2 Heq.
  - destruct l2 as [|b l2]; [done|].
    cbn [summary_items foldr] in Heq. rewrite !append_cons in Heq. discriminate Heq.
  - destruct H2 as [|b l2 Hb H2].
    { cbn [summary_items foldr] in Heq. rewrite !append_cons in Heq. discriminate Heq. }
    cbn [summary_items foldr] in Heq. fold (summary_items l1) in Heq.
    fold (summary_items l2) in Heq.
    apply (append_inj_l "- ") in Heq.
    destruct (split_newline a b _ _ Ha Hb Heq) as [-> Hrest].
    f_equal. by apply IH.
Qed.

(** The theorem on the log of a run that removed two rows and filled
    one column. *)
Lemma summary_determines_log_witness :
  Forall (λ a, has_newline a = false)
         ["Removed 2 duplicate rows"; "Handled missing values in 'n' with mean"] ∧
  ["Removed 2 duplicate rows"; "Handled missing values in 'n' with mean"]
  = ["Removed 2 duplicate rows"; "Handled missing values in 'n' with mean"] ∧
  generate_cleaning_summary [("a" ++ newline ++ "- b")%string]
  = generate_cleaning_summary ["a"; "b"].
Proof.
  assert (Forall (λ a, has_newline a = false)
            ["Removed 2 duplicate rows"; "Handled missing values in 'n' with mean"])
    as Hfree by (by repeat constructor).
  split; [exact Hfree|].
  exact (summary_determines_log _ _ Hfree Hfree eq_refl).
Defined.

(** ** The passes keep the configuration and extend the log *)

Lemma extends_refl (self : DataCleaner) : extends self self.
Proof. by repeat split. Qed.

Lemma extends_trans (s1 s2 s3 : DataCleaner) :
  extends s1 s2 → extends s2 s3 → extends s1 s3.
Proof.
  intros (? & ? & ? & ? & ? & ? & Hp1) (? & ? & ? & ? & ? & ? & Hp2).
  repeat split; try congruence. by etrans.
Qed.

Lemma extends_log (entry : string) (self : DataCleaner) : extends self (log entry self).
Proof. repeat split. simpl. by apply prefix_app_r. Qed.

Lemma extends_flag (col : string) (mask : list bool) (self : DataCleaner) :
  extends self (set_flag col mask self).
Proof. by repeat split. Qed.

Lemma bind_Ok_inv {A B} (r : result A) (k : A → result B) (b : B) :
  (r ≫= k) = Ok b → ∃ a, r = Ok a ∧ k a = Ok b.
Proof. destruct r as [a|e]; [by exists a|done]. Qed.

Lemma for_each_extends {A S} (body : A → S → result S) (engine : S → DataCleaner)
    (l : list A) (s s' : S) :
  (∀ x s1 s2, body x s1 = Ok s2 → extends (engine s1) (engine s2)) →
  for_each body l s = Ok s' → extends (engine s) (engine s').
Proof.
  intros Hstep. apply (for_each_preserves body (λ t, extends (engine s) (engine t))).
  - intros x s1 s2 _ H1 Hb. eapply extends_trans; [exact H1|by eapply Hstep].
  - apply extends_refl.
Qed.

Lemma handle_missing_column_extends (col : string)
    (s1 s2 : DataFrame * string * DataCleaner) :
  handle_missing_column col s1 = Ok s2 → extends s1.2 s2.2.
Proof.
  destruct s1 as [[df strategy] self]. unfold handle_missing_column.
  intros (c & _ & Hrun)%bind_Ok_inv.
  destruct (0 <? count_true (map isna (cells c)))%nat.
  - apply bind_Ok_inv in Hrun as (s & _ & Hrun).
    apply bind_Ok_inv in Hrun as (df1 & _ & [= <-]). apply extends_log.
  - injection Hrun as <-. apply extends_refl.
Qed.

Lemma fix_column_extends `{Libraries} (col : string) (s1 s2 : DataFrame * DataCleaner) :
  fix_column col s1 = Ok s2 → extends s1.2 s2.2.
Proof.
  destruct s1 as [df self]. unfold fix_column.
  intros (c & _ & [= <-])%bind_Ok_inv. apply extends_log.
Qed.

Lemma handle_outliers_extends (self : DataCleaner) (df : DataFrame) (col : string)
    (outliers : list bool) (lower_bound upper_bound : float)
    (s2 : DataFrame * DataCleaner) :
  _handle_outliers self df col outliers lower_bound upper_bound = Ok s2 →
  extends self s2.2.
Proof.
  unfold _handle_outliers. destruct (0 <? count_true outliers)%nat.
  2:{ intros [= <-]. apply extends_refl. }
  intros (st & Hst & Hrun)%bind_Ok_inv.
  apply bind_Ok_inv in Hrun as (_ & _ & [= <-]).
  destruct (String.eqb (outlier_action self) "cap").
  { apply bind_Ok_inv in Hst as (c & _ & Hst).
    apply bind_Ok_inv in Hst as (xs & _ & [= <-]). apply extends_log. }
  destruct (String.eqb (outlier_action self) "remove").
  { injection Hst as <-. apply extends_log. }
  destruct (String.eqb (outlier_action self) "flag").
  { injection Hst as <-. eapply extends_trans; [apply extends_flag|apply extends_log]. }
  injection Hst as <-. apply extends_refl.
Qed.

Lemma iqr_column_extends (col : string) (s1 s2 : DataFrame * DataCleaner) :
  iqr_column col s1 = Ok s2 → extends s1.2 s2.2.
Proof.
  destruct s1 as [df self]. unfold iqr_column.
  intros (c & _ & Hrun)%bind_Ok_inv. apply bind_Ok_inv in Hrun as (xs & _ & Hrun).
  by apply handle_outliers_extends in Hrun.
Qed.

Lemma isolation_column_extends (outliers : list bool) (col : string)
    (s1 s2 : DataFrame * DataCleaner) :
  isolation_column outliers col s1 = Ok s2 → extends s1.2 s2.2.
Proof.
  destruct s1 as [df self]. unfold isolation_column.
  destruct (negb (length outliers =? nrows df)%nat); [done|].
  intros (c & _ & Hrun)%bind_Ok_inv. apply bind_Ok_inv in Hrun as (xs & _ & Hrun).
  by apply handle_outliers_extends in Hrun.
Qed.

Lemma normalize_column_extends (col : string) (s1 s2 : DataFrame * DataCleaner) :
  normalize_column col s1 = Ok s2 → extends s1.2 s2.2.
Proof.
  destruct s1 as [df self]. unfold normalize_column.
  intros (c & _ & Hrun)%bind_Ok_inv. apply bind_Ok_inv in Hrun as (_ & _ & Hrun).
  destruct (fgt _ _); injection Hrun as <-; [apply extends_log|apply extends_refl].
Qed.

Lemma dedup_column_extends `{Libraries} (col : string) (s1 s2 : DataFrame * DataCleaner) :
  dedup_column col s1 = Ok s2 → extends s1.2 s2.2.
Proof.
  destruct s1 as [df self]. unfold dedup_column.
  intros (c & _ & Hrun)%bind_Ok_inv. cbn beta zeta in Hrun.
  destruct (length (unique_vals_of c) <? 2)%nat.
  { injection Hrun as <-. apply extends_refl. }
  apply bind_Ok_inv in Hrun as (m & _ & Hrun).
  destruct (negb (size m =? 0)%nat); injection Hrun as <-;
    [apply extends_log|apply extends_refl].
Qed.

Lemma drop_if_high_extends `{Libraries} (col : string) (s1 s2 : DataFrame * DataCleaner) :
  drop_if_high col s1 = Ok s2 → extends s1.2 s2.2.
Proof.
  destruct s1 as [df self]. unfold drop_if_high.
  intros (c & _ & Hrun)%bind_Ok_inv. cbn beta zeta in Hrun.
  destruct (fgt _ _); injection Hrun as <-; [apply extends_log|apply extends_refl].
Qed.

Lemma scale_column_extends `{Libraries} (col : string) (s1 s2 : DataFrame * DataCleaner) :
  scale_column col s1 = Ok s2 → extends s1.2 s2.2.
Proof.
  destruct s1 as [df self]. unfold scale_column.
  intros (st & Hst & Hrun)%bind_Ok_inv.
  apply bind_Ok_inv in Hrun as (_ & _ & [= <-]).
  destruct (String.eqb (scale_method self) "minmax").
  { apply bind_Ok_inv in Hst as (c & _ & Hst).
    apply bind_Ok_inv in Hst as (xs & _ & [= <-]). apply extends_log. }
  destruct (String.eqb (scale_method self) "standard").
  { apply bind_Ok_inv in Hst as (c & _ & Hst).
    apply bind_Ok_inv in Hst as (xs & _ & [= <-]). apply extends_log. }
  injection Hst as <-. apply extends_refl.
Qed.

(** X25: no pass touches the configuration of the engine, and no pass
    rewrites the log: whenever one of the passes returns, the engine it
    returns has the thresholds, methods and switches it was built with,
    and its log starts with the log it had before the pass. *)
Theorem passes_extend_log `{Libraries} (self self' : DataCleaner) (df df' : DataFrame)
    (strategy : string) :
  remove_duplicates self df = (df', self') ∨
  handle_missing_values self df strategy = Ok (df', self') ∨
  standardize_columns self df = (df', self') ∨
  fix_data_types self df = Ok (df', self') ∨
  detect_outliers self df = Ok (df', self') ∨
  normalize_text self df = Ok (df', self') ∨
  deduplicate_text_fuzzy self df = Ok (df', self') ∨
  drop_high_nullity_columns self df = Ok (df', self') ∨
  scale_numeric_columns self df = Ok (df', self') →
  extends self self'.
Proof.
  intros [Hrun|[Hrun|[Hrun|[Hrun|[Hrun|[Hrun|[Hrun|[Hrun|Hrun]]]]]]]].
  - unfold remove_duplicates in Hrun. injection Hrun as _ <-. apply extends_log.
  - unfold handle_missing_values in Hrun.
    apply bind_Ok_inv in Hrun as (st & Hloop & [= _ <-]).
    apply (for_each_extends _ snd) in Hloop; [exact Hloop|].
    apply handle_missing_column_extends.
  - unfold standardize_columns in Hrun. injection Hrun as _ <-. apply extends_log.
  - apply (for_each_extends _ snd) in Hrun; [exact Hrun|apply fix_column_extends].
  - unfold detect_outliers in Hrun.
    destruct (negb (length (numeric_labels df) =? 0)%nat).
    2:{ injection Hrun as _ <-. apply extends_refl. }
    destruct (String.eqb (outlier_method self) "iqr").
    { apply (for_each_extends _ snd) in Hrun; [exact Hrun|apply iqr_column_extends]. }
    destruct (String.eqb (outlier_method self) "isolation_forest").
    2:{ injection Hrun as _ <-. apply extends_refl. }
    apply bind_Ok_inv in Hrun as (data & _ & Hrun).
    apply bind_Ok_inv in Hrun as (ls & _ & Hrun).
    apply (for_each_extends _ snd) in Hrun; [exact Hrun|].
    apply isolation_column_extends.
  - apply (for_each_extends _ snd) in Hrun; [exact Hrun|apply normalize_column_extends].
  - apply (for_each_extends _ snd) in Hrun; [exact Hrun|apply dedup_column_extends].
  - apply (for_each_extends _ snd) in Hrun; [exact Hrun|apply drop_if_high_extends].
  - unfold scale_numeric_columns in Hrun. destruct (negb (scale_numeric self)).
    { injection Hrun as _ <-. apply extends_refl. }
    apply (for_each_extends _ snd) in Hrun; [exact Hrun|apply scale_column_extends].
Qed.

(** The theorem on the run of [detect_outliers] that caps 100. *)
Lemma passes_extend_log_witness :
  detect_outliers (H := sample_libraries) default_cleaner outlier_frame
  = Ok ({| index := [0; 1; 2; 3; 4]%Z;
           columns := [ {| col_name := "x"; col_dtype := Int64;
                           cells := int_cells [1; 2; 3; 4; 7]%Z |} ] |},
        log "Capped 1 outliers in 'x'" default_cleaner) ∧
  extends default_cleaner (log "Capped 1 outliers in 'x'" default_cleaner).
Proof.
  assert (detect_outliers (H := sample_libraries) default_cleaner outlier_frame
          = Ok ({| index := [0; 1; 2; 3; 4]%Z;
                   columns := [ {| col_name := "x"; col_dtype := Int64;
                                   cells := int_cells [1; 2; 3; 4; 7]%Z |} ] |},
                log "Capped 1 outliers in 'x'" default_cleaner)) as Hrun.
  { vm_compute. reflexivity. }
  split; [exact Hrun|].
  apply (passes_extend_log (H := sample_libraries) default_cleaner
           (log "Capped 1 outliers in 'x'" default_cleaner) outlier_frame
           {| index := [0; 1; 2; 3; 4]%Z;
              columns := [ {| col_name := "x"; col_dtype := Int64;
                              cells := int_cells [1; 2; 3; 4; 7]%Z |} ] |} "auto").
  do 4 right. left. exact Hrun.
Defined.

(** ** Capping: the quartiles are ordered, and the capped values are
    within the fences *)

Lemma Qleb_le (a b : Q) : Qleb a b = true ↔ (a <= b)%Q.
Proof.
  unfold Qleb. rewrite orb_true_iff, Qlt_bool_iff, Qeq_bool_iff. split.
  - intros [Hlt|Heq]; [by apply Qlt_le_weak|]. rewrite Heq. apply Qle_refl.
  - intros Hle. apply Qle_lteq in Hle. tauto.
Qed.

Lemma Qleb_total (a b : Q) : Qleb a b = false → (b <= a)%Q.
Proof.
  intros Hf. destruct (Qlt_le_dec a b) as [Hlt|Hle]; [|done].
  apply Qlt_le_weak, Qleb_le in Hlt. congruence.
Qed.

Lemma insert_by_fin (x : Q) (l : list Q) :
  insert_by real_leb (Fin x) (map Fin l) = map Fin (insert_by Qleb x l).
Proof.
  induction l as [|y l IH]; [done|]. cbn [map insert_by].
  change (real_leb (Fin x) (Fin y)) with (Qleb x y).
  destruct (Qleb x y); [done|]. cbn [map]. by rewrite IH.
Qed.

Lemma sort_by_fin (l : list Q) :
  sort_by real_leb (map Fin l) = map Fin (sort_by Qleb l).
Proof.
  unfold sort_by. induction l as [|x l IH]; [done|].
  cbn [map foldr]. by rewrite IH, insert_by_fin.
Qed.

Lemma length_insert_by {A} (leb : A → A → bool) (x : A) (l : list A) :
  length (insert_by leb x l) = S (length l).
Proof.
  induction l as [|y l IH]; [done|]. cbn [insert_by].
  destruct (leb x y); cbn [length]; [done|]. by rewrite IH.
Qed.

Lemma length_sort_by {A} (leb : A → A → bool) (l : list A) :
  length (sort_by leb l) = length l.
Proof.
  unfold sort_by. induction l as [|x l IH]; [done|].
  cbn [foldr length]. by rewrite length_insert_by, IH.
Qed.

Lemma insert_by_sorted (x : Q) (l : list Q) :
  StronglySorted Qle l → StronglySorted Qle (insert_by Qleb x l).
Proof.
  induction 1 as [|y l Hs IH Hy]; cbn [insert_by].
  - by repeat constructor.
  - destruct (Qleb x y) eqn:Hxy.
    + apply Qleb_le in Hxy. constructor; [by constructor|].
      constructor; [done|]. eapply Forall_impl; [exact Hy|].
      intros z Hz. by eapply Qle_trans.
    + apply Qleb_total in Hxy. constructor; [done|].
      apply Forall_forall. intros z Hz%insert_by_elem.
      destruct Hz as [->|Hz]; [done|].
      eapply Forall_forall in Hy; [exact Hy|done].
Qed.

Lemma sort_by_sorted (l : list Q) : StronglySorted Qle (sort_by Qleb l).
Proof.
  unfold sort_by. induction l as [|x l IH]; [constructor|].
  cbn [foldr]. by apply insert_by_sorted.
Qed.

Lemma sorted_lookup_le (l : list Q) (i j : nat) (x y : Q) :
  StronglySorted Qle l → (i ≤ j)%nat →
  l !! i = Some x → l !! j = Some y → (x <= y)%Q.
Proof.
  intros Hs. revert i j. induction Hs as [|z l Hs IH Hz]; intros i j Hij Hi Hj.
  - done.
  - destruct i as [|i], j as [|j]; simpl in Hi, Hj.
    + simplify_eq. apply Qle_refl.
    + simplify_eq. eapply Forall_forall in Hz; [exact Hz|].
      by eapply list_elem_of_lookup_2.
    + lia.
    + apply (IH i j); [lia|done|done].
Qed.

Lemma place_facts (n : nat) (q : Q) :
  (0 < n)%nat → (0 <= q)%Q → (q <= 1)%Q →
  (place_below n q ≤ place_above n q)%nat ∧ (place_above n q ≤ n - 1)%nat ∧
  (place_above n q ≤ place_below n q + 1)%nat ∧
  (0 <= place_weight n q)%Q ∧ (place_weight n q <= 1)%Q.
Proof.
  intros Hn Hq0 Hq1. unfold place_above, place_weight, place_below.
  set (m := inject_Z (Z.of_nat (n - 1))).
  assert (0 <= m)%Q as Hm by (unfold m, Qle; simpl; lia).
  assert (0 <= m * q)%Q as Hvi0 by (by apply Qmult_le_0_compat).
  assert (m * q <= m)%Q as Hvi1.
  { rewrite <- (Qmult_1_r m) at 2. rewrite !(Qmult_comm m).
    by apply Qmult_le_compat_r. }
  assert (0 ≤ Qfloor (m * q))%Z as Hf0.
  { change 0%Z with (Qfloor 0). by apply Qfloor_resp_le. }
  assert (Qfloor (m * q) ≤ Z.of_nat (n - 1))%Z as Hf1.
  { rewrite <- (Qfloor_Z (Z.of_nat (n - 1))). by apply Qfloor_resp_le. }
  rewrite Z2Nat.id by done.
  pose proof (Qfloor_le (m * q)) as Hle. pose proof (Qlt_floor (m * q)) as Hlt.
  rewrite inject_Z_plus in Hlt. change (inject_Z 1) with 1%Q in Hlt.
  set (vi := (m * q)%Q) in *. set (fl := inject_Z (Qfloor vi)) in *.
  split; [lia|]. split; [lia|]. split; [lia|]. split; lra.
Qed.

Lemma place_below_mono (n : nat) (q1 q2 : Q) :
  (0 <= q1)%Q → (q1 <= q2)%Q → (place_below n q1 ≤ place_below n q2)%nat.
Proof.
  intros Hq1 Hq12. unfold place_below. apply Z2Nat.inj_le.
  - change 0%Z with (Qfloor 0). apply Qfloor_resp_le.
    apply Qmult_le_0_compat; [unfold Qle; simpl; lia|done].
  - change 0%Z with (Qfloor 0). apply Qfloor_resp_le.
    apply Qmult_le_0_compat; [unfold Qle; simpl; lia|].
    by eapply Qle_trans.
  - apply Qfloor_resp_le. rewrite !(Qmult_comm (inject_Z _)).
    apply Qmult_le_compat_r; [done|]. unfold Qle. simpl. lia.
Qed.

Lemma lerp_fin (a b g : Q) :
  ∃ v, lerp (Some (Fin a)) (Some (Fin b)) (Some (Fin g)) = Some (Fin v) ∧
       (v == a + (b - a) * g)%Q.
Proof.
  unfold lerp, fsub, fneg, fadd, fmul, flt, real_ltb.
  destruct (Qlt_bool g (1 # 2)); (eexists; split; [reflexivity|]);
    rewrite !Qred_correct; ring.
Qed.

(** The quantile of finitely many finite numbers lies between two
    neighbours of the sorted list. *)
Lemma quantile_fin (xs : list float) (qs : list Q) (q : Q) :
  dropna_floats xs = map Fin qs → qs ≠ [] → (0 <= q)%Q → (q <= 1)%Q →
  ∃ a b v, sort_by Qleb qs !! place_below (length qs) q = Some a ∧
           sort_by Qleb qs !! place_above (length qs) q = Some b ∧
           quantile xs q = Some (Fin v) ∧
           (v == a + (b - a) * place_weight (length qs) q)%Q ∧
           (a <= v)%Q ∧ (v <= b)%Q.
Proof.
  intros Hd Hne Hq0 Hq1.
  assert (0 < length qs)%nat as Hn by (destruct qs; [done|simpl; lia]).
  destruct (place_facts (length qs) q Hn Hq0 Hq1) as (Hba & Han & _ & Hw0 & Hw1).
  destruct (lookup_lt_is_Some_2 (sort_by Qleb qs) (place_below (length qs) q))
    as [a Ha]; [rewrite length_sort_by; lia|].
  destruct (lookup_lt_is_Some_2 (sort_by Qleb qs) (place_above (length qs) q))
    as [b Hb]; [rewrite length_sort_by; lia|].
  assert (a <= b)%Q as Hab.
  { by eapply (sorted_lookup_le _ _ _ a b (sort_by_sorted qs) Hba). }
  destruct (lerp_fin a b (place_weight (length qs) q)) as (v & Hv & Heq).
  exists a, b, v. split; [done|]. split; [done|]. split.
  - unfold quantile. rewrite Hd, sort_by_fin, length_map, length_sort_by.
    assert ((length qs =? 0)%nat = false) as -> by (apply Nat.eqb_neq; lia).
    fold (place_below (length qs) q). fold (place_above (length qs) q).
    fold (place_weight (length qs) q).
    rewrite !list_lookup_fmap, Ha, Hb. exact Hv.
  - split; [exact Heq|]. rewrite Heq.
    assert (0 <= (b - a) * place_weight (length qs) q)%Q as Hp0.
    { apply Qmult_le_0_compat; [lra|done]. }
    assert ((b - a) * place_weight (length qs) q <= (b - a) * 1)%Q as Hp1.
    { rewrite !(Qmult_comm (b - a)). apply Qmult_le_compat_r; [done|lra]. }
    split; lra.
Qed.

(** The quantile grows with its level. *)
Lemma quantile_mono (xs : list float) (qs : list Q) (q1 q2 : Q) :
  dropna_floats xs = map Fin qs → qs ≠ [] →
  (0 <= q1)%Q → (q1 <= q2)%Q → (q2 <= 1)%Q →
  ∃ v1 v2, quantile xs q1 = Some (Fin v1) ∧ quantile xs q2 = Some (Fin v2) ∧
           (v1 <= v2)%Q.
Proof.
  intros Hd Hne Hq1 Hq12 Hq2.
  assert (0 <= q2)%Q as Hq2' by (by eapply Qle_trans).
  assert (q1 <= 1)%Q as Hq1' by (by eapply Qle_trans).
  assert (0 < length qs)%nat as Hn by (destruct qs; [done|simpl; lia]).
  destruct (quantile_fin xs qs q1 Hd Hne Hq1 Hq1')
    as (a1 & b1 & v1 & Ha1 & Hb1 & Hv1 & He1 & Hl1 & Hu1).
  destruct (quantile_fin xs qs q2 Hd Hne Hq2' Hq2)
    as (a2 & b2 & v2 & Ha2 & Hb2 & Hv2 & He2 & Hl2 & Hu2).
  exists v1, v2. split; [done|]. split; [done|].
  pose proof (place_below_mono (length qs) q1 q2 Hq1 Hq12) as Hmono.
  destruct (place_facts (length qs) q1 Hn Hq1 Hq1') as (_ & _ & Hab1 & _ & _).
  destruct (decide (place_below (length qs) q1 = place_below (length qs) q2))
    as [Hsame|Hdiff].
  - assert (place_above (length qs) q1 = place_above (length qs) q2) as Hsame'.
    { unfold place_above. by rewrite Hsame. }
    rewrite Hsame in Ha1. rewrite Hsame' in Hb1.
    assert (a1 = a2) as -> by congruence. assert (b1 = b2) as -> by congruence.
    rewrite He1, He2.
    assert (a2 <= b2)%Q as Hab by (by eapply Qle_trans).
    assert (place_weight (length qs) q1 <= place_weight (length qs) q2)%Q as Hw.
    { unfold place_weight. rewrite Hsame.
      assert (inject_Z (Z.of_nat (length qs - 1)) * q1
              <= inject_Z (Z.of_nat (length qs - 1)) * q2)%Q; [|lra].
      rewrite !(Qmult_comm (inject_Z _)).
      apply Qmult_le_compat_r; [done|]. unfold Qle. simpl. lia. }
    assert ((b2 - a2) * place_weight (length qs) q1
            <= (b2 - a2) * place_weight (length qs) q2)%Q; [|lra].
    rewrite !(Qmult_comm (b2 - a2)). apply Qmult_le_compat_r; [done|lra].
  - assert (b1 <= a2)%Q as Hba.
    { eapply (sorted_lookup_le _ _ _ b1 a2 (sort_by_sorted qs)); [|done|done]. lia. }
    lra.
Qed.

Lemma finite_dropna (l : list cell) :
  Forall (λ x, x = None ∨ ∃ q, x = Some (Num (Fin q))) l →
  ∃ qs, dropna_floats (floats_of l) = map Fin qs ∧
        ∀ q, q ∈ qs ↔ Some (Num (Fin q)) ∈ l.
Proof.
  induction 1 as [|x l Hx _ (qs & Hqs & Hin)].
  - exists []. split; [done|]. intros q. by rewrite !elem_of_nil.
  - destruct Hx as [->|[q0 ->]].
    + exists qs. split; [exact Hqs|]. intros q. rewrite Hin, elem_of_cons.
      split; [by right|by intros [?|?]].
    + exists (q0 :: qs). split.
      * unfold dropna_floats, floats_of in *. cbn. f_equal. exact Hqs.
      * intros q. rewrite !elem_of_cons, Hin. split.
        -- intros [->|?]; [by left|by right].
        -- intros [[= ->]|?]; [by left|by right].
Qed.

(** The fences of a column of finite numbers are finite and ordered. *)
Lemma iqr_bounds_ordered (l : list cell) :
  Forall (λ x, x = None ∨ ∃ q, x = Some (Num (Fin q))) l →
  (∃ q, Some (Num (Fin q)) ∈ l) →
  ∃ lo hi, iqr_bounds (floats_of l) = (Some (Fin lo), Some (Fin hi)) ∧ (lo <= hi)%Q.
Proof.
  intros Hfin [q0 Hq0]. destruct (finite_dropna l Hfin) as (qs & Hd & Hin).
  assert (qs ≠ []) as Hne.
  { intros ->. apply Hin in Hq0. by apply elem_of_nil in Hq0. }
  destruct (quantile_mono (floats_of l) qs (1 # 4) (3 # 4) Hd Hne)
    as (v1 & v3 & H1 & H3 & Hle); [done..|].
  unfold iqr_bounds. rewrite H1, H3.
  unfold fsub, fneg, fadd, fmul. eexists _, _. split; [reflexivity|].
  rewrite !Qred_correct. lra.
Qed.

Lemma cap_step (i : list Z) (pre post : list Column) (c : Column) (self : DataCleaner) :
  outlier_action self = "cap" →
  NoDup (map col_name (pre ++ c :: post)) →
  is_numeric (col_dtype c) = true → numbers_only c →
  iqr_column (col_name c) ({| index := i; columns := pre ++ c :: post |}, self)
  = Ok ({| index := i; columns := pre ++ capped c :: post |},
        if (0 <? count_true (iqr_outliers c))%nat then log (cap_entry c) self else self).
Proof.
  intros Hact Hnd Hnum Hn. rewrite (iqr_column_handle i pre post c self Hnd Hn).
  unfold _handle_outliers, capped, has_outliers. rewrite Hnum. cbn [andb].
  destruct (0 <? count_true (iqr_outliers c))%nat; [|done].
  rewrite Hact. change (String.eqb "cap" "cap") with true. cbn iota.
  rewrite (getitem_mid i pre post c Hnd), bind_Ok.
  rewrite (to_floats_numbers _ Hn), !bind_Ok. cbn [snd].
  rewrite log_last_log, bind_Ok.
  by rewrite (setitem_mid i pre post c _ _ Hnd).
Qed.

Lemma assign_where_map {A} (g : A → bool) (h : A → A) (xs : list A) :
  (fix assign (mask : list bool) (new old : list A) : list A :=
     match mask, new, old with
     | b :: mask', n :: new', o :: old' => (if b then n else o) :: assign mask' new' old'
     | _, _, _ => old
     end) (map g xs) (map h xs) xs
  = map (λ x, if g x then h x else x) xs.
Proof. induction xs as [|x xs IH]; [done|]. cbn [map]. by rewrite IH. Qed.

Lemma count_true_none (mask : list bool) :
  (0 <? count_true mask)%nat = false → Forall (λ b, b = false) mask.
Proof.
  unfold count_true. intros Hc%Nat.ltb_ge.
  induction mask as [|b mask IH]; [constructor|].
  destruct b; simpl in Hc; [lia|]. constructor; [done|]. by apply IH.
Qed.

(** The action "cap" in the exact arithmetic of [iqr_bounds]: the columns
    capped are those with an entry outside these fences. *)
Lemma cap_exact `{Libraries} (self : DataCleaner) (df : DataFrame) :
  outlier_method self = "iqr" → outlier_action self = "cap" →
  unique_labels df → well_typed df →
  let df' := {| index := index df; columns := map capped (columns df) |} in
  detect_outliers self df
  = Ok (df', logs (map cap_entry (List.filter has_outliers (columns df))) self) ∧
  labels df' = labels df ∧
  (∀ c, c ∈ columns df ∧ is_numeric (col_dtype c) = true ∧ finite_numbers c ∧
        (∃ q, Some (Num (Fin q)) ∈ cells c) →
     ∃ lo hi, iqr_bounds (floats_of (cells c)) = (Some (Fin lo), Some (Fin hi)) ∧
              (lo <= hi)%Q ∧
              Forall2 (within lo hi) (cells (capped c)) (cells c)).
Proof.
  intros Hm Hact Hnd Hty df'.
  assert (∀ c, col_name (capped c) = col_name c) as Hname.
  { intros c. unfold capped. by destruct (has_outliers c). }
  split; [|split].
  - rewrite (detect_outliers_iqr self df Hm). destruct df as [i cs].
    unfold numeric_labels, df'. cbn [columns index] in *.
    pose proof (column_loop (λ df (t : DataCleaner), (df, t)) iqr_column
                  (λ c, is_numeric (col_dtype c)) capped
                  (λ c t, if (0 <? count_true (iqr_outliers c))%nat
                          then log (cap_entry c) t else t)
                  numbers_only (λ t, outlier_action t = "cap") Hname) as Hloop.
    specialize (Hloop ltac:(by intros c t Ht; cbn beta; case_match)).
    specialize (Hloop ltac:(by intros i0 pre post c t Hn Hc Hnum Ht; apply cap_step)).
    specialize (Hloop cs [] i self Hnd Hty Hact). cbn [app] in Hloop.
    rewrite Hloop. f_equal. f_equal.
    + f_equal. apply list_fmap_ext. intros _ c _. simpl.
      unfold capped, has_outliers. by destruct (is_numeric (col_dtype c)).
    + clear. generalize self. induction cs as [|c cs IH]; intros t; [done|].
      cbn [List.filter].
      assert (has_outliers c = is_numeric (col_dtype c)
                               && (0 <? count_true (iqr_outliers c))%nat) as -> by done.
      destruct (is_numeric (col_dtype c)); cbn [andb foldl]; [|apply IH].
      destruct (0 <? count_true (iqr_outliers c))%nat; cbn [map]; rewrite IH; done.
  - unfold labels, df'. cbn [columns]. rewrite <- list_fmap_compose.
    apply list_fmap_ext. intros _ c _. apply Hname.
  - intros c (Hc & Hnum & Hfin & Hval).
    destruct (iqr_bounds_ordered (cells c) Hfin Hval) as (lo & hi & Hb & Hle).
    exists lo, hi. split; [exact Hb|]. split; [exact Hle|].
    assert (∀ k old, cells c !! k = Some old →
              within lo hi
                (float_cell
                   (let x := match old with Some (Num y) => Some y | _ => None end in
                    if flt x (Some (Fin lo)) || fgt x (Some (Fin hi))
                    then clip (Some (Fin lo)) (Some (Fin hi)) x else x)) old ∧
              ((flt (match old with Some (Num y) => Some y | _ => None end)
                    (Some (Fin lo))
                || fgt (match old with Some (Num y) => Some y | _ => None end)
                       (Some (Fin hi))) = false → within lo hi old old)) as Hcell.
    { intros k old Hk. eapply Forall_forall in Hfin; [|by eapply list_elem_of_lookup_2].
      destruct Hfin as [->|[x ->]]; [done|]. cbn zeta.
      unfold clip, fgt, flt, real_ltb, within, float_cell. cbn [fmap option_fmap option_map].
      destruct (Qlt_bool x lo) eqn:Hlo; cbn [orb].
      - apply Qlt_bool_iff in Hlo. split; [|done].
        exists lo. split; [done|]. split; [lra|]. split; [done|]. intros [? _]. lra.
      - assert (lo <= x)%Q as Hlo'.
        { apply Qnot_lt_le. intros Hlt%Qlt_bool_iff. congruence. }
        destruct (Qlt_bool hi x) eqn:Hhi.
        + apply Qlt_bool_iff in Hhi. split; [|done].
          exists hi. split; [done|]. split; [done|]. split; [lra|]. intros [_ ?]. lra.
        + assert (x <= hi)%Q as Hhi'.
          { apply Qnot_lt_le. intros Hlt%Qlt_bool_iff. congruence. }
          split; [|intros _]; by exists x. }
    unfold capped. destruct (has_outliers c) eqn:Hout; cbn [cells].
    + unfold iqr_outliers. rewrite Hb. cbn [fst snd].
      change assign_where with
        (fix assign (mask : list bool) (new old : list float) : list float :=
           match mask, new, old with
           | b :: mask', n :: new', o :: old' =>
               (if b then n else o) :: assign mask' new' old'
           | _, _, _ => old
           end).
      rewrite (assign_where_map
                 (λ x, flt x (Some (Fin lo)) || fgt x (Some (Fin hi)))
                 (clip (Some (Fin lo)) (Some (Fin hi)))).
      unfold floats_of. rewrite <- !list_fmap_compose.
      apply Forall2_fmap_l, Forall2_same_length_lookup_2; [done|].
      intros k x y Hx Hy. assert (x = y) as -> by congruence.
      exact (proj1 (Hcell k y Hy)).
    + apply Forall2_same_length_lookup_2; [done|].
      intros k x y Hx Hy. assert (x = y) as -> by congruence.
      apply (proj2 (Hcell k y Hy)).
      unfold has_outliers in Hout. rewrite Hnum in Hout. cbn [andb] in Hout.
      apply count_true_none in Hout. unfold iqr_outliers in Hout.
      rewrite Hb in Hout. cbn [fst snd] in Hout.
      unfold floats_of in Hout. rewrite <- list_fmap_compose in Hout.
      apply Forall_fmap in Hout. eapply Forall_forall in Hout;
        [exact Hout|by eapply list_elem_of_lookup_2].
Qed.

Lemma actions_logs (entries : list string) (self : DataCleaner) :
  actions (logs entries self) = actions self ++ entries.
Proof.
  unfold logs. revert self. induction entries as [|e l IH]; intros self; cbn [foldl].
  - by rewrite app_nil_r.
  - rewrite IH. simpl. by rewrite <- app_assoc.
Qed.

Lemma count_true_le (mask : list bool) : (count_true mask ≤ length mask)%nat.
Proof. unfold count_true. apply List.filter_length_le. Qed.

(** X26: with the method "iqr" and the action "cap", on a frame with
    unique labels and unique row labels whose numeric columns hold
    numbers, [detect_outliers] returns a frame with the row index and the
    labels of the input, and logs "Capped" entries for some of the
    numeric columns, in the order of the frame, each with a count between
    one and the number of rows.  For a numeric column that holds finite
    numbers of absolute value at most [2^53], one at least, there is a
    pair of ordered fences such that every number of the capped column
    lies within them, a number that was within them is kept, and a
    missing cell stays missing. *)
Theorem cap_within_fences `{Libraries} (self : DataCleaner) (df : DataFrame) :
  outlier_method self = "iqr" → outlier_action self = "cap" →
  unique_labels df → NoDup (index df) → well_typed df →
  ∃ (df' : DataFrame) (self' : DataCleaner) (counts : list (Column * nat)),
    detect_outliers self df = Ok (df', self') ∧
    index df' = index df ∧ labels df' = labels df ∧
    actions self' = actions self ++ map cap_line counts ∧
    map fst counts `sublist_of` numeric_columns df ∧
    Forall (λ ck, (0 < ck.2)%nat ∧ (ck.2 ≤ length (cells ck.1))%nat) counts ∧
    (∀ c, c ∈ columns df ∧ is_numeric (col_dtype c) = true ∧ finite_numbers c ∧
          moderate c ∧ (∃ q, Some (Num (Fin q)) ∈ cells c) →
       ∃ c' lo hi, c' ∈ columns df' ∧ col_name c' = col_name c ∧ (lo <= hi)%Q ∧
                   Forall2 (within lo hi) (cells c') (cells c)).
Proof.
  intros Hm Hact Hnd _ Hty.
  destruct (cap_exact self df Hm Hact Hnd Hty) as (Hrun & Hlab & Hcol).
  cbn zeta in Hrun, Hlab, Hcol.
  set (flagged := List.filter has_outliers (columns df)) in *.
  exists {| index := index df; columns := map capped (columns df) |},
         (logs (map cap_entry flagged) self),
         (map (λ c, (c, count_true (iqr_outliers c))) flagged).
  assert (map fst (map (λ c, (c, count_true (iqr_outliers c))) flagged) = flagged)
    as Hfst.
  { rewrite <- list_fmap_compose. apply map_fix_elem. by intros c _. }
  rewrite Hfst.
  split; [exact Hrun|]. split; [done|]. split; [exact Hlab|].
  split; [|split; [|split]].
  - rewrite actions_logs. f_equal. rewrite <- list_fmap_compose.
    apply list_fmap_ext. by intros _ c _.
  - apply filter_and_sublist.
  - apply Forall_forall. intros ck (c & -> & Hc)%list_elem_of_fmap. cbn [fst snd].
    apply list_elem_of_In, filter_In in Hc as [_ [_ Hpos%Nat.ltb_lt]%andb_true_iff].
    split; [exact Hpos|].
    etrans; [apply count_true_le|].
    unfold iqr_outliers, floats_of. by rewrite !length_map.
  - intros c (Hc & Hnum & Hfin & _ & Hval).
    destruct (Hcol c) as (lo & hi & _ & Hle & Hin); [done|].
    exists (capped c), lo, hi. split; [by apply list_elem_of_fmap_2|].
    split; [|done]. unfold capped. by destruct (has_outliers c).
Qed.

(** The theorem on the column [1, 2, 3, 4, 100] of the outlier example. *)
Lemma cap_within_fences_witness :
  unique_labels outlier_frame ∧ NoDup (index outlier_frame) ∧
  well_typed outlier_frame ∧
  ∃ (df' : DataFrame) (self' : DataCleaner) (c' : Column) (lo hi : Q),
    detect_outliers (H := sample_libraries) default_cleaner outlier_frame
    = Ok (df', self') ∧
    c' ∈ columns df' ∧ col_name c' = "x" ∧ (lo <= hi)%Q ∧
    Forall2 (within lo hi) (cells c') (int_cells [1; 2; 3; 4; 100]%Z).
Proof.
  assert (unique_labels outlier_frame) as Hnd.
  { apply (bool_decide_unpack _). vm_compute. exact I. }
  assert (NoDup (index outlier_frame)) as Hrows.
  { apply (bool_decide_unpack _). vm_compute. exact I. }
  assert (well_typed outlier_frame) as Hty.
  { apply Forall_cons_2; [|apply Forall_nil_2]. intros _.
    unfold numbers_only. simpl. by repeat constructor. }
  split; [exact Hnd|]. split; [exact Hrows|]. split; [exact Hty|].
  destruct (cap_within_fences (H := sample_libraries) default_cleaner outlier_frame
              eq_refl eq_refl Hnd Hrows Hty)
    as (df' & self' & counts & Hrun & _ & _ & _ & _ & _ & Hcol).
  destruct (Hcol {| col_name := "x"; col_dtype := Int64;
                    cells := int_cells [1; 2; 3; 4; 100]%Z |})
    as (c' & lo & hi & Hc' & Hname & Hle & Hin).
  { split; [by left|]. split; [reflexivity|]. split; [|split].
    - unfold finite_numbers. simpl. repeat (apply Forall_cons_2; [right; by eexists|]).
      apply Forall_nil_2.
    - intros q Hq. simpl in Hq. set_unfold.
      destruct Hq as [Hq|[Hq|[Hq|[Hq|[Hq|[]]]]]]; injection Hq as ->; done.
    - exists 1%Q. by left. }
  exists df', self', c', lo, hi. by repeat split.
Defined.

(** ** Outliers: the action "remove" *)

Lemma mask_select_twice {A} (m m2 : list bool) (l : list A) :
  mask_select m2 (mask_select m l) = mask_select (compose_mask m m2) l.
Proof.
  revert m2 l. induction m as [|b m IH]; intros m2 l.
  - by destruct m2.
  - destruct l as [|x l].
    { destruct b; [|by destruct m2]. destruct m2; [done|]. by destruct m2. }
    destruct b; cbn [mask_select compose_mask].
    + destruct m2 as [|b2 m2]; [done|]. cbn [mask_select].
      destruct b2; by rewrite IH.
    + apply IH.
Qed.

Lemma select_rows_twice (m m2 : list bool) (df : DataFrame) :
  select_rows m2 (select_rows m df) = select_rows (compose_mask m m2) df.
Proof.
  unfold select_rows. simpl. f_equal; [apply mask_select_twice|].
  rewrite <- list_fmap_compose. apply list_fmap_ext. intros k c _. simpl.
  unfold with_cells. simpl. f_equal. apply mask_select_twice.
Qed.

Lemma numbers_only_select (mask : list bool) (c : Column) :
  numbers_only c → numbers_only (with_cells c (mask_select mask (cells c))).
Proof.
  unfold numbers_only. intros Hn. simpl. apply Forall_forall.
  intros x (i & _ & Hx)%mask_select_elem.
  eapply Forall_forall in Hn; [exact Hn|by eapply list_elem_of_lookup_2].
Qed.

Lemma remove_step (df : DataFrame) (mask : list bool) (c : Column) (self : DataCleaner) :
  unique_labels df → c ∈ columns df → numbers_only c →
  outlier_action self = "remove" →
  ∃ mask' self',
    iqr_column (col_name c) (select_rows mask df, self)
    = Ok (select_rows mask' df, self') ∧ outlier_action self' = "remove".
Proof.
  intros Hnd Hc Hn Hact. unfold iqr_column.
  rewrite (getitem_select_rows mask df c Hnd Hc), bind_Ok.
  rewrite (to_floats_numbers _ (numbers_only_select mask c Hn)), bind_Ok.
  cbn beta zeta. unfold _handle_outliers.
  destruct (0 <? count_true _)%nat; [|by exists mask, self].
  rewrite Hact. change (String.eqb "remove" "cap") with false.
  change (String.eqb "remove" "remove") with true. cbn iota.
  rewrite bind_Ok. cbn [snd]. rewrite log_last_log, bind_Ok.
  unfold drop_rows. rewrite select_rows_twice. by eexists _, _.
Qed.

Lemma remove_loop (df : DataFrame) (todo : list Column) (mask : list bool)
    (self : DataCleaner) :
  unique_labels df →
  Forall (λ c, c ∈ columns df ∧ numbers_only c) todo →
  outlier_action self = "remove" →
  ∃ mask' self',
    for_each iqr_column (map col_name todo) (select_rows mask df, self)
    = Ok (select_rows mask' df, self').
Proof.
  intros Hnd. revert mask self.
  induction todo as [|c todo IH]; intros mask self Hall Hact.
  - by exists mask, self.
  - apply Forall_cons in Hall as [[Hc Hn] Hall].
    destruct (remove_step df mask c self Hnd Hc Hn Hact) as (m1 & s1 & Hstep & Hact1).
    cbn [map]. erewrite for_each_cons by exact Hstep. by apply IH.
Qed.

(** X27: with the method "iqr" and the action "remove", on an aligned
    frame with unique labels whose numeric columns hold numbers,
    [detect_outliers] returns, and what it returns is a selection of the
    rows of the input: the columns keep their labels, dtypes and order,
    the cells of every column and the row labels are those of the
    selected rows, in their order, so that no value is altered. *)
Theorem remove_selects_rows `{Libraries} (self : DataCleaner) (df : DataFrame) :
  outlier_method self = "iqr" → outlier_action self = "remove" →
  unique_labels df → well_typed df → aligned df →
  ∃ mask self',
    detect_outliers self df = Ok (select_rows mask df, self') ∧
    labels (select_rows mask df) = labels df ∧
    map col_dtype (columns (select_rows mask df)) = map col_dtype (columns df) ∧
    aligned (select_rows mask df) ∧
    (nrows (select_rows mask df) ≤ nrows df)%nat.
Proof.
  intros Hm Hact Hnd Hty Hal.
  rewrite (detect_outliers_iqr self df Hm). unfold numeric_labels.
  destruct (remove_loop df (List.filter (λ c, is_numeric (col_dtype c)) (columns df))
              (replicate (nrows df) true) self Hnd) as (mask & self' & Hrun); [|done|].
  { apply Forall_forall. intros c [Hc Hnum]%filter_elem. split; [done|].
    eapply Forall_forall in Hty; [|exact Hc]. by apply Hty. }
  rewrite select_rows_all in Hrun;
    [|done|by apply Forall_replicate|by rewrite length_replicate].
  exists mask, self'. split; [exact Hrun|].
  destruct (select_rows_shape mask df) as [Hl Hd].
  split; [exact Hl|]. split; [exact Hd|]. split; [by apply select_rows_aligned|].
  unfold nrows, select_rows. simpl. apply length_mask_select_le.
Qed.

(** The theorem on the column [1, 2, 3, 4, 100]: the row of 100 goes. *)
Lemma remove_selects_rows_witness :
  unique_labels outlier_frame ∧ well_typed outlier_frame ∧ aligned outlier_frame ∧
  ∃ mask self',
    detect_outliers (H := sample_libraries) (cleaner_with_action "remove") outlier_frame
    = Ok (select_rows mask outlier_frame, self') ∧
    labels (select_rows mask outlier_frame) = labels outlier_frame ∧
    (nrows (select_rows mask outlier_frame) ≤ nrows outlier_frame)%nat.
Proof.
  assert (unique_labels outlier_frame) as Hnd.
  { apply (bool_decide_unpack _). vm_compute. exact I. }
  assert (well_typed outlier_frame) as Hty.
  { apply Forall_cons_2; [|apply Forall_nil_2]. intros _.
    unfold numbers_only. simpl. by repeat constructor. }
  assert (aligned outlier_frame) as Hal.
  { apply Forall_cons_2; [reflexivity|apply Forall_nil_2]. }
  split; [exact Hnd|]. split; [exact Hty|]. split; [exact Hal|].
  destruct (remove_selects_rows (H := sample_libraries) (cleaner_with_action "remove")
              outlier_frame eq_refl eq_refl Hnd Hty Hal)
    as (mask & self' & Hrun & Hl & _ & _ & Hrows).
  by exists mask, self'.
Defined.

(** ** The passes that keep the columns *)

Lemma for_each_labels {A S} (body : A → S → result S) (frame : S → DataFrame)
    (l : list A) (s s' : S) :
  (∀ x s1 s2, body x s1 = Ok s2 → labels (frame s2) = labels (frame s1)) →
  for_each body l s = Ok s' → labels (frame s') = labels (frame s).
Proof.
  intros Hstep. apply (for_each_preserves body (λ t, labels (frame t) = labels (frame s))).
  - intros x s1 s2 _ H1 Hb. rewrite <- H1. by eapply Hstep.
  - done.
Qed.

Lemma labels_select_rows (mask : list bool) (df : DataFrame) :
  labels (select_rows mask df) = labels df.
Proof. apply select_rows_shape. Qed.

Lemma handle_missing_column_labels (col : string)
    (s1 s2 : DataFrame * string * DataCleaner) :
  handle_missing_column col s1 = Ok s2 → labels s2.1.1 = labels s1.1.1.
Proof.
  destruct s1 as [[df strategy] self]. unfold handle_missing_column.
  intros (c & _ & Hrun)%bind_Ok_inv.
  destruct (0 <? count_true (map isna (cells c)))%nat; [|by injection Hrun as <-].
  apply bind_Ok_inv in Hrun as (s & _ & Hrun).
  apply bind_Ok_inv in Hrun as (df1 & Hdf1 & [= <-]). cbn [fst].
  unfold apply_strategy in Hdf1.
  destruct (String.eqb s "mean").
  { apply bind_Ok_inv in Hdf1 as (xs & _ & [= <-]). apply labels_setitem. }
  destruct (String.eqb s "median").
  { apply bind_Ok_inv in Hdf1 as (xs & _ & [= <-]). apply labels_setitem. }
  destruct (String.eqb s "mode").
  { apply bind_Ok_inv in Hdf1 as (v & _ & [= <-]). apply labels_setitem. }
  destruct (String.eqb s "drop"); injection Hdf1 as <-; [|done].
  apply labels_select_rows.
Qed.

Lemma fix_column_labels `{Libraries} (col : string) (s1 s2 : DataFrame * DataCleaner) :
  fix_column col s1 = Ok s2 → labels s2.1 = labels s1.1.
Proof.
  destruct s1 as [df self]. unfold fix_column.
  intros (c & _ & [= <-])%bind_Ok_inv. cbn [fst].
  destruct (col_dtype c); [done|done|apply labels_setitem].
Qed.

Lemma handle_outliers_labels (self : DataCleaner) (df : DataFrame) (col : string)
    (outliers : list bool) (lower_bound upper_bound : float)
    (s2 : DataFrame * DataCleaner) :
  _handle_outliers self df col outliers lower_bound upper_bound = Ok s2 →
  labels s2.1 = labels df.
Proof.
  unfold _handle_outliers. destruct (0 <? count_true outliers)%nat.
  2:{ by intros [= <-]. }
  intros (st & Hst & Hrun)%bind_Ok_inv.
  apply bind_Ok_inv in Hrun as (_ & _ & [= <-]).
  destruct (String.eqb (outlier_action self) "cap").
  { apply bind_Ok_inv in Hst as (c & _ & Hst).
    apply bind_Ok_inv in Hst as (xs & _ & [= <-]). apply labels_setitem. }
  destruct (String.eqb (outlier_action self) "remove").
  { injection Hst as <-. apply labels_select_rows. }
  destruct (String.eqb (outlier_action self) "flag"); by injection Hst as <-.
Qed.

Lemma iqr_column_labels (col : string) (s1 s2 : DataFrame * DataCleaner) :
  iqr_column col s1 = Ok s2 → labels s2.1 = labels s1.1.
Proof.
  destruct s1 as [df self]. unfold iqr_column.
  intros (c & _ & Hrun)%bind_Ok_inv. apply bind_Ok_inv in Hrun as (xs & _ & Hrun).
  by apply handle_outliers_labels in Hrun.
Qed.

Lemma isolation_column_labels (outliers : list bool) (col : string)
    (s1 s2 : DataFrame * DataCleaner) :
  isolation_column outliers col s1 = Ok s2 → labels s2.1 = labels s1.1.
Proof.
  destruct s1 as [df self]. unfold isolation_column.
  destruct (negb (length outliers =? nrows df)%nat); [done|].
  intros (c & _ & Hrun)%bind_Ok_inv. apply bind_Ok_inv in Hrun as (xs & _ & Hrun).
  by apply handle_outliers_labels in Hrun.
Qed.

Lemma normalize_column_labels (col : string) (s1 s2 : DataFrame * DataCleaner) :
  normalize_column col s1 = Ok s2 → labels s2.1 = labels s1.1.
Proof.
  destruct s1 as [df self]. unfold normalize_column.
  intros (c & _ & Hrun)%bind_Ok_inv. apply bind_Ok_inv in Hrun as (_ & _ & Hrun).
  destruct (fgt _ _); injection Hrun as <-; [apply labels_setitem|done].
Qed.

Lemma dedup_column_labels `{Libraries} (col : string) (s1 s2 : DataFrame * DataCleaner) :
  dedup_column col s1 = Ok s2 → labels s2.1 = labels s1.1.
Proof.
  destruct s1 as [df self]. unfold dedup_column.
  intros (c & _ & Hrun)%bind_Ok_inv. cbn beta zeta in Hrun.
  destruct (length (unique_vals_of c) <? 2)%nat; [by injection Hrun as <-|].
  apply bind_Ok_inv in Hrun as (m & _ & Hrun).
  destruct (negb (size m =? 0)%nat); injection Hrun as <-; [apply labels_setitem|done].
Qed.

Lemma scale_column_labels `{Libraries} (col : string) (s1 s2 : DataFrame * DataCleaner) :
  scale_column col s1 = Ok s2 → labels s2.1 = labels s1.1.
Proof.
  destruct s1 as [df self]. unfold scale_column.
  intros (st & Hst & Hrun)%bind_Ok_inv.
  apply bind_Ok_inv in Hrun as (_ & _ & [= <-]).
  destruct (String.eqb (scale_method self) "minmax").
  { apply bind_Ok_inv in Hst as (c & _ & Hst).
    apply bind_Ok_inv in Hst as (xs & _ & [= <-]). apply labels_setitem. }
  destruct (String.eqb (scale_method self) "standard").
  { apply bind_Ok_inv in Hst as (c & _ & Hst).
    apply bind_Ok_inv in Hst as (xs & _ & [= <-]). apply labels_setitem. }
  by injection Hst as <-.
Qed.

(** X28: apart from [standardize_columns], which renames, and
    [drop_high_nullity_columns], which drops, no pass adds, drops,
    renames or reorders a column: whenever one of the other passes
    returns, whatever the frame, the strategy and the configuration are,
    the labels of the frame it returns are the labels of its input. *)
Theorem passes_keep_labels `{Libraries} (self self' : DataCleaner) (df df' : DataFrame)
    (strategy : string) :
  remove_duplicates self df = (df', self') ∨
  handle_missing_values self df strategy = Ok (df', self') ∨
  fix_data_types self df = Ok (df', self') ∨
  detect_outliers self df = Ok (df', self') ∨
  normalize_text self df = Ok (df', self') ∨
  deduplicate_text_fuzzy self df = Ok (df', self') ∨
  scale_numeric_columns self df = Ok (df', self') →
  labels df' = labels df.
Proof.
  intros [Hrun|[Hrun|[Hrun|[Hrun|[Hrun|[Hrun|Hrun]]]]]].
  - unfold remove_duplicates in Hrun. injection Hrun as <- _.
    unfold drop_duplicates. destruct (empty df); [done|apply labels_select_rows].
  - unfold handle_missing_values in Hrun.
    apply bind_Ok_inv in Hrun as (st & Hloop & [= <- _]).
    apply (for_each_labels _ (λ s, s.1.1)) in Hloop; [exact Hloop|].
    apply handle_missing_column_labels.
  - apply (for_each_labels _ fst) in Hrun; [exact Hrun|apply fix_column_labels].
  - unfold detect_outliers in Hrun.
    destruct (negb (length (numeric_labels df) =? 0)%nat); [|by injection Hrun as <- _].
    destruct (String.eqb (outlier_method self) "iqr").
    { apply (for_each_labels _ fst) in Hrun; [exact Hrun|apply iqr_column_labels]. }
    destruct (String.eqb (outlier_method self) "isolation_forest");
      [|by injection Hrun as <- _].
    apply bind_Ok_inv in Hrun as (data & _ & Hrun).
    apply bind_Ok_inv in Hrun as (ls & _ & Hrun).
    apply (for_each_labels _ fst) in Hrun; [exact Hrun|].
    apply isolation_column_labels.
  - apply (for_each_labels _ fst) in Hrun; [exact Hrun|apply normalize_column_labels].
  - apply (for_each_labels _ fst) in Hrun; [exact Hrun|apply dedup_column_labels].
  - unfold scale_numeric_columns in Hrun.
    destruct (negb (scale_numeric self)); [by injection Hrun as <- _|].
    apply (for_each_labels _ fst) in Hrun; [exact Hrun|apply scale_column_labels].
Qed.

(** The theorem on the run of strategy "drop" that keeps one row of
    [gaps_frame]. *)
Lemma passes_keep_labels_witness :
  ∃ df' self',
    handle_missing_values default_cleaner gaps_frame "drop" = Ok (df', self') ∧
    labels df' = ["a"; "b"].
Proof.
  destruct (handle_missing_values default_cleaner gaps_frame "drop")
    as [[df' self']|e] eqn:Hrun; [|by vm_compute in Hrun].
  exists df', self'. split; [done|].
  apply (passes_keep_labels (H := sample_libraries) default_cleaner self' gaps_frame df'
           "drop").
  right. by left.
Defined.
